(** * YouTube cookie manager: a shallow embedding of [cookie_manager.py]

    The module drives a headless browser through a Gmail login, extracts the
    session cookies of the YouTube and Google domains, writes them to
    [cookies.json] and renews them from a background thread.

    The browser engine, the environment variables and the disk are external:
    they are modelled by a [World] that records every call made to them and
    scripts how they answer.  Python coroutines are embedded as computations
    in a state-and-exception monad over that world; [try]/[except Exception]
    becomes [try_except]. *)

From Stdlib Require Import ZArith List String Ascii Bool Lia.
From stdpp Require Import base option list strings pretty gmap.

(** ** Python string operations *)

Module PyStr.

(** [s.startswith(p)] *)
Fixpoint startswith (p s : string) : bool :=
  match p, s with
  | EmptyString, _ => true
  | String a p', String b s' => Ascii.eqb a b && startswith p' s'
  | String _ _, EmptyString => false
  end.

(** [sub in s] on two [str] values. *)
Fixpoint contains (sub s : string) : bool :=
  startswith sub s ||
  match s with
  | EmptyString => false
  | String _ s' => contains sub s'
  end.

(** [str.lower] on one character.  Characters are code points below 256:
    the ASCII capitals and the Latin-1 capitals (all of U+00C0..U+00DE but
    the multiplication sign U+00D7) move up by 32. *)
Definition lower_char (c : ascii) : ascii :=
  let n := nat_of_ascii c in
  if (65 <=? n) && (n <=? 90) then ascii_of_nat (n + 32)
  else if (192 <=? n) && (n <=? 222) && negb (n =? 215)
       then ascii_of_nat (n + 32)
  else c.

Fixpoint lower (s : string) : string :=
  match s with
  | EmptyString => EmptyString
  | String c s' => String (lower_char c) (lower s')
  end.

(** Truth value of an optional [str]: [None] and [""] are falsy. *)
Definition truthy (o : option string) : bool :=
  match o with
  | Some (String _ _) => true
  | _ => false
  end.

End PyStr.

(** ** Configuration *)

Definition YOUTUBE_URL : string := "https://www.youtube.com".
Definition GMAIL_LOGIN_URL : string := "https://accounts.google.com/signin".
Definition COOKIES_FILE : string := "cookies.json".
Definition LOGIN_TIMEOUT : Z := 60%Z.
Definition REFRESH_INTERVAL : Z := (12 * 60 * 60)%Z.

(** ** The outside world *)

(** An exception is carried by the text it prints as ([str(e)]).  Only
    subclasses of [Exception] are modelled. *)
Definition exn : Type := string.

(** The CSS selectors and the script the login flow hands to the page. *)
Inductive selector : Type :=
| SelEmailInput        (* the e-mail input field *)
| SelPasswordInput     (* the password input field *)
| SelNext              (* the Next button or a submit input *)
| SelNextOrSignIn      (* the Next or Sign in button, or a submit input *)
| SelAccountIndicator  (* an account button or an avatar image *)
| SelSignInButton.     (* a Sign in link or button *)

(** A cookie as the browser context returns it: a dict whose keys may be
    absent.  Two limits of the embedding: a string holds code points below
    256, and an expiry is a whole number of seconds since the epoch, where
    the driver reports a float.  What is proved about cookies is proved
    within these limits. *)
Record Cookie : Type := mkCookie {
  c_name : option string;
  c_value : option string;
  c_domain : option string;
  c_path : option string;
  c_expires : option Z;
  c_httpOnly : option bool;
  c_secure : option bool;
  c_sameSite : option string
}.

(** How the browser engine answers during one refresh.  [None] in an
    [option exn] means the call returns normally.  The answer to
    [page.fill] may depend on the text that is typed: the message of the
    exception it raises can repeat that text. *)
Record Engine : Type := mkEngine {
  e_playwright_start : option exn;
  e_launch : option exn;
  e_new_context : option exn;
  e_new_page : option exn;
  e_set_extra_http_headers : option exn;
  e_goto : string → option exn;
  e_wait_for_selector : selector → option exn;
  e_fill : selector → string → option exn;
  e_click : selector → option exn;
  e_wait_for_function : option exn;
  e_url : string;
  e_content : exn + string;
  e_query_selector : selector → exn + bool;
  e_cookies : exn + list Cookie;
  e_page_close : option exn;
  e_browser_close : option exn
}.

(** Every call that reaches the engine, the clock or the disk is recorded,
    whether it then succeeds or raises. *)
Inductive event : Type :=
| EvPlaywrightStart
| EvLaunch
| EvNewContext
| EvNewPage
| EvSetHeaders
| EvGoto (url : string)
| EvWaitForSelector (sel : selector) (timeout_ms : Z)
| EvFill (sel : selector) (text : string)
| EvClick (sel : selector)
| EvSleep (seconds : Z)
| EvWaitForFunction (timeout_ms : Z)
| EvContent
| EvQuerySelector (sel : selector)
| EvCookies
| EvPageClose
| EvBrowserClose
| EvTimeSleep (seconds : Z)
| EvJoin (thread : nat) (timeout : Z)
| EvOpenWrite (path : string)
| EvWrite (path : string) (data : string).

(** The lines the module prints, one constructor per [print] call. *)
Inductive log_msg : Type :=
| LogStartBrowserFailed (e : exn)
| LogCloseError (e : exn)
| LogLoggingIn (email : string)
| LogLoginSuccessful
| LogTwoFactorRequired
| LogAlreadyAuthenticated
| LogLoginMayHaveFailed (url : string)
| LogLoginFailed (e : exn)
| LogNavigating
| LogLoggedIntoYouTube
| LogSignInButtonFound
| LogAppearsLoggedIn
| LogNavigateFailed (e : exn)
| LogExtracting
| LogNoCookies
| LogNoYouTubeCookies
| LogSaved (n : nat) (path : string)
| LogExtractFailed (e : exn)
| LogMissingCredentials
| LogProcessFailed (e : exn)
| LogRefreshed
| LogRefreshFailed
| LogRefreshError (e : exn)
| LogSyncRefreshError (e : exn)
| LogNoCookiesFile
| LogCookiesAlreadyExist
| LogNoCookiesRefreshing
| LogLoopStarting (hours : Z)
| LogScheduledRefresh
| LogLoopStopped
| LogLoopAlreadyRunning
| LogLoopStarted
| LogStopped.

(** The text of a printed line. *)
Definition render (m : log_msg) : string :=
  match m with
  | LogStartBrowserFailed e => "⚠️ Failed to start browser: " +:+ e
  | LogCloseError e => "⚠️ Error closing browser: " +:+ e
  | LogLoggingIn email => "🔐 Logging into Gmail with " +:+ email +:+ "..."
  | LogLoginSuccessful => "✅ Gmail login successful"
  | LogTwoFactorRequired =>
    "⚠️ 2FA verification required. Please use App Password instead of regular password."
  | LogAlreadyAuthenticated => "✅ Login successful (already authenticated)"
  | LogLoginMayHaveFailed url => "⚠️ Login may have failed. Current URL: " +:+ url
  | LogLoginFailed e => "⚠️ Gmail login failed: " +:+ e
  | LogNavigating => "🔄 Navigating to YouTube..."
  | LogLoggedIntoYouTube => "✅ Successfully logged into YouTube"
  | LogSignInButtonFound => "⚠️ Not logged into YouTube - found sign-in button"
  | LogAppearsLoggedIn => "✅ Appears to be logged into YouTube"
  | LogNavigateFailed e => "⚠️ Failed to navigate to YouTube: " +:+ e
  | LogExtracting => "🍪 Extracting cookies..."
  | LogNoCookies => "⚠️ No cookies found"
  | LogNoYouTubeCookies => "⚠️ No YouTube-related cookies found"
  | LogSaved n path => "✅ Saved " +:+ pretty n +:+ " cookies to " +:+ path
  | LogExtractFailed e => "⚠️ Failed to extract cookies: " +:+ e
  | LogMissingCredentials =>
    "⚠️ Missing credentials: Set YOUTUBE_EMAIL and YOUTUBE_PASSWORD environment variables"
  | LogProcessFailed e => "⚠️ Login process failed: " +:+ e
  | LogRefreshed => "🔄 Cookies refreshed successfully"
  | LogRefreshFailed => "⚠️ Cookie refresh failed"
  | LogRefreshError e => "⚠️ Cookie refresh error: " +:+ e
  | LogSyncRefreshError e => "⚠️ Sync cookie refresh error: " +:+ e
  | LogNoCookiesFile => "⚠️ No cookies file found. Run refresh_cookies() first."
  | LogCookiesAlreadyExist => "✅ Cookies file already exists"
  | LogNoCookiesRefreshing => "🔄 No cookies found, refreshing..."
  | LogLoopStarting hours =>
    "🔄 Starting automatic cookie refresh every " +:+ pretty hours +:+ " hours"
  | LogScheduledRefresh => "⏰ Time for scheduled cookie refresh..."
  | LogLoopStopped => "🔄 Cookie refresh loop stopped"
  | LogLoopAlreadyRunning => "🔄 Cookie refresh loop already running"
  | LogLoopStarted => "✅ Cookie refresh loop started"
  | LogStopped => "🛑 Cookie refresh loop stopped"
  end.

(** The cookie file on disk. *)
Inductive file_state : Type :=
| Missing
| Unreadable (e : exn)       (* exists, but opening or decoding it raises *)
| Text (contents : string).

(** What the disk does to the next write of the cookie file. *)
Inductive write_fault : Type :=
| NoFault
| OpenFault (e : exn)                 (* [open(path, 'w')] raises *)
| DumpFault (written : nat) (e : exn) (* raises after [written] characters *).

Record World : Type := mkWorld {
  environ : gmap string string;
  engine : Engine;
  disk_fault : write_fault;
  cookies_file : file_state;
  stdout : list log_msg;
  trace : list event;
  self_browser : bool;    (* [self.browser] is set *)
  self_page : bool        (* [self.page] is set *)
}.

Definition set_cookies_file (f : file_state) (w : World) : World :=
  mkWorld (environ w) (engine w) (disk_fault w) f (stdout w) (trace w)
          (self_browser w) (self_page w).
Definition add_stdout (m : log_msg) (w : World) : World :=
  mkWorld (environ w) (engine w) (disk_fault w) (cookies_file w)
          (stdout w ++ [m]) (trace w) (self_browser w) (self_page w).
Definition add_trace (ev : event) (w : World) : World :=
  mkWorld (environ w) (engine w) (disk_fault w) (cookies_file w)
          (stdout w) (trace w ++ [ev]) (self_browser w) (self_page w).
Definition set_self_browser (b : bool) (w : World) : World :=
  mkWorld (environ w) (engine w) (disk_fault w) (cookies_file w)
          (stdout w) (trace w) b (self_page w).
Definition set_self_page (b : bool) (w : World) : World :=
  mkWorld (environ w) (engine w) (disk_fault w) (cookies_file w)
          (stdout w) (trace w) (self_browser w) b.

(** ** The monad of Python computations *)

Inductive result (A : Type) : Type :=
| Val (a : A)
| Raise (e : exn).
Arguments Val {A} a.
Arguments Raise {A} e.

Definition M (A : Type) : Type := World → result A * World.

Definition ret {A} (a : A) : M A := λ w, (Val a, w).

Definition bind {A B} (m : M A) (k : A → M B) : M B := λ w,
  match m w with
  | (Val a, w') => k a w'
  | (Raise e, w') => (Raise e, w')
  end.

Notation "x <- m ;; k" := (bind m (λ x, k))
  (at level 100, m at next level, right associativity, only parsing).
Notation "m ;; k" := (bind m (λ _, k))
  (at level 100, right associativity, only parsing).

Definition raise {A} (e : exn) : M A := λ w, (Raise e, w).

(** [try: body  except Exception as e: handler e] *)
Definition try_except {A} (body : M A) (handler : exn → M A) : M A := λ w,
  match body w with
  | (Val a, w') => (Val a, w')
  | (Raise e, w') => handler e w'
  end.

Definition get {A} (f : World → A) : M A := λ w, (Val (f w), w).
Definition modify (f : World → World) : M unit := λ w, (Val tt, f w).
Definition print (m : log_msg) : M unit := modify (add_stdout m).
Definition emit (ev : event) : M unit := modify (add_trace ev).

(** A call that returns nothing: record it, then return or raise as the
    engine says. *)
Definition call (ev : event) (answer : Engine → option exn) : M unit :=
  emit ev ;;
  r <- get (λ w, answer (engine w)) ;;
  match r with
  | None => ret tt
  | Some e => raise e
  end.

(** A call that returns a value. *)
Definition ask {A} (ev : event) (answer : Engine → exn + A) : M A :=
  emit ev ;;
  r <- get (λ w, answer (engine w)) ;;
  match r with
  | inr a => ret a
  | inl e => raise e
  end.

Definition os_getenv (name : string) : M (option string) :=
  get (λ w, environ w !! name).

Definition asyncio_sleep (seconds : Z) : M unit := emit (EvSleep seconds).

(** ** [YouTubeCookieManager] *)

(** The operations on [self.page] are those of a manager that holds a
    page, as it does between [__aenter__] and [__aexit__], where the module
    uses them.  On a manager whose page is still [None] each of them would
    be an [AttributeError] before any call reached the engine; that case is
    left out, and the properties of the coroutines that call the page are
    about a manager with a page. *)
Definition page_goto (url : string) : M unit :=
  call (EvGoto url) (λ e, e_goto e url).
Definition page_wait_for_selector (sel : selector) (timeout_ms : Z) : M unit :=
  call (EvWaitForSelector sel timeout_ms) (λ e, e_wait_for_selector e sel).
Definition page_fill (sel : selector) (text : string) : M unit :=
  call (EvFill sel text) (λ e, e_fill e sel text).
Definition page_click (sel : selector) : M unit :=
  call (EvClick sel) (λ e, e_click e sel).
Definition page_wait_for_function (timeout_ms : Z) : M unit :=
  call (EvWaitForFunction timeout_ms) e_wait_for_function.
Definition page_url : M string := get (λ w, e_url (engine w)).
Definition page_content : M string := ask EvContent e_content.
Definition page_query_selector (sel : selector) : M bool :=
  ask (EvQuerySelector sel) (λ e, e_query_selector e sel).
Definition context_cookies : M (list Cookie) := ask EvCookies e_cookies.

(** [__init__]: both handles start as [None]. *)
Definition manager_init : M unit :=
  modify (set_self_browser false) ;;
  modify (set_self_page false).

Definition start_browser : M unit :=
  try_except
    (call EvPlaywrightStart e_playwright_start ;;
     call EvLaunch e_launch ;;
     modify (set_self_browser true) ;;
     call EvNewContext e_new_context ;;
     call EvNewPage e_new_page ;;
     modify (set_self_page true) ;;
     call EvSetHeaders e_set_extra_http_headers)
    (λ e : exn, print (LogStartBrowserFailed e) ;; raise e).

Definition close_browser : M unit :=
  try_except
    (p <- get self_page ;;
     (if p then call EvPageClose e_page_close else ret tt) ;;
     b <- get self_browser ;;
     (if b then call EvBrowserClose e_browser_close else ret tt))
    (λ e : exn, print (LogCloseError e)).

Definition login_to_gmail (email password : string) : M bool :=
  try_except
    (print (LogLoggingIn email) ;;
     page_goto GMAIL_LOGIN_URL ;;
     page_wait_for_selector SelEmailInput (LOGIN_TIMEOUT * 1000)%Z ;;
     page_fill SelEmailInput email ;;
     page_click SelNext ;;
     page_wait_for_selector SelPasswordInput (LOGIN_TIMEOUT * 1000)%Z ;;
     asyncio_sleep 2%Z ;;
     page_fill SelPasswordInput password ;;
     page_click SelNextOrSignIn ;;
     try_except
       (page_wait_for_function (LOGIN_TIMEOUT * 1000)%Z ;;
        print LogLoginSuccessful ;;
        ret true)
       (λ wait_error : exn,
          current_url <- page_url ;;
          content <- page_content ;;
          if PyStr.contains "verify" (PyStr.lower current_url)
             || PyStr.contains "challenge" (PyStr.lower content)
          then print LogTwoFactorRequired ;; ret false
          else if PyStr.contains "youtube.com" current_url
                  || PyStr.contains "myaccount.google.com" current_url
          then print LogAlreadyAuthenticated ;; ret true
          else print (LogLoginMayHaveFailed current_url) ;; ret false))
    (λ e : exn, print (LogLoginFailed e) ;; ret false).

Definition navigate_to_youtube : M bool :=
  try_except
    (print LogNavigating ;;
     page_goto YOUTUBE_URL ;;
     asyncio_sleep 3%Z ;;
     try_except
       (page_wait_for_selector SelAccountIndicator 10000%Z ;;
        print LogLoggedIntoYouTube ;;
        ret true)
       (λ _,
          sign_in_button <- page_query_selector SelSignInButton ;;
          if sign_in_button
          then print LogSignInButtonFound ;; ret false
          else print LogAppearsLoggedIn ;; ret true))
    (λ e : exn, print (LogNavigateFailed e) ;; ret false).

(** ** JSON text, as [json.load] reads it *)

Module Json.

Set Warnings "-register-all".

(** A decoded value.  A string is its sequence of code points; a number
    keeps the text it was read from; an object is a [dict] in insertion
    order, without duplicate keys. *)
Inductive json : Type :=
| JNull
| JBool (b : bool)
| JNumber (lexeme : string)
| JString (s : list N)
| JArray (items : list json)
| JObject (members : list (list N * json)).

Definition dquote : ascii := "034"%char.
Definition backslash : ascii := "092"%char.
Definition newline : ascii := "010"%char.

Definition code (c : ascii) : N := N_of_ascii c.

(** [WHITESPACE]: space, tab, line feed, carriage return. *)
Definition is_ws (c : ascii) : bool :=
  Ascii.eqb c " "%char || Ascii.eqb c "009"%char
  || Ascii.eqb c "010"%char || Ascii.eqb c "013"%char.

Fixpoint skip_ws (s : string) : string :=
  match s with
  | String c r => if is_ws c then skip_ws r else s
  | EmptyString => s
  end.

Definition is_digit (c : ascii) : bool := ((48 <=? code c) && (code c <=? 57))%N.

Definition hex_value (c : ascii) : option N :=
  let n := code c in
  if ((48 <=? n) && (n <=? 57))%N then Some (n - 48)%N
  else if ((65 <=? n) && (n <=? 70))%N then Some (n - 55)%N
  else if ((97 <=? n) && (n <=? 102))%N then Some (n - 87)%N
  else None.

(** Four hexadecimal digits, [_decode_uXXXX]. *)
Definition decode_uXXXX (h1 h2 h3 h4 : ascii) : option N :=
  a ← hex_value h1; b ← hex_value h2; c ← hex_value h3; d ← hex_value h4;
  Some (((a * 16 + b) * 16 + c) * 16 + d)%N.

(** The one-character escapes, [BACKSLASH]. *)
Definition simple_escape (c : ascii) : option N :=
  match code c with
  | 34 => Some 34   (* quote *)
  | 92 => Some 92   (* backslash *)
  | 47 => Some 47   (* slash *)
  | 98 => Some 8    (* b *)
  | 102 => Some 12  (* f *)
  | 110 => Some 10  (* n *)
  | 114 => Some 13  (* r *)
  | 116 => Some 9   (* t *)
  | _ => None
  end%N.

Definition is_high_surrogate (u : N) : bool := ((55296 <=? u) && (u <=? 56319))%N.
Definition is_low_surrogate (u : N) : bool := ((56320 <=? u) && (u <=? 57343))%N.
Definition join_surrogates (hi lo : N) : N :=
  (65536 + N.lor (N.shiftl (hi - 55296) 10) (lo - 56320))%N.

Definition cons_fst {A B} (a : A) (p : list A * B) : list A * B :=
  (a :: p.1, p.2).

(** [scanstring], strict: the text after an opening quote, up to and
    including the closing one. *)
Fixpoint scanstring (s : string) : option (list N * string) :=
  match s with
  | EmptyString => None
  | String c r =>
    if Ascii.eqb c dquote then Some ([], r)
    else if Ascii.eqb c backslash then
      match r with
      | EmptyString => None
      | String e r1 =>
        if Ascii.eqb e "u"%char then
          match r1 with
          | String h1 (String h2 (String h3 (String h4 r2))) =>
            match decode_uXXXX h1 h2 h3 h4 with
            | None => None
            | Some uni =>
              match r2 with
              | String b2 (String u2 r3) =>
                if is_high_surrogate uni && Ascii.eqb b2 backslash && Ascii.eqb u2 "u"%char then
                  match r3 with
                  | String k1 (String k2 (String k3 (String k4 r4))) =>
                    match decode_uXXXX k1 k2 k3 k4 with
                    | None => None
                    | Some uni2 =>
                      if is_low_surrogate uni2
                      then cons_fst (join_surrogates uni uni2) <$> scanstring r4
                      else cons_fst uni <$> scanstring r2
                    end
                  | _ => None
                  end
                else cons_fst uni <$> scanstring r2
              | _ => cons_fst uni <$> scanstring r2
              end
            end
          | _ => None
          end
        else
          match simple_escape e with
          | Some u => cons_fst u <$> scanstring r1
          | None => None
          end
      end
    else if (code c <? 32)%N then None
    else cons_fst (code c) <$> scanstring r
  end.

(** The longest run of digits at the front of [s]. *)
Fixpoint span_digits (s : string) : string * string :=
  match s with
  | String c r =>
    if is_digit c then let '(ds, r') := span_digits r in (String c ds, r')
    else (EmptyString, s)
  | EmptyString => (EmptyString, s)
  end.

(** The integer part of [NUMBER_RE]: an optional minus sign, then either a
    single zero or a non-zero digit followed by any digits. *)
Definition match_integer (s : string) : option (string * string) :=
  let '(sign, r) :=
    match s with
    | String "-"%char r => ("-", r)
    | _ => (EmptyString, s)
    end in
  match r with
  | String c r' =>
    if Ascii.eqb c "0"%char then Some (sign +:+ "0", r')
    else if is_digit c then
      let '(ds, r'') := span_digits r' in Some (sign +:+ String c ds, r'')
    else None
  | EmptyString => None
  end.

(** The optional fraction: a dot and at least one digit. *)
Definition match_frac (s : string) : string * string :=
  match s with
  | String "."%char r =>
    match span_digits r with
    | (String d ds, r') => (String "."%char (String d ds), r')
    | _ => (EmptyString, s)
    end
  | _ => (EmptyString, s)
  end.

(** The optional exponent: e or E, an optional sign, at least one digit. *)
Definition match_exp (s : string) : string * string :=
  match s with
  | String e r =>
    if Ascii.eqb e "e"%char || Ascii.eqb e "E"%char then
      let '(sign, r1) :=
        match r with
        | String "+"%char r1 => ("+", r1)
        | String "-"%char r1 => ("-", r1)
        | _ => (EmptyString, r)
        end in
      match span_digits r1 with
      | (String d ds, r') => (String e (sign +:+ String d ds), r')
      | _ => (EmptyString, s)
      end
    else (EmptyString, s)
  | EmptyString => (EmptyString, s)
  end.

(** [NUMBER_RE.match]: the matched text and what follows it. *)
Definition match_number (s : string) : option (string * string) :=
  '(int_part, r1) ← match_integer s;
  let '(frac, r2) := match_frac r1 in
  let '(exp, r3) := match_exp r2 in
  Some (int_part +:+ frac +:+ exp, r3).

(** [s[idx:idx+len(p)] == p]; returns what follows. *)
Fixpoint strip_prefix (p s : string) : option string :=
  match p, s with
  | EmptyString, _ => Some s
  | String a p', String b s' => if Ascii.eqb a b then strip_prefix p' s' else None
  | String _ _, EmptyString => None
  end.

Definition keyword (p : string) (v : json) (s : string) : option (json * string) :=
  r ← strip_prefix p s; Some (v, r).

Fixpoint list_eqb (a b : list N) : bool :=
  match a, b with
  | [], [] => true
  | x :: a', y :: b' => N.eqb x y && list_eqb a' b'
  | _, _ => false
  end.

(** [d[key] = value] on a dict kept in insertion order. *)
Fixpoint dict_setitem (key : list N) (value : json)
    (d : list (list N * json)) : list (list N * json) :=
  match d with
  | [] => [(key, value)]
  | (k, v) :: d' =>
    if list_eqb k key then (k, value) :: d'
    else (k, v) :: dict_setitem key value d'
  end.

(** [dict(pairs)] *)
Definition dict_of_pairs (pairs : list (list N * json)) : list (list N * json) :=
  foldl (λ d kv, dict_setitem kv.1 kv.2 d) [] pairs.

(** [scan_once], with [JSONArray] and [JSONObject] unfolded into it; the two
    loops are [array_loop] and [object_loop].  [fuel] bounds the depth of
    the recursion. *)
Fixpoint scan_once (fuel : nat) (s : string) {struct fuel} : option (json * string) :=
  match fuel with
  | O => None
  | S fuel =>
    match s with
    | EmptyString => None
    | String c r =>
      if Ascii.eqb c dquote then
        '(str, r') ← scanstring r; Some (JString str, r')
      else if Ascii.eqb c "{"%char then
        match skip_ws r with
        | String c1 r1 =>
          if Ascii.eqb c1 "}"%char then Some (JObject [], r1)
          else if Ascii.eqb c1 dquote then
            '(pairs, r2) ← object_loop fuel r1;
            Some (JObject (dict_of_pairs pairs), r2)
          else None
        | EmptyString => None
        end
      else if Ascii.eqb c "["%char then
        match skip_ws r with
        | String c1 r1 =>
          if Ascii.eqb c1 "]"%char then Some (JArray [], r1)
          else '(items, r2) ← array_loop fuel (String c1 r1); Some (JArray items, r2)
        | EmptyString => None
        end
      else if Ascii.eqb c "n"%char then keyword "null" JNull s
      else if Ascii.eqb c "t"%char then keyword "true" (JBool true) s
      else if Ascii.eqb c "f"%char then keyword "false" (JBool false) s
      else
        match match_number s with
        | Some (lexeme, r') => Some (JNumber lexeme, r')
        | None =>
          if Ascii.eqb c "N"%char then keyword "NaN" (JNumber "NaN") s
          else if Ascii.eqb c "I"%char then keyword "Infinity" (JNumber "Infinity") s
          else if Ascii.eqb c "-"%char then keyword "-Infinity" (JNumber "-Infinity") s
          else None
        end
    end
  end
with array_loop (fuel : nat) (s : string) {struct fuel} : option (list json * string) :=
  match fuel with
  | O => None
  | S fuel =>
    '(value, r) ← scan_once fuel s;
    match skip_ws r with
    | String c r1 =>
      if Ascii.eqb c "]"%char then Some ([value], r1)
      else if Ascii.eqb c ","%char then
        '(rest, r2) ← array_loop fuel (skip_ws r1); Some (value :: rest, r2)
      else None
    | EmptyString => None
    end
  end
with object_loop (fuel : nat) (s : string) {struct fuel}
    : option (list (list N * json) * string) :=
  match fuel with
  | O => None
  | S fuel =>
    '(key, r) ← scanstring s;
    match skip_ws r with
    | String c r1 =>
      if Ascii.eqb c ":"%char then
        '(value, r2) ← scan_once fuel (skip_ws r1);
        match skip_ws r2 with
        | String c2 r3 =>
          if Ascii.eqb c2 "}"%char then Some ([(key, value)], r3)
          else if Ascii.eqb c2 ","%char then
            match skip_ws r3 with
            | String c3 r4 =>
              if Ascii.eqb c3 dquote then
                '(rest, r5) ← object_loop fuel r4; Some ((key, value) :: rest, r5)
              else None
            | EmptyString => None
            end
          else None
        | EmptyString => None
        end
      else None
    | EmptyString => None
    end
  end.

(** [json.loads]: one value, white space around it and nothing else.
    [None] is a [JSONDecodeError].  The fuel is enough for every text
    ([loads_fuel_enough]); the interpreter's own limits, on the depth of
    nesting and on the number of digits of an integer, raise other
    exceptions, which the callers catch just the same, and are left out. *)
Definition loads (s : string) : option json :=
  '(obj, r) ← scan_once (2 * String.length s + 1) (skip_ws s);
  match skip_ws r with
  | EmptyString => Some obj
  | String _ _ => None
  end.

(** [len(x)]; [None] is the [TypeError] of a value without a length. *)
Definition py_len (v : json) : option nat :=
  match v with
  | JString s => Some (length s)
  | JArray items => Some (length items)
  | JObject members => Some (length members)
  | JNull | JBool _ | JNumber _ => None
  end.

(** *** Encoding, as [json.dump] writes it

    The encoder is the one [json.dump(obj, f, indent=2)] runs with its
    defaults ([ensure_ascii=True]). *)

Definition hex_digit (n : N) : ascii :=
  if (n <? 10)%N then ascii_of_N (48 + n) else ascii_of_N (87 + n).

(** [ESCAPE_DCT] and the [\uXXXX] fallback of [encode_basestring_ascii],
    for a character below 256. *)
Definition escape_char (c : ascii) : string :=
  let n := code c in
  if (n =? 34)%N then String backslash (String dquote EmptyString)
  else if (n =? 92)%N then String backslash (String backslash EmptyString)
  else if (n =? 10)%N then String backslash "n"
  else if (n =? 13)%N then String backslash "r"
  else if (n =? 9)%N then String backslash "t"
  else if (n =? 8)%N then String backslash "b"
  else if (n =? 12)%N then String backslash "f"
  else if ((32 <=? n) && (n <=? 126))%N then String c EmptyString
  else String backslash
         (String "u"%char (String "0"%char (String "0"%char
            (String (hex_digit (n / 16)) (String (hex_digit (n mod 16)) EmptyString))))).

Fixpoint escape (s : string) : string :=
  match s with
  | EmptyString => EmptyString
  | String c r => escape_char c +:+ escape r
  end.

Definition encode_string (s : string) : string :=
  String dquote (escape s +:+ String dquote EmptyString).

Definition encode_bool (b : bool) : string := if b then "true" else "false".

(** [int.__repr__] *)
Definition encode_int (z : Z) : string := pretty z.

(** A line break and the indentation of nesting depth [level]. *)
Definition newline_indent (level : nat) : string :=
  String newline (String.concat EmptyString (replicate (2 * level) " ")).

(** A dict of scalars at nesting depth [level]: the members are given as
    key and already encoded value. *)
Definition encode_dict (level : nat) (members : list (string * string)) : string :=
  match members with
  | [] => "{}"
  | _ =>
    "{" +:+ newline_indent (S level)
    +:+ String.concat ("," +:+ newline_indent (S level))
          (map (λ kv, encode_string kv.1 +:+ ": " +:+ kv.2) members)
    +:+ newline_indent level +:+ "}"
  end.

(** A list at nesting depth [level], of already encoded items. *)
Definition encode_list (level : nat) (items : list string) : string :=
  match items with
  | [] => "[]"
  | _ =>
    "[" +:+ newline_indent (S level)
    +:+ String.concat ("," +:+ newline_indent (S level)) items
    +:+ newline_indent level +:+ "]"
  end.

Definition codes (s : string) : list N := map code (list_ascii_of_string s).

End Json.

(** ** Cookie extraction and the cookie file *)

(** An entry of [youtube_cookies]: the dict literal built for every kept
    cookie. *)
Record PersistedCookie : Type := mkPersisted {
  p_name : string;
  p_value : string;
  p_domain : string;
  p_path : string;
  p_expires : Z;
  p_httpOnly : bool;
  p_secure : bool;
  p_sameSite : string
}.

Definition TARGET_DOMAINS : list string :=
  [".youtube.com"; ".google.com"; "youtube.com"; "google.com"].

(** [cookie[key]]: a [KeyError] when the key is absent. *)
Definition getitem {A} (key : string) (o : option A) : M A :=
  match o with
  | Some a => ret a
  | None => raise ("'" +:+ key +:+ "'")
  end.

(** [any(domain in d for domain in TARGET_DOMAINS)] *)
Definition is_target_domain (d : string) : bool :=
  existsb (λ domain, PyStr.contains domain d) TARGET_DOMAINS.

(** The [for cookie in cookies] loop; [youtube_cookies] is the list built
    so far. *)
Fixpoint filter_and_convert (cookies : list Cookie)
    (youtube_cookies : list PersistedCookie) : M (list PersistedCookie) :=
  match cookies with
  | [] => ret youtube_cookies
  | cookie :: rest =>
    d <- getitem "domain" (c_domain cookie) ;;
    if is_target_domain d then
      name <- getitem "name" (c_name cookie) ;;
      value <- getitem "value" (c_value cookie) ;;
      domain <- getitem "domain" (c_domain cookie) ;;
      filter_and_convert rest
        (youtube_cookies ++
         [ {| p_name := name;
              p_value := value;
              p_domain := domain;
              p_path := default "/" (c_path cookie);
              p_expires := default (-1)%Z (c_expires cookie);
              p_httpOnly := default false (c_httpOnly cookie);
              p_secure := default false (c_secure cookie);
              p_sameSite := default "no_restriction" (c_sameSite cookie) |} ])
    else filter_and_convert rest youtube_cookies
  end.

Definition encode_cookie (c : PersistedCookie) : string :=
  Json.encode_dict 1
    [ ("name", Json.encode_string (p_name c));
      ("value", Json.encode_string (p_value c));
      ("domain", Json.encode_string (p_domain c));
      ("path", Json.encode_string (p_path c));
      ("expires", Json.encode_int (p_expires c));
      ("httpOnly", Json.encode_bool (p_httpOnly c));
      ("secure", Json.encode_bool (p_secure c));
      ("sameSite", Json.encode_string (p_sameSite c)) ].

(** [json.dumps(youtube_cookies, indent=2)] *)
Definition dumps_cookies (l : list PersistedCookie) : string :=
  Json.encode_list 0 (map encode_cookie l).

(** The first [n] characters of [s]. *)
Fixpoint take_string (n : nat) (s : string) : string :=
  match n, s with
  | S n', String c r => String c (take_string n' r)
  | _, _ => EmptyString
  end.

(** [with open(COOKIES_FILE, 'w') as f: json.dump(youtube_cookies, f, indent=2)].
    Opening for writing truncates the file; the text then goes out, all of
    it or, when the disk fails, a part of it. *)
Definition write_cookies_file (youtube_cookies : list PersistedCookie) : M unit :=
  emit (EvOpenWrite COOKIES_FILE) ;;
  fault <- get disk_fault ;;
  match fault with
  | OpenFault e => raise e
  | NoFault =>
    modify (set_cookies_file (Text EmptyString)) ;;
    emit (EvWrite COOKIES_FILE (dumps_cookies youtube_cookies)) ;;
    modify (set_cookies_file (Text (dumps_cookies youtube_cookies)))
  | DumpFault written e =>
    modify (set_cookies_file (Text EmptyString)) ;;
    emit (EvWrite COOKIES_FILE (take_string written (dumps_cookies youtube_cookies))) ;;
    modify (set_cookies_file (Text (take_string written (dumps_cookies youtube_cookies)))) ;;
    raise e
  end.

Definition extract_and_save_cookies : M bool :=
  try_except
    (print LogExtracting ;;
     cookies <- context_cookies ;;
     match cookies with
     | [] => print LogNoCookies ;; ret false
     | _ :: _ =>
       youtube_cookies <- filter_and_convert cookies [] ;;
       match youtube_cookies with
       | [] => print LogNoYouTubeCookies ;; ret false
       | _ :: _ =>
         write_cookies_file youtube_cookies ;;
         print (LogSaved (length youtube_cookies) COOKIES_FILE) ;;
         ret true
       end
     end)
    (λ e : exn, print (LogExtractFailed e) ;; ret false).

Definition perform_login_and_save_cookies : M bool :=
  try_except
    (email <- os_getenv "YOUTUBE_EMAIL" ;;
     password <- os_getenv "YOUTUBE_PASSWORD" ;;
     if negb (PyStr.truthy email) || negb (PyStr.truthy password) then
       print LogMissingCredentials ;; ret false
     else
       logged_in <- login_to_gmail (default EmptyString email)
                                   (default EmptyString password) ;;
       if negb logged_in then ret false
       else
         on_youtube <- navigate_to_youtube ;;
         if negb on_youtube then ret false
         else extract_and_save_cookies)
    (λ e : exn, print (LogProcessFailed e) ;; ret false).

(** ** Refresh *)

(** [async with manager: body]: [__aenter__], the body, then [__aexit__] on
    both the normal and the exceptional exit; [__aexit__] returns [None], so
    an exception of the body goes on propagating. *)
Definition async_with {A} (aenter aexit : M unit) (body : M A) : M A :=
  aenter ;;
  (λ w, match body w with
        | (Val a, w') => (aexit ;; ret a) w'
        | (Raise e, w') => (aexit ;; raise e) w'
        end).

Definition refresh_cookies_async : M bool :=
  try_except
    (manager_init ;;
     async_with start_browser close_browser
       (success <- perform_login_and_save_cookies ;;
        (if success then print LogRefreshed else print LogRefreshFailed) ;;
        ret success))
    (λ e : exn, print (LogRefreshError e) ;; ret false).

(** The synchronous wrapper runs the coroutine to completion on the
    thread's event loop; getting or creating that loop is taken not to
    fail.  [refresh_cookies_in], further down, has the case in which it
    does. *)
Definition refresh_cookies : M bool :=
  try_except refresh_cookies_async
    (λ e : exn, print (LogSyncRefreshError e) ;; ret false).

(** ** Reading the cookie file *)

Definition check_cookies_file : M bool :=
  try_except
    (f <- get cookies_file ;;
     match f with
     | Missing => ret false
     | Unreadable e => raise e
     | Text contents =>
       match Json.loads contents with
       | None => raise "JSONDecodeError"
       | Some cookies =>
         match Json.py_len cookies with
         | None => raise "TypeError"
         | Some n => ret (0 <? n)
         end
       end
     end)
    (λ _ : exn, ret false).

(** The yt-dlp options: [{'cookiefile': COOKIES_FILE}] or [{}]. *)
Definition get_cookies_for_ytdl : M (gmap string string) :=
  valid <- check_cookies_file ;;
  if valid then ret {[ "cookiefile" := COOKIES_FILE ]}
  else print LogNoCookiesFile ;; ret ∅.

Definition ensure_cookies : M bool :=
  valid <- check_cookies_file ;;
  if valid then print LogCookiesAlreadyExist ;; ret true
  else print LogNoCookiesRefreshing ;; refresh_cookies.

(** ** The renewal loop *)

(** Where a worker thread stands in [_refresh_loop]. *)
Inductive pc : Type :=
| AtInitialRefresh        (* started; the first [refresh_cookies()] is ahead *)
| AtWhile                 (* [while not _stop_refresh] *)
| AtFor (i : nat)         (* head of the [for] loop, [i] ticks done *)
| AtSleep (i : nat)       (* [time.sleep(60)] of tick [i] *)
| AtScheduledCheck        (* [if not _stop_refresh] after the [for] loop *)
| AtScheduledRefresh      (* the scheduled [refresh_cookies()] is ahead *)
| Finished.               (* the thread function returned or died *)

(** What a step of the worker does. *)
Inductive label : Type :=
| Tau                     (* a test or a jump *)
| Refreshed (ok : bool)   (* a call of [refresh_cookies()] and its result *)
| Slept (seconds : Z)
| Exited                  (* left the [while] loop and returned *)
| Crashed (e : exn).      (* an exception escaped the thread function *)

(** [range(REFRESH_INTERVAL // 60)] *)
Definition TICKS : nat := Z.to_nat (REFRESH_INTERVAL / 60).

(** A call of [refresh_cookies()] from the loop: the result is dropped; an
    exception would end the thread. *)
Definition loop_refresh (w : World) : label * pc * World :=
  match refresh_cookies w with
  | (Val ok, w') => (Refreshed ok, AtWhile, w')
  | (Raise e, w') => (Crashed e, Finished, w')
  end.

(** One step of [_refresh_loop]; [stop] is the value of [_stop_refresh] the
    step reads, if it reads it. *)
Definition loop_step (stop : bool) (p : pc) (w : World) : option (label * pc * World) :=
  match p with
  | AtInitialRefresh =>
    Some (loop_refresh (add_stdout (LogLoopStarting (REFRESH_INTERVAL / 3600)) w))
  | AtWhile =>
    if stop then Some (Exited, Finished, add_stdout LogLoopStopped w)
    else Some (Tau, AtFor 0, w)
  | AtFor i =>
    if i <? TICKS then
      if stop then Some (Tau, AtScheduledCheck, w)
      else Some (Tau, AtSleep i, w)
    else Some (Tau, AtScheduledCheck, w)
  | AtSleep i => Some (Slept 60, AtFor (S i), add_trace (EvTimeSleep 60) w)
  | AtScheduledCheck =>
    if stop then Some (Tau, AtWhile, w)
    else Some (Tau, AtScheduledRefresh, w)
  | AtScheduledRefresh => Some (loop_refresh (add_stdout LogScheduledRefresh w))
  | Finished => None
  end.

(** ** The scheduler *)

(** The module globals, the thread objects created so far and the world. *)
Record Process : Type := mkProcess {
  _refresh_thread : option nat;
  _stop_refresh : bool;
  threads : list pc;
  world : World
}.

Definition initial (w : World) : Process := mkProcess None false [] w.

Definition pc_alive (p : pc) : bool :=
  match p with
  | Finished => false
  | _ => true
  end.

(** [thread.is_alive()] *)
Definition is_alive (P : Process) (t : nat) : bool :=
  match threads P !! t with
  | Some p => pc_alive p
  | None => false
  end.

(** The number of worker threads that are running. *)
Definition active_workers (P : Process) : nat :=
  length (filter (λ p, pc_alive p = true) (threads P)).

(** Thread [t] takes one step. *)
Definition thread_step (t : nat) (P : Process) : option (label * Process) :=
  p ← threads P !! t;
  '(l, p', w') ← loop_step (_stop_refresh P) p (world P);
  Some (l, mkProcess (_refresh_thread P) (_stop_refresh P) (<[t := p']> (threads P)) w').

(** Thread [t] takes up to [n] steps; the labels are collected. *)
Fixpoint run_thread (n : nat) (t : nat) (P : Process) : list label * Process :=
  match n with
  | O => ([], P)
  | S n' =>
    match thread_step t P with
    | Some (l, P') => let '(ls, P'') := run_thread n' t P' in (l :: ls, P'')
    | None => ([], P)
    end
  end.

Definition start_cookie_refresh_loop (P : Process) : Process :=
  if match _refresh_thread P with
     | Some t => is_alive P t
     | None => false
     end
  then mkProcess (_refresh_thread P) (_stop_refresh P) (threads P)
                 (add_stdout LogLoopAlreadyRunning (world P))
  else mkProcess (Some (length (threads P))) false (threads P ++ [AtInitialRefresh])
                 (add_stdout LogLoopStarted (world P)).

(** [join(timeout=5)] blocks the caller while the worker goes on:
    [during_join] is the number of steps the worker gets to take before the
    thread ends or the five seconds are over. *)
Definition stop_cookie_refresh_loop (during_join : nat) (P : Process) : Process :=
  let P1 := mkProcess (_refresh_thread P) true (threads P) (world P) in
  match _refresh_thread P1 with
  | Some t =>
    let P2 := mkProcess (_refresh_thread P1) (_stop_refresh P1) (threads P1)
                        (add_trace (EvJoin t 5) (world P1)) in
    let P3 := (run_thread during_join t P2).2 in
    mkProcess (_refresh_thread P3) (_stop_refresh P3) (threads P3)
              (add_stdout LogStopped (world P3))
  | None => P1
  end.

(** What can happen to the process: a call of [start] or [stop] from the
    main thread, a step of a worker, or a change of the outside world. *)
Inductive step : Process → Process → Prop :=
| step_start P : step P (start_cookie_refresh_loop P)
| step_stop n P : step P (stop_cookie_refresh_loop n P)
| step_thread t l P P' : thread_step t P = Some (l, P') → step P P'
| step_world w' P :
    step P (mkProcess (_refresh_thread P) (_stop_refresh P) (threads P) w').

Inductive reachable : Process → Prop :=
| reachable_initial w : reachable (initial w)
| reachable_step P P' : reachable P → step P P' → reachable P'.

(** ** Auxiliary notions for the properties *)

(** A computation that returns on every world, whatever the engine does. *)
Definition returns {A} (m : M A) : Prop := ∀ w, ∃ a w', m w = (Val a, w').

(** From [w] to [w'] the environment, the engine and the disk are as they
    were, and the trace has grown by [allowed] events only. *)
Definition frame (allowed : event → Prop) (w w' : World) : Prop :=
  environ w' = environ w ∧ engine w' = engine w
  ∧ disk_fault w' = disk_fault w ∧ cookies_file w' = cookies_file w
  ∧ ∃ evs, trace w' = trace w ++ evs ∧ Forall allowed evs.

(** The trace of [w'] continues the trace of [w]. *)
Definition grows (w w' : World) : Prop :=
  ∃ evs, trace w' = trace w ++ evs.

(** Whatever [m] does to a world, the world before and the world after are
    in the relation [R]. *)
Definition respects {A} (R : World → World → Prop) (m : M A) : Prop :=
  ∀ w r w', m w = (r, w') → R w w'.

(** The calls that open and close the browser session. *)
Definition session_event (ev : event) : Prop :=
  match ev with
  | EvPlaywrightStart | EvLaunch | EvNewContext | EvNewPage | EvSetHeaders
  | EvPageClose | EvBrowserClose => True
  | _ => False
  end.

(** The calls that touch the cookie file. *)
Definition write_event (ev : event) : Prop :=
  match ev with
  | EvOpenWrite _ | EvWrite _ _ => True
  | _ => False
  end.

Definition no_write (ev : event) : Prop := ¬ write_event ev.

(** The calls the login and the navigation make to the page. *)
Definition page_event (ev : event) : Prop := ¬ write_event ev ∧ ¬ session_event ev.

(** The outcomes of the login flow.  [login_to_gmail] returns a [bool]; the
    outcome is read off that value and the line it prints last. *)
Inductive LoginOutcome : Type :=
| Success
| ChallengeRequired
| Failed.


(** The engine lets the login flow with [email] and [password] get as far
    as the wait for one of the success signals. *)
Definition reaches_race (e : Engine) (email password : string) : Prop :=
  e_goto e GMAIL_LOGIN_URL = None
  ∧ e_wait_for_selector e SelEmailInput = None
  ∧ e_fill e SelEmailInput email = None
  ∧ e_click e SelNext = None
  ∧ e_wait_for_selector e SelPasswordInput = None
  ∧ e_fill e SelPasswordInput password = None
  ∧ e_click e SelNextOrSignIn = None.

(** The order of the checks once the wait has timed out, in the words of
    the specification: a challenge first, then the account or platform
    domain, else a failure. *)
Definition indicates_challenge (url content : string) : bool :=
  PyStr.contains "verify" (PyStr.lower url)
  || PyStr.contains "challenge" (PyStr.lower content).

Definition indicates_account (url : string) : bool :=
  PyStr.contains "youtube.com" url || PyStr.contains "myaccount.google.com" url.

Definition disambiguate (url content : string) : LoginOutcome :=
  if indicates_challenge url content then ChallengeRequired
  else if indicates_account url then Success
  else Failed.

Definition outcome_ok (o : LoginOutcome) : bool :=
  match o with
  | Success => true
  | _ => false
  end.

(** ** Sample worlds *)

(** An engine on which every call succeeds: the login is confirmed, the
    account indicator is found and [cookies] are in the browser context. *)
Definition engine_ok (cookies : list Cookie) : Engine :=
  {| e_playwright_start := None;
     e_launch := None;
     e_new_context := None;
     e_new_page := None;
     e_set_extra_http_headers := None;
     e_goto := λ _, None;
     e_wait_for_selector := λ _, None;
     e_fill := λ _ _, None;
     e_click := λ _, None;
     e_wait_for_function := None;
     e_url := "https://myaccount.google.com/";
     e_content := inr "<html></html>";
     e_query_selector := λ _, inr false;
     e_cookies := inr cookies;
     e_page_close := None;
     e_browser_close := None |}.

(** The same engine, but closing the page raises. *)
Definition engine_page_close_raises : Engine :=
  {| e_playwright_start := None;
     e_launch := None;
     e_new_context := None;
     e_new_page := None;
     e_set_extra_http_headers := None;
     e_goto := λ _, None;
     e_wait_for_selector := λ _, None;
     e_fill := λ _ _, None;
     e_click := λ _, None;
     e_wait_for_function := None;
     e_url := "https://myaccount.google.com/";
     e_content := inr "<html></html>";
     e_query_selector := λ _, inr false;
     e_cookies := inr [];
     e_page_close := Some "Target page, context or browser has been closed";
     e_browser_close := None |}.

(** An engine on which the wait for a success signal times out, the page
    then being at [url] and showing [content]. *)
Definition engine_timeout (url content : string) : Engine :=
  {| e_playwright_start := None;
     e_launch := None;
     e_new_context := None;
     e_new_page := None;
     e_set_extra_http_headers := None;
     e_goto := λ _, None;
     e_wait_for_selector := λ _, None;
     e_fill := λ _ _, None;
     e_click := λ _, None;
     e_wait_for_function := Some "Timeout 60000ms exceeded.";
     e_url := url;
     e_content := inr content;
     e_query_selector := λ _, inr false;
     e_cookies := inr [];
     e_page_close := None;
     e_browser_close := None |}.

Definition credentials : gmap string string :=
  <["YOUTUBE_EMAIL" := "user@example.com"]> (<["YOUTUBE_PASSWORD" := "hunter2"]> ∅).

(** A fresh process image: nothing printed, nothing called yet. *)
Definition world_of (env : gmap string string) (e : Engine) (fault : write_fault)
    (file : file_state) : World :=
  mkWorld env e fault file [] [] false false.

Definition youtube_cookie : Cookie :=
  {| c_name := Some "SID"; c_value := Some "abc"; c_domain := Some ".youtube.com";
     c_path := None; c_expires := None; c_httpOnly := Some true;
     c_secure := None; c_sameSite := None |}.

(** Both credentials are in the environment of [w] and neither is empty. *)
Definition has_credentials (w : World) (email password : string) : Prop :=
  environ w !! "YOUTUBE_EMAIL" = Some email
  ∧ environ w !! "YOUTUBE_PASSWORD" = Some password
  ∧ email ≠ EmptyString ∧ password ≠ EmptyString.

(** [sub] occurs in [s]. *)
Definition substring (sub s : string) : Prop :=
  ∃ pre post, s = pre +:+ sub +:+ post.

(** The extractor keeps [c]. *)
Definition kept (c : Cookie) : bool :=
  match c_domain c with
  | Some d => is_target_domain d
  | None => false
  end.

(** The persisted entry [p] is the cookie [c] under the normalization
    rule: name, value and domain are taken over, the other fields too or,
    when absent, replaced by their defaults. *)
Definition normalized (c : Cookie) (p : PersistedCookie) : Prop :=
  c_name c = Some (p_name p)
  ∧ c_value c = Some (p_value p)
  ∧ c_domain c = Some (p_domain p)
  ∧ p_path p = default "/" (c_path c)
  ∧ p_expires p = default (-1)%Z (c_expires c)
  ∧ p_httpOnly p = default false (c_httpOnly c)
  ∧ p_secure p = default false (c_secure c)
  ∧ p_sameSite p = default "no_restriction" (c_sameSite c).

(** The domain of [p] contains one of the target-domain substrings. *)
Definition on_target (p : PersistedCookie) : Prop :=
  ∃ t, t ∈ TARGET_DOMAINS ∧ substring t (p_domain p).

Definition google_cookie : Cookie :=
  {| c_name := Some "HSID"; c_value := Some "xyz";
     c_domain := Some "accounts.google.com"; c_path := Some "/";
     c_expires := Some 1790000000%Z; c_httpOnly := Some true;
     c_secure := Some true; c_sameSite := Some "Lax" |}.

Definition other_cookie : Cookie :=
  {| c_name := Some "id"; c_value := Some "1"; c_domain := Some "example.org";
     c_path := None; c_expires := None; c_httpOnly := None;
     c_secure := None; c_sameSite := None |}.

(** The value [json.load] reads back for an entry of [youtube_cookies]. *)
Definition cookie_json (p : PersistedCookie) : Json.json :=
  Json.JObject
    [ (Json.codes "name", Json.JString (Json.codes (p_name p)));
      (Json.codes "value", Json.JString (Json.codes (p_value p)));
      (Json.codes "domain", Json.JString (Json.codes (p_domain p)));
      (Json.codes "path", Json.JString (Json.codes (p_path p)));
      (Json.codes "expires", Json.JNumber (Json.encode_int (p_expires p)));
      (Json.codes "httpOnly", Json.JBool (p_httpOnly p));
      (Json.codes "secure", Json.JBool (p_secure p));
      (Json.codes "sameSite", Json.JString (Json.codes (p_sameSite p))) ].

(** Every character of [s] is a decimal digit. *)
Fixpoint all_digits (s : string) : bool :=
  match s with
  | EmptyString => true
  | String c r => Json.is_digit c && all_digits r
  end.

(** [s] does not go on with a digit. *)
Definition no_digit_head (s : string) : Prop :=
  match s with
  | EmptyString => True
  | String c _ => Json.is_digit c = false
  end.

(** A character that can follow a value inside an indented dict or list:
    the separating comma or the line break before the closing bracket. *)
Definition follower (c : ascii) : Prop := c = ","%char ∨ c = Json.newline.

(** The text [vtext] stands for the value [v]: it does not start with
    white space, and in front of a follower it is read as [v]. *)
Definition member_ok (fuel : nat) (vtext : string) (v : Json.json) : Prop :=
  (∀ r, Json.skip_ws (vtext +:+ r) = vtext +:+ r)
  ∧ (∀ x r, follower x →
       Json.scan_once fuel (vtext +:+ String x r) = Some (v, String x r)).

(** The text of the members of a dict at depth 1, from the first
    character of the first key on, closing brace included, followed by
    [rest]. *)
Fixpoint members_text (members : list (string * string)) (rest : string) : string :=
  match members with
  | [] => rest
  | (k, v) :: ms =>
    Json.escape k +:+ String Json.dquote
      (": " +:+ v +:+
       match ms with
       | [] => Json.newline_indent 1 +:+ "}" +:+ rest
       | _ :: _ => "," +:+ Json.newline_indent 2
                   +:+ String Json.dquote (members_text ms rest)
       end)
  end.

(** The text of the items of a list at depth 0, from the first character
    of the first item on, closing bracket included, followed by [rest]. *)
Fixpoint items_text (items : list string) (rest : string) : string :=
  match items with
  | [] => rest
  | x :: xs =>
    x +:+
    match xs with
    | [] => Json.newline_indent 0 +:+ "]" +:+ rest
    | _ :: _ => "," +:+ Json.newline_indent 1 +:+ items_text xs rest
    end
  end.

Definition stored_cookie : PersistedCookie :=
  mkPersisted "SID" "old" ".youtube.com" "/" (-1) true false "no_restriction".

(** ** Two runs side by side *)

(** The answers of the engine to [page.fill] do not depend on the text
    that is typed: no exception it raises repeats that text. *)
Definition text_blind (e : Engine) : Prop :=
  ∀ sel t1 t2, e_fill e sel t1 = e_fill e sel t2.

(** Two worlds that the program cannot tell apart but for the secret: the
    engine, the disk, the cookie file and the manager are the same, and
    each credential is present in both or in neither.  With [log_too] the
    printed lines and the identity are the same as well.  The traces of the
    calls are left free: the secret is typed into the page.  The engine is
    one that does not look at what is typed. *)
Definition agree (log_too : bool) (w1 w2 : World) : Prop :=
  engine w1 = engine w2
  ∧ disk_fault w1 = disk_fault w2
  ∧ cookies_file w1 = cookies_file w2
  ∧ self_browser w1 = self_browser w2
  ∧ self_page w1 = self_page w2
  ∧ PyStr.truthy (environ w1 !! "YOUTUBE_EMAIL")
    = PyStr.truthy (environ w2 !! "YOUTUBE_EMAIL")
  ∧ PyStr.truthy (environ w1 !! "YOUTUBE_PASSWORD")
    = PyStr.truthy (environ w2 !! "YOUTUBE_PASSWORD")
  ∧ (log_too = true →
     stdout w1 = stdout w2
     ∧ environ w1 !! "YOUTUBE_EMAIL" = environ w2 !! "YOUTUBE_EMAIL")
  ∧ text_blind (engine w1).

(** Run on worlds that agree, [m1] and [m2] end alike: both return, with
    values related by [R], or both raise the same exception; and the worlds
    they leave agree again. *)
Definition related {A} (log_too : bool) (R : A → A → Prop) (m1 m2 : M A) : Prop :=
  ∀ w1 w2, agree log_too w1 w2 →
    match m1 w1, m2 w2 with
    | (Val a1, w1'), (Val a2, w2') => R a1 a2 ∧ agree log_too w1' w2'
    | (Raise e1, w1'), (Raise e2, w2') => e1 = e2 ∧ agree log_too w1' w2'
    | _, _ => False
    end.

(** An engine on which typing the password fails, with a message that
    repeats the call, as the call log of the browser driver does. *)
Definition engine_fill_echoes : Engine :=
  {| e_playwright_start := None;
     e_launch := None;
     e_new_context := None;
     e_new_page := None;
     e_set_extra_http_headers := None;
     e_goto := λ _, None;
     e_wait_for_selector := λ _, None;
     e_fill := λ sel text,
       match sel with
       | SelPasswordInput =>
         Some ("Page.fill: Timeout 30000ms exceeded. Call log: fill(" +:+ text +:+ ")")
       | _ => None
       end;
     e_click := λ _, None;
     e_wait_for_function := None;
     e_url := "https://accounts.google.com/signin";
     e_content := inr "<html></html>";
     e_query_selector := λ _, inr false;
     e_cookies := inr [];
     e_page_close := None;
     e_browser_close := None |}.

(** The same identity with another secret, and another identity. *)
Definition credentials_other_secret : gmap string string :=
  <["YOUTUBE_EMAIL" := "user@example.com"]> (<["YOUTUBE_PASSWORD" := "correct horse"]> ∅).

Definition credentials_other_identity : gmap string string :=
  <["YOUTUBE_EMAIL" := "other@example.com"]> (<["YOUTUBE_PASSWORD" := "hunter2"]> ∅).

(** ** Validity of the cookie file *)

(** Validity in the words of the specification: the file exists, its
    contents parse, and the sequence they stand for is not empty. *)
Definition holds_nonempty_sequence (f : file_state) : Prop :=
  ∃ contents items,
    f = Text contents
    ∧ Json.loads contents = Some (Json.JArray items)
    ∧ items ≠ [].

(** Validity as [check_cookies_file] decides it: the file exists, its
    contents parse, and the top-level value has a positive length. *)
Definition holds_value_with_length (f : file_state) : Prop :=
  ∃ contents v n,
    f = Text contents
    ∧ Json.loads contents = Some v
    ∧ Json.py_len v = Some n
    ∧ 0 < n.

Definition quoted (s : string) : string :=
  String Json.dquote (s +:+ String Json.dquote EmptyString).

(** A JSON object with one member, a JSON string of one character, an
    array of one number, a number, and a text cut off in the middle. *)
Definition object_text : string := "{" +:+ quoted "a" +:+ ": 1}".
Definition string_text : string := quoted "x".
Definition number_array_text : string := "[1]".
Definition number_text : string := "5".
Definition malformed_text : string := "[{" +:+ quoted "name" +:+ ": ".

Definition world_with_file (f : file_state) : World :=
  world_of ∅ (engine_ok []) NoFault f.

(** ** The worker seen alone *)

(** The first [n] steps of a worker from [p]: step number [k] reads the flag
    value [stop k], after the outside has changed the world by [outside k].
    The result is the labels of the steps, and where and in which world the
    worker then stands. *)
Fixpoint run_loop (n : nat) (stop : nat → bool) (outside : nat → World → World)
    (k : nat) (p : pc) (w : World) : list label * pc * World :=
  match n with
  | O => ([], p, w)
  | S n' =>
    match loop_step (stop k) p (outside k w) with
    | Some (l, p', w') =>
      let '(ls, q, w'') := run_loop n' stop outside (S k) p' w' in
      (l :: ls, q, w'')
    | None => ([], p, w)
    end
  end.

Definition observable (l : label) : bool :=
  match l with
  | Tau => false
  | _ => true
  end.

Definition is_refresh (l : label) : bool :=
  match l with
  | Refreshed _ => true
  | _ => false
  end.

(** What a full round of the loop shows: the ticks of one minute each, then
    the scheduled refresh. *)
Definition round (ok : bool) : list label :=
  replicate TICKS (Slept 60) ++ [Refreshed ok].

(** The steps of a full round: the test of the [while], two steps a tick,
    the end of the [for], the test after it and the refresh. *)
Definition ROUND_STEPS : nat := 2 * TICKS + 4.

Definition never : nat → bool := λ _, false.
Definition always : nat → bool := λ _, true.

(** Every worker that is running is the one [_refresh_thread] refers to. *)
Definition single_worker (P : Process) : Prop :=
  ∀ t, is_alive P t = true → _refresh_thread P = Some t.

(** The worker has no flag test left before its next refresh. *)
Definition committed (p : pc) : Prop :=
  p = AtInitialRefresh ∨ p = AtScheduledRefresh.

(** With the flag up, the number of steps a worker at [p] still takes. *)
Definition steps_to_exit (p : pc) : nat :=
  match p with
  | Finished => 0
  | AtWhile => 1
  | AtScheduledCheck | AtInitialRefresh | AtScheduledRefresh => 2
  | AtFor _ => 3
  | AtSleep _ => 4
  end.

(** What it means for the fuel of a decoding function to be enough: a
    result found with fuel [m] consumed at least one character, and any fuel
    of at least twice the number of characters consumed finds it too. *)
Definition fuel_enough {A : Type}
    (f : nat → string → option (A * string)) (m : nat) : Prop :=
  ∀ s x r, f m s = Some (x, r) →
    String.length r < String.length s ∧
    ∀ n, 2 * (String.length s - String.length r) ≤ n → f n s = Some (x, r).

(** ** Further notions, for the properties of the rest of the module *)

(** The calls of [start_browser], in the order of the source, and how the
    engine answers each of them. *)
Definition start_calls : list event :=
  [EvPlaywrightStart; EvLaunch; EvNewContext; EvNewPage; EvSetHeaders].

Definition start_answers (e : Engine) : list (option exn) :=
  [e_playwright_start e; e_launch e; e_new_context e; e_new_page e;
   e_set_extra_http_headers e].

(** The position and the exception of the first call that raises. *)
Fixpoint first_failure (answers : list (option exn)) : option (nat * exn) :=
  match answers with
  | [] => None
  | Some e :: _ => Some (0, e)
  | None :: rest =>
    match first_failure rest with
    | Some (k, e) => Some (S k, e)
    | None => None
    end
  end.

(** The calls of [login_to_gmail] up to the wait for a success signal, and
    how the engine answers them; the pause of two seconds cannot fail. *)
Definition login_calls (email password : string) : list event :=
  [EvGoto GMAIL_LOGIN_URL;
   EvWaitForSelector SelEmailInput 60000;
   EvFill SelEmailInput email;
   EvClick SelNext;
   EvWaitForSelector SelPasswordInput 60000;
   EvSleep 2;
   EvFill SelPasswordInput password;
   EvClick SelNextOrSignIn;
   EvWaitForFunction 60000].

Definition login_answers (e : Engine) (email password : string)
    : list (option exn) :=
  [e_goto e GMAIL_LOGIN_URL;
   e_wait_for_selector e SelEmailInput;
   e_fill e SelEmailInput email;
   e_click e SelNext;
   e_wait_for_selector e SelPasswordInput;
   None;
   e_fill e SelPasswordInput password;
   e_click e SelNextOrSignIn;
   e_wait_for_function e].

(** From [w] to [w'] the engine and the two handles of the manager are as
    they were, and no call that opens or closes the browser session has
    been made. *)
Definition keeps_session (w w' : World) : Prop :=
  engine w' = engine w
  ∧ self_browser w' = self_browser w ∧ self_page w' = self_page w
  ∧ ∃ evs, trace w' = trace w ++ evs ∧ Forall (λ ev, ¬ session_event ev) evs.

(** A cookie on which the loop of the extractor raises a [KeyError]: it has
    no domain, or it is kept and has no name or no value. *)
Definition malformed (c : Cookie) : bool :=
  match c_domain c with
  | None => true
  | Some d =>
    is_target_domain d
    && match c_name c, c_value c with
       | Some _, Some _ => false
       | _, _ => true
       end
  end.

(** The message of a [KeyError] for one of the keys the loop subscripts. *)
Definition key_error (e : exn) : Prop :=
  e = "'domain'" ∨ e = "'name'" ∨ e = "'value'".


(** An engine on which the browser is launched but no context can be
    created. *)
Definition engine_no_context : Engine :=
  {| e_playwright_start := None;
     e_launch := None;
     e_new_context := Some "Browser closed";
     e_new_page := None;
     e_set_extra_http_headers := None;
     e_goto := λ _, None;
     e_wait_for_selector := λ _, None;
     e_fill := λ _ _, None;
     e_click := λ _, None;
     e_wait_for_function := None;
     e_url := "https://myaccount.google.com/";
     e_content := inr "<html></html>";
     e_query_selector := λ _, inr false;
     e_cookies := inr [];
     e_page_close := None;
     e_browser_close := None |}.

(** Credentials of which the secret is the empty string. *)
Definition credentials_empty_secret : gmap string string :=
  <["YOUTUBE_EMAIL" := "user@example.com"]> (<["YOUTUBE_PASSWORD" := EmptyString]> ∅).

Definition is_sleep (l : label) : bool :=
  match l with
  | Slept _ => true
  | _ => false
  end.

(** The worker is in the middle of a tick. *)
Definition sleeping (p : pc) : Prop := ∃ i, p = AtSleep i.

(** A text that goes on with white space or with one of the characters that
    can follow a value inside an array or an object. *)
Definition delimited (r : string) : Prop :=
  match r with
  | String x _ => Json.is_ws x = true ∨ x = ","%char ∨ x = "]"%char ∨ x = "}"%char
  | EmptyString => False
  end.

Definition is_number (v : Json.json) : bool :=
  match v with
  | Json.JNumber _ => true
  | _ => false
  end.

(** Reading a value off the front of a text does not depend on what comes
    after the part that was read: with [q] added at the end, the same value
    is found and [q] is added to what is left.  For a number this holds
    when it is followed by a delimiter. *)
Definition extends {A : Type} (f : string → option (A * string)) : Prop :=
  ∀ s x r q, f s = Some (x, r) → f (s +:+ q) = Some (x, r +:+ q).

(** A process image in which the manager holds a browser and a page, as
    it does between [__aenter__] and [__aexit__]. *)
Definition world_with_page (env : gmap string string) (e : Engine)
    (fault : write_fault) (file : file_state) : World :=
  mkWorld env e fault file [] [] true true.

(** [refresh_cookies] with the event loop of the calling thread made
    explicit: [loop] is the exception that getting the loop or
    [run_until_complete] raises before the coroutine has run, if there is
    one (the loop is already running, or it is closed).  With a loop that
    runs the coroutine this is [refresh_cookies]. *)
Definition refresh_cookies_in (loop : option exn) : M bool :=
  try_except
    (match loop with
     | None => refresh_cookies_async
     | Some e => raise e
     end)
    (λ e : exn, print (LogSyncRefreshError e) ;; ret false).
(** * Properties *)

(** Unfolding of the monad and of the accessors of the world. *)
Ltac munfold :=
  cbv beta iota zeta delta
    [try_except bind ret raise get modify print emit call ask async_with
     asyncio_sleep os_getenv page_goto page_wait_for_selector page_fill
     page_click page_wait_for_function page_url page_content
     page_query_selector context_cookies getitem manager_init].
Ltac wsimpl :=
  cbn [environ engine disk_fault cookies_file stdout trace self_browser
       self_page add_trace add_stdout set_cookies_file set_self_browser
       set_self_page fst snd] in *.

(** ** Computations that cannot raise *)

Lemma returns_ret {A} (a : A) : returns (ret a).
Proof. intros w. by exists a, w. Qed.

Lemma returns_bind {A B} (m : M A) (k : A → M B) :
  returns m → (∀ a, returns (k a)) → returns (bind m k).
Proof.
  intros Hm Hk w. destruct (Hm w) as (a & w1 & E).
  destruct (Hk a w1) as (b & w2 & E2).
  exists b, w2. unfold bind. by rewrite E.
Qed.

Lemma returns_try_except {A} (body : M A) (handler : exn → M A) :
  (∀ e, returns (handler e)) → returns (try_except body handler).
Proof.
  intros Hh w. unfold try_except.
  destruct (body w) as [[a|e] w1]; [by exists a, w1|]. apply Hh.
Qed.

Lemma returns_print m : returns (print m).
Proof. intros w. by eexists _, _. Qed.

Lemma returns_print_false m : returns (print m ;; ret false).
Proof. apply returns_bind; [apply returns_print | intros _; apply returns_ret]. Qed.

Lemma close_browser_returns : returns close_browser.
Proof. apply returns_try_except. intros e. apply returns_print. Qed.

Lemma login_to_gmail_returns email password : returns (login_to_gmail email password).
Proof. apply returns_try_except. intros e. apply returns_print_false. Qed.

Lemma navigate_to_youtube_returns : returns navigate_to_youtube.
Proof. apply returns_try_except. intros e. apply returns_print_false. Qed.

Lemma extract_and_save_cookies_returns : returns extract_and_save_cookies.
Proof. apply returns_try_except. intros e. apply returns_print_false. Qed.

Lemma perform_login_and_save_cookies_returns : returns perform_login_and_save_cookies.
Proof. apply returns_try_except. intros e. apply returns_print_false. Qed.

Lemma refresh_cookies_async_returns : returns refresh_cookies_async.
Proof. apply returns_try_except. intros e. apply returns_print_false. Qed.

Lemma refresh_cookies_returns : returns refresh_cookies.
Proof. apply returns_try_except. intros e. apply returns_print_false. Qed.

Lemma check_cookies_file_returns : returns check_cookies_file.
Proof. apply returns_try_except. intros e. apply returns_ret. Qed.

(** ** What a computation leaves alone *)

Section Respects.

(** A relation between the world before and the world after that every
    step of a computation is to maintain. *)
Context (R : World → World → Prop) `{!PreOrder R}.

Lemma respects_ret {A} (a : A) : respects R (ret a).
Proof. intros w r w' [= _ <-]. reflexivity. Qed.

Lemma respects_raise {A} e : respects R (@raise A e).
Proof. intros w r w' [= _ <-]. reflexivity. Qed.

Lemma respects_get {A} (f : World → A) : respects R (get f).
Proof. intros w r w' [= _ <-]. reflexivity. Qed.

Lemma respects_modify f : (∀ w, R w (f w)) → respects R (modify f).
Proof. intros Hf w r w' [= _ <-]. apply Hf. Qed.

Lemma respects_bind {A B} (m : M A) (k : A → M B) :
  respects R m → (∀ a, respects R (k a)) → respects R (bind m k).
Proof.
  intros Hm Hk w r w'. unfold bind.
  destruct (m w) as [[a|e] w1] eqn:E; intros H.
  - transitivity w1; [by eapply Hm | by eapply Hk].
  - injection H as _ <-. by eapply Hm.
Qed.

Lemma respects_try_except {A} (body : M A) (handler : exn → M A) :
  respects R body → (∀ e, respects R (handler e)) →
  respects R (try_except body handler).
Proof.
  intros Hm Hk w r w'. unfold try_except.
  destruct (body w) as [[a|e] w1] eqn:E; intros H.
  - injection H as _ <-. by eapply Hm.
  - transitivity w1; [by eapply Hm | by eapply Hk].
Qed.

Lemma respects_call ev answer :
  (∀ w, R w (add_trace ev w)) → respects R (call ev answer).
Proof.
  intros Hev. apply respects_bind; [by apply respects_modify|]. intros _.
  apply respects_bind; [apply respects_get|]. intros [e|].
  - apply respects_raise.
  - apply respects_ret.
Qed.

Lemma respects_ask {A} ev (answer : Engine → exn + A) :
  (∀ w, R w (add_trace ev w)) → respects R (ask ev answer).
Proof.
  intros Hev. apply respects_bind; [by apply respects_modify|]. intros _.
  apply respects_bind; [apply respects_get|]. intros [e|a].
  - apply respects_raise.
  - apply respects_ret.
Qed.

Lemma respects_async_with {A} aenter aexit (body : M A) :
  respects R aenter → respects R aexit → respects R body →
  respects R (async_with aenter aexit body).
Proof.
  intros He Hx Hb. unfold async_with.
  apply respects_bind; [exact He|]. intros _ w r w'.
  destruct (body w) as [[a|e] w1] eqn:E; intros H.
  - transitivity w1; [by eapply Hb|].
    eapply (respects_bind aexit (λ _, ret a)); [exact Hx| |exact H].
    intros _. apply respects_ret.
  - transitivity w1; [by eapply Hb|].
    eapply (respects_bind aexit (λ _, raise e)); [exact Hx| |exact H].
    intros _. apply respects_raise.
Qed.

End Respects.

(** Decomposes a goal [respects R m] along the structure of [m]; what is
    left are the steps [R w (f w)] of the updates of the world. *)
Ltac rbind := apply respects_bind; [apply _ | |].
Ltac rtry := apply respects_try_except; [apply _ | |].
Ltac respects_step :=
  match goal with
  | |- respects _ (bind _ _) => rbind; [|intros ?]
  | |- respects _ (try_except _ _) => rtry; [|intros ?]
  | |- respects _ (ret _) => apply respects_ret; apply _
  | |- respects _ (raise _) => apply respects_raise; apply _
  | |- respects _ (get _) => apply respects_get; apply _
  | |- respects _ (print _) => apply respects_modify; intros ?
  | |- respects _ (emit _) => apply respects_modify; intros ?
  | |- respects _ (modify _) => apply respects_modify; intros ?
  | |- respects _ (call _ _) => apply respects_call; [apply _ | intros ?]
  | |- respects _ (ask _ _) => apply respects_ask; [apply _ | intros ?]
  | |- respects _ (if ?b then _ else _) => destruct b
  | |- respects _ (match ?x with _ => _ end) => destruct x
  end.
Ltac respects_tac := repeat respects_step.

(** *** The frame of a computation *)

Lemma frame_refl P w : frame P w w.
Proof. repeat split. exists []. by rewrite app_nil_r. Qed.

Lemma frame_trans P w1 w2 w3 : frame P w1 w2 → frame P w2 w3 → frame P w1 w3.
Proof.
  intros (E1 & E2 & E3 & E4 & l1 & T1 & F1) (G1 & G2 & G3 & G4 & l2 & T2 & F2).
  repeat split; try congruence.
  exists (l1 ++ l2). split; [by rewrite T2, T1, app_assoc | by apply Forall_app].
Qed.

#[local] Instance frame_preorder P : PreOrder (frame P).
Proof. split; [intros w; apply frame_refl | intros w1 w2 w3; apply frame_trans]. Qed.

Lemma frame_add_stdout P m w : frame P w (add_stdout m w).
Proof. repeat split. exists []. by rewrite app_nil_r. Qed.

Lemma frame_add_trace (P : event → Prop) ev w : P ev → frame P w (add_trace ev w).
Proof. intros Hev. repeat split. exists [ev]. split; [done | by constructor]. Qed.

Lemma frame_set_self_browser P b w : frame P w (set_self_browser b w).
Proof. repeat split. exists []. by rewrite app_nil_r. Qed.

Lemma frame_set_self_page P b w : frame P w (set_self_page b w).
Proof. repeat split. exists []. by rewrite app_nil_r. Qed.

Ltac frame_tac :=
  respects_tac;
  first [ apply frame_add_stdout | apply frame_set_self_browser
        | apply frame_set_self_page | apply frame_add_trace ].

Lemma manager_init_frame P : respects (frame P) manager_init.
Proof. unfold manager_init. frame_tac. Qed.

Lemma start_browser_frame : respects (frame session_event) start_browser.
Proof. unfold start_browser. frame_tac; exact I. Qed.

Lemma close_browser_frame : respects (frame session_event) close_browser.
Proof. unfold close_browser. frame_tac; exact I. Qed.

Lemma login_to_gmail_frame email password :
  respects (frame page_event) (login_to_gmail email password).
Proof.
  unfold login_to_gmail, page_goto, page_wait_for_selector, page_fill, page_click,
    page_wait_for_function, page_url, page_content, asyncio_sleep.
  frame_tac; by split; intros [].
Qed.

Lemma navigate_to_youtube_frame :
  respects (frame page_event) navigate_to_youtube.
Proof.
  unfold navigate_to_youtube, page_goto, page_wait_for_selector,
    page_query_selector, asyncio_sleep.
  frame_tac; by split; intros [].
Qed.

(** *** The trace only grows *)

Lemma grows_refl w : grows w w.
Proof. exists []. by rewrite app_nil_r. Qed.

Lemma grows_trans w1 w2 w3 : grows w1 w2 → grows w2 w3 → grows w1 w3.
Proof.
  intros [l1 T1] [l2 T2]. exists (l1 ++ l2). by rewrite T2, T1, app_assoc.
Qed.

#[local] Instance grows_preorder : PreOrder grows.
Proof. split; [intros w; apply grows_refl | intros w1 w2 w3; apply grows_trans]. Qed.

Lemma grows_add_trace ev w : grows w (add_trace ev w).
Proof. by exists [ev]. Qed.

Lemma grows_same_trace w w' : trace w' = trace w → grows w w'.
Proof. intros E. exists []. by rewrite app_nil_r. Qed.

Ltac grows_tac :=
  respects_tac;
  first [ apply grows_add_trace | by apply grows_same_trace ].

Lemma filter_and_convert_grows cookies acc :
  respects grows (filter_and_convert cookies acc).
Proof.
  revert acc. induction cookies as [|c cs IH]; intros acc; cbn [filter_and_convert].
  - apply respects_ret, _.
  - unfold getitem. respects_tac; apply IH.
Qed.

Lemma login_to_gmail_grows email password :
  respects grows (login_to_gmail email password).
Proof.
  unfold login_to_gmail, page_goto, page_wait_for_selector, page_fill,
    page_click, page_wait_for_function, page_url, page_content, asyncio_sleep.
  grows_tac.
Qed.

Lemma navigate_to_youtube_grows : respects grows navigate_to_youtube.
Proof.
  unfold navigate_to_youtube, page_goto, page_wait_for_selector,
    page_query_selector, asyncio_sleep.
  grows_tac.
Qed.

Lemma extract_and_save_cookies_grows : respects grows extract_and_save_cookies.
Proof.
  unfold extract_and_save_cookies, context_cookies.
  rtry; [|intros e; grows_tac].
  rbind; [grows_tac|]. intros _.
  rbind; [grows_tac|]. intros [|c cs]; [grows_tac|].
  rbind; [apply filter_and_convert_grows|].
  intros [|p l]; [grows_tac|].
  unfold write_cookies_file. grows_tac.
Qed.

Lemma perform_login_and_save_cookies_grows :
  respects grows perform_login_and_save_cookies.
Proof.
  unfold perform_login_and_save_cookies, os_getenv.
  rtry; [|intros e; grows_tac].
  rbind; [apply respects_get, _|]. intros email.
  rbind; [apply respects_get, _|]. intros password.
  destruct (_ || _); [grows_tac|].
  rbind; [apply login_to_gmail_grows|].
  intros logged_in. destruct (negb logged_in); [grows_tac|].
  rbind; [apply navigate_to_youtube_grows|].
  intros on_youtube. destruct (negb on_youtube); [grows_tac|].
  apply extract_and_save_cookies_grows.
Qed.

Lemma refresh_cookies_grows : respects grows refresh_cookies.
Proof.
  unfold refresh_cookies, refresh_cookies_async.
  rtry; [|intros e; grows_tac].
  rtry; [|intros e; grows_tac].
  rbind; [unfold manager_init; grows_tac|]. intros _.
  apply respects_async_with; [apply _| | |].
  - unfold start_browser. grows_tac.
  - unfold close_browser. grows_tac.
  - rbind; [apply perform_login_and_save_cookies_grows|].
    intros success. grows_tac.
Qed.

(** ** Running a computation whose first part is known *)

Lemma bind_val {A B} (m : M A) (k : A → M B) w a w1 :
  m w = (Val a, w1) → bind m k w = k a w1.
Proof. intros E. unfold bind. by rewrite E. Qed.

Lemma bind_raise {A B} (m : M A) (k : A → M B) w e w1 :
  m w = (Raise e, w1) → bind m k w = (Raise e, w1).
Proof. intros E. unfold bind. by rewrite E. Qed.

Lemma try_except_val {A} (body : M A) handler w a w1 :
  body w = (Val a, w1) → try_except body handler w = (Val a, w1).
Proof. intros E. unfold try_except. by rewrite E. Qed.

Lemma try_except_raise {A} (body : M A) handler w e w1 :
  body w = (Raise e, w1) → try_except body handler w = handler e w1.
Proof. intros E. unfold try_except. by rewrite E. Qed.

(** ** The browser session *)

Lemma close_browser_unit w : ∃ w', close_browser w = (Val tt, w').
Proof. destruct (close_browser_returns w) as ([] & w' & E). by exists w'. Qed.

(** ** Missing credentials *)

Lemma perform_without_credentials w :
  PyStr.truthy (environ w !! "YOUTUBE_EMAIL") = false
  ∨ PyStr.truthy (environ w !! "YOUTUBE_PASSWORD") = false →
  perform_login_and_save_cookies w = (Val false, add_stdout LogMissingCredentials w).
Proof.
  intros H. unfold perform_login_and_save_cookies. munfold.
  destruct H as [-> | ->]; rewrite ?orb_true_r; reflexivity.
Qed.

Lemma async_with_val {A} aenter aexit (body : M A) w w1 a w2 w3 :
  aenter w = (Val tt, w1) → body w1 = (Val a, w2) → aexit w2 = (Val tt, w3) →
  async_with aenter aexit body w = (Val a, w3).
Proof.
  intros E1 E2 E3. unfold async_with. erewrite bind_val by exact E1.
  rewrite E2. by erewrite bind_val by exact E3.
Qed.

Lemma async_with_enter_raise {A} aenter aexit (body : M A) w e w1 :
  aenter w = (Raise e, w1) → async_with aenter aexit body w = (Raise e, w1).
Proof. intros E1. unfold async_with. by erewrite bind_raise by exact E1. Qed.

(** The refresh when the browser starts and the login process returns
    [success]. *)
Lemma refresh_cookies_started w w1 success w2 w3 :
  start_browser (set_self_page false (set_self_browser false w)) = (Val tt, w1) →
  perform_login_and_save_cookies w1 = (Val success, w2) →
  close_browser (add_stdout (if success then LogRefreshed else LogRefreshFailed) w2)
    = (Val tt, w3) →
  refresh_cookies w = (Val success, w3).
Proof.
  intros Es Ep Ec. unfold refresh_cookies, refresh_cookies_async.
  erewrite try_except_val; [reflexivity|].
  erewrite try_except_val; [reflexivity|].
  erewrite bind_val by reflexivity.
  eapply async_with_val; [exact Es| |exact Ec].
  erewrite bind_val by exact Ep. by destruct success.
Qed.

(** The refresh when the browser does not start. *)
Lemma refresh_cookies_not_started w e w1 :
  start_browser (set_self_page false (set_self_browser false w)) = (Raise e, w1) →
  refresh_cookies w = (Val false, add_stdout (LogRefreshError e) w1).
Proof.
  intros Es. unfold refresh_cookies, refresh_cookies_async.
  erewrite try_except_val; [reflexivity|].
  erewrite try_except_raise; [reflexivity|].
  erewrite bind_val by reflexivity.
  by eapply async_with_enter_raise.
Qed.

Lemma refresh_without_truthy_credentials w :
  PyStr.truthy (environ w !! "YOUTUBE_EMAIL") = false
  ∨ PyStr.truthy (environ w !! "YOUTUBE_PASSWORD") = false →
  ∃ w', refresh_cookies w = (Val false, w') ∧ frame session_event w w'.
Proof.
  intros H.
  set (w0 := set_self_page false (set_self_browser false w)).
  assert (frame session_event w w0) as F0 by (by eapply (manager_init_frame _ w)).
  destruct (start_browser w0) as [[[]|e] w1] eqn:Es.
  - assert (frame session_event w0 w1) as F1 by (eapply start_browser_frame; eauto).
    assert (environ w1 = environ w) as Eenv.
    { destruct F1 as (-> & _). apply F0. }
    rewrite <- Eenv in H.
    pose proof (perform_without_credentials w1 H) as Ep.
    destruct (close_browser_unit
      (add_stdout LogRefreshFailed (add_stdout LogMissingCredentials w1))) as (w3 & Ec).
    exists w3. split.
    + eapply refresh_cookies_started; eauto.
    + eapply frame_trans; [exact F0|]. eapply frame_trans; [exact F1|].
      eapply frame_trans; [|eapply close_browser_frame; exact Ec].
      eapply frame_trans; apply frame_add_stdout.
  - assert (frame session_event w0 w1) as F1 by (eapply start_browser_frame; eauto).
    exists (add_stdout (LogRefreshError e) w1). split.
    + by apply refresh_cookies_not_started.
    + eapply frame_trans; [exact F0|]. eapply frame_trans; [exact F1|].
      apply frame_add_stdout.
Qed.

(** With no credentials in the environment the refresh returns false, but
    only after it has launched the browser. *)
Lemma refresh_without_credentials_launches_browser :
  let w := world_of ∅ (engine_ok []) NoFault Missing in
  environ w !! "YOUTUBE_EMAIL" = None
  ∧ environ w !! "YOUTUBE_PASSWORD" = None
  ∧ (refresh_cookies w).1 = Val false
  ∧ trace (refresh_cookies w).2
    = [EvPlaywrightStart; EvLaunch; EvNewContext; EvNewPage; EvSetHeaders;
       EvPageClose; EvBrowserClose].
Proof. vm_compute. repeat split. Qed.

(** C1 (amended): when YOUTUBE_EMAIL or YOUTUBE_PASSWORD is unset,
    [refresh_cookies] returns false; the environment, the engine and the
    cookie file are as before and the only calls made are those that open
    and close the browser session: no login step, no navigation, no write. *)
Theorem refresh_without_credentials w :
  environ w !! "YOUTUBE_EMAIL" = None ∨ environ w !! "YOUTUBE_PASSWORD" = None →
  ∃ w', refresh_cookies w = (Val false, w') ∧ frame session_event w w'.
Proof.
  intros H. apply refresh_without_truthy_credentials.
  destruct H as [-> | ->]; auto.
Qed.

Lemma refresh_without_credentials_witness :
  ∃ w', refresh_cookies (world_of ∅ (engine_ok []) NoFault Missing) = (Val false, w')
        ∧ frame session_event (world_of ∅ (engine_ok []) NoFault Missing) w'.
Proof.
  apply (refresh_without_credentials (world_of ∅ (engine_ok []) NoFault Missing)).
  left. reflexivity.
Defined.

(** C6: when closing the page raises, [close_browser] swallows the exception
    and returns normally, but it never gets to closing the browser although
    one is open: the page close is the only call it makes. *)
Theorem close_browser_page_close_raises w e :
  self_page w = true → self_browser w = true →
  e_page_close (engine w) = Some e →
  ∃ w', close_browser w = (Val tt, w')
        ∧ trace w' = trace w ++ [EvPageClose]
        ∧ stdout w' = stdout w ++ [LogCloseError e].
Proof.
  intros Hp Hb He. eexists. split; [|split].
  - unfold close_browser. munfold. rewrite Hp. wsimpl. rewrite He. reflexivity.
  - reflexivity.
  - reflexivity.
Qed.

Lemma close_browser_page_close_raises_witness :
  ∃ w', close_browser (mkWorld ∅ engine_page_close_raises NoFault Missing [] [] true true)
        = (Val tt, w')
        ∧ trace w' = [EvPageClose]
        ∧ stdout w' = [LogCloseError "Target page, context or browser has been closed"].
Proof.
  apply (close_browser_page_close_raises
           (mkWorld ∅ engine_page_close_raises NoFault Missing [] [] true true));
    reflexivity.
Defined.

(** ** The login flow *)



(** ** The login process *)

Lemma truthy_nonempty s : s ≠ EmptyString → PyStr.truthy (Some s) = true.
Proof. by destruct s. Qed.

Lemma perform_credentials_check w email password :
  has_credentials w email password →
  perform_login_and_save_cookies w
  = try_except
      (logged_in <- login_to_gmail email password ;;
       if negb logged_in then ret false
       else
         on_youtube <- navigate_to_youtube ;;
         if negb on_youtube then ret false
         else extract_and_save_cookies)
      (λ e : exn, print (LogProcessFailed e) ;; ret false) w.
Proof.
  intros (He & Hp & Hne & Hnp). unfold perform_login_and_save_cookies.
  munfold. rewrite He, Hp. cbv beta iota.
  by rewrite !truthy_nonempty.
Qed.

Lemma perform_login_failed w email password w1 :
  has_credentials w email password →
  login_to_gmail email password w = (Val false, w1) →
  perform_login_and_save_cookies w = (Val false, w1).
Proof.
  intros Hc El. rewrite (perform_credentials_check _ _ _ Hc).
  erewrite try_except_val; [reflexivity|].
  by erewrite bind_val by exact El.
Qed.

Lemma perform_navigation_failed w email password w1 w2 :
  has_credentials w email password →
  login_to_gmail email password w = (Val true, w1) →
  navigate_to_youtube w1 = (Val false, w2) →
  perform_login_and_save_cookies w = (Val false, w2).
Proof.
  intros Hc El En. rewrite (perform_credentials_check _ _ _ Hc).
  erewrite try_except_val; [reflexivity|].
  erewrite bind_val by exact El. cbn [negb].
  by erewrite bind_val by exact En.
Qed.

Lemma perform_extracts w email password w1 w2 ok w3 :
  has_credentials w email password →
  login_to_gmail email password w = (Val true, w1) →
  navigate_to_youtube w1 = (Val true, w2) →
  extract_and_save_cookies w2 = (Val ok, w3) →
  perform_login_and_save_cookies w = (Val ok, w3).
Proof.
  intros Hc El En Ee. rewrite (perform_credentials_check _ _ _ Hc).
  erewrite try_except_val; [reflexivity|].
  erewrite bind_val by exact El. cbn [negb].
  erewrite bind_val by exact En. cbn [negb].
  exact Ee.
Qed.


Lemma frame_weaken (P Q : event → Prop) w w' :
  (∀ ev, P ev → Q ev) → frame P w w' → frame Q w w'.
Proof.
  intros HPQ (E1 & E2 & E3 & E4 & l & T & F). repeat split; try done.
  exists l. split; [done|]. eapply Forall_impl; eauto.
Qed.

Lemma session_event_not_write ev : session_event ev → ¬ write_event ev.
Proof. destruct ev; simpl; tauto. Qed.

Lemma page_event_not_write ev : page_event ev → ¬ write_event ev.
Proof. by intros []. Qed.



(** ** Substrings *)

Lemma startswith_spec p s :
  PyStr.startswith p s = true ↔ ∃ post, s = p +:+ post.
Proof.
  revert s. induction p as [|a p IH]; intros s; simpl.
  - split; [by exists s | done].
  - destruct s as [|b s].
    + split; [done | by intros [post ?]].
    + rewrite andb_true_iff, IH. split.
      * intros [Hab [post ->]]. apply Ascii.eqb_eq in Hab as ->. by exists post.
      * intros [post [= -> ->]]. split; [apply Ascii.eqb_refl | by exists post].
Qed.

Lemma contains_spec sub s :
  PyStr.contains sub s = true ↔ substring sub s.
Proof.
  unfold substring. induction s as [|c s IH]; simpl.
  - rewrite orb_false_r, startswith_spec. split.
    + intros [post E]. by exists EmptyString, post.
    + intros ([|c pre] & post & E); [by exists post | discriminate].
  - rewrite orb_true_iff, startswith_spec, IH. split.
    + intros [[post E] | (pre & post & E)].
      * by exists EmptyString, post.
      * exists (String c pre), post. simpl. by rewrite E.
    + intros ([|c' pre] & post & E).
      * left. by exists post.
      * right. injection E as -> E. by exists pre, post.
Qed.

Lemma is_target_domain_spec d :
  is_target_domain d = true ↔ ∃ t, t ∈ TARGET_DOMAINS ∧ substring t d.
Proof.
  unfold is_target_domain. rewrite existsb_exists. split.
  - intros (t & Hin & Hc). exists t. split; [by apply list_elem_of_In|].
    by apply contains_spec.
  - intros (t & Hin & Hc). exists t. split; [by apply list_elem_of_In|].
    by apply contains_spec.
Qed.

(** ** The extractor *)

Lemma filter_and_convert_pure cookies acc w :
  ∃ r, filter_and_convert cookies acc w = (r, w).
Proof.
  revert acc. induction cookies as [|c cs IH]; intros acc; simpl.
  - by eexists.
  - munfold. destruct (c_domain c) as [d|]; [|by eexists].
    destruct (is_target_domain d); [|apply IH].
    destruct (c_name c); [|by eexists].
    destruct (c_value c); [|by eexists].
    apply IH.
Qed.

Lemma filter_and_convert_spec cookies acc w l w' :
  filter_and_convert cookies acc w = (Val l, w') →
  ∃ l', l = acc ++ l' ∧ Forall2 normalized (List.filter kept cookies) l'.
Proof.
  revert acc. induction cookies as [|c cs IH]; intros acc; simpl.
  - intros [= <- _]. exists []. by rewrite app_nil_r.
  - munfold. unfold kept at 1. destruct (c_domain c) as [d|] eqn:Ed; [|done].
    destruct (is_target_domain d) eqn:Et.
    + destruct (c_name c) as [n|] eqn:En; [|done].
      destruct (c_value c) as [v|] eqn:Ev; [|done].
      intros H. apply IH in H as (l' & -> & HF).
      eexists (_ :: l'). split; [by rewrite <- app_assoc|].
      constructor; [|done]. by repeat split.
    + apply IH.
Qed.

Lemma normalized_kept_on_target c p :
  kept c = true → normalized c p →
  ∃ t, t ∈ TARGET_DOMAINS ∧ substring t (p_domain p).
Proof.
  unfold kept. intros Hk (_ & _ & Hd & _). rewrite Hd in Hk.
  by apply is_target_domain_spec.
Qed.

(** ** Writing the cookie file *)

Lemma write_cookies_file_no_fault l w :
  disk_fault w = NoFault →
  ∃ w', write_cookies_file l w = (Val tt, w')
        ∧ cookies_file w' = Text (dumps_cookies l)
        ∧ environ w' = environ w ∧ engine w' = engine w
        ∧ disk_fault w' = disk_fault w.
Proof.
  intros Hf. unfold write_cookies_file. munfold. wsimpl. rewrite Hf.
  eexists. split; [reflexivity|]. by repeat split.
Qed.

Lemma write_cookies_file_open_fault l w e :
  disk_fault w = OpenFault e →
  write_cookies_file l w = (Raise e, add_trace (EvOpenWrite COOKIES_FILE) w).
Proof.
  intros Hf. unfold write_cookies_file. munfold. wsimpl. by rewrite Hf.
Qed.

Lemma write_cookies_file_dump_fault l w n e :
  disk_fault w = DumpFault n e →
  ∃ w', write_cookies_file l w = (Raise e, w')
        ∧ cookies_file w' = Text (take_string n (dumps_cookies l))
        ∧ environ w' = environ w ∧ engine w' = engine w
        ∧ disk_fault w' = disk_fault w.
Proof.
  intros Hf. unfold write_cookies_file. munfold. wsimpl. rewrite Hf.
  eexists. split; [reflexivity|]. by repeat split.
Qed.

(** What [extract_and_save_cookies] can do: nothing to the file, because
    no cookie is there to save; or write the cookies it kept, with the three
    possible fates of that write. *)
Lemma extract_and_save_cookies_cases w r w' :
  extract_and_save_cookies w = (r, w') →
  (r = Val false ∧ frame (λ ev, ¬ write_event ev) w w')
  ∨ ∃ cookies l,
      e_cookies (engine w) = inr cookies
      ∧ Forall2 normalized (List.filter kept cookies) l
      ∧ l ≠ []
      ∧ environ w' = environ w ∧ engine w' = engine w
      ∧ disk_fault w' = disk_fault w
      ∧ ((disk_fault w = NoFault ∧ r = Val true
          ∧ cookies_file w' = Text (dumps_cookies l))
         ∨ (∃ e, disk_fault w = OpenFault e ∧ r = Val false
                 ∧ cookies_file w' = cookies_file w)
         ∨ (∃ n e, disk_fault w = DumpFault n e ∧ r = Val false
                   ∧ cookies_file w' = Text (take_string n (dumps_cookies l)))).
Proof.
  unfold extract_and_save_cookies.
  unfold try_except at 1. unfold bind at 1, print at 1, modify at 1.
  unfold bind at 1, context_cookies at 1, ask at 1. munfold. wsimpl.
  set (w1 := add_trace EvCookies (add_stdout LogExtracting w)).
  assert (frame (λ ev, ¬ write_event ev) w w1) as F1.
  { repeat split. exists [EvCookies]. split; [done|]. constructor; [|done]. by intros []. }
  destruct (e_cookies (engine w)) as [e|cookies] eqn:Ec.
  { intros [= <- <-]. left. split; [done|].
    eapply frame_trans; [exact F1|]. apply frame_add_stdout. }
  destruct cookies as [|c cs].
  { intros [= <- <-]. left. split; [done|].
    eapply frame_trans; [exact F1|]. apply frame_add_stdout. }
  destruct (filter_and_convert_pure (c :: cs) [] w1) as (rf & Ef).
  fold (filter_and_convert (c :: cs) []). rewrite Ef.
  destruct rf as [l|e].
  2:{ intros [= <- <-]. left. split; [done|].
      eapply frame_trans; [exact F1|]. apply frame_add_stdout. }
  destruct (filter_and_convert_spec _ _ _ _ _ Ef) as (l' & -> & HF).
  cbn [app]. destruct l' as [|p l'].
  { intros [= <- <-]. left. split; [done|].
    eapply frame_trans; [exact F1|]. apply frame_add_stdout. }
  fold (write_cookies_file (p :: l')).
  intros H. cbv beta iota in H. right. exists (c :: cs), (p :: l'). split; [done|]. split; [done|].
  split; [done|].
  assert (disk_fault w1 = disk_fault w) as Hf1 by reflexivity.
  destruct (disk_fault w) as [|e|n e] eqn:Hf.
  - destruct (write_cookies_file_no_fault (p :: l') w1 Hf1) as (w2 & Ew & Ef2 & E1 & E2 & E3).
    rewrite Ew in H. injection H as <- <-. wsimpl.
    split; [exact E1|]. split; [exact E2|]. split; [by rewrite E3|].
    left. by repeat split.
  - rewrite (write_cookies_file_open_fault (p :: l') w1 e Hf1) in H.
    injection H as <- <-. wsimpl.
    split; [done|]. split; [done|]. split; [done|].
    right; left. by exists e.
  - destruct (write_cookies_file_dump_fault (p :: l') w1 n e Hf1) as (w2 & Ew & Ef2 & E1 & E2 & E3).
    rewrite Ew in H. injection H as <- <-. wsimpl.
    split; [exact E1|]. split; [exact E2|]. split; [by rewrite E3|].
    right; right. by exists n, e.
Qed.

Lemma kept_normalized_on_target cookies l :
  Forall2 normalized (List.filter kept cookies) l → Forall on_target l.
Proof.
  intros HF. eapply Forall2_Forall_r; [exact HF|].
  apply Forall_forall. intros c Hc%list_elem_of_In%filter_In p Hn.
  eapply normalized_kept_on_target; [apply Hc | exact Hn].
Qed.

(** C9: every entry the extractor builds, and so every entry it writes to
    the cookie file, has a domain that contains one of the target-domain
    substrings and is the normalization of a cookie of the browser session;
    under normalization an absent expiry becomes -1 and an absent same-site
    policy becomes "no_restriction". *)
Theorem persisted_cookies_on_target_and_normalized :
  (∀ cookies w l w',
     filter_and_convert cookies [] w = (Val l, w') →
     Forall2 normalized (List.filter kept cookies) l ∧ Forall on_target l)
  ∧ (∀ w w',
       extract_and_save_cookies w = (Val true, w') →
       ∃ cookies l,
         e_cookies (engine w) = inr cookies
         ∧ cookies_file w' = Text (dumps_cookies l)
         ∧ Forall2 normalized (List.filter kept cookies) l
         ∧ Forall on_target l)
  ∧ (∀ c p,
       normalized c p →
       (c_expires c = None → p_expires p = (-1)%Z)
       ∧ (c_sameSite c = None → p_sameSite p = "no_restriction")).
Proof.
  split; [|split].
  - intros cookies w l w' H.
    destruct (filter_and_convert_spec _ _ _ _ _ H) as (l' & -> & HF).
    split; [exact HF | by eapply kept_normalized_on_target].
  - intros w w' H.
    destruct (extract_and_save_cookies_cases _ _ _ H)
      as [[? _] | (cookies & l & Ec & HF & _ & _ & _ & _ & Hw)]; [done|].
    exists cookies, l. split; [done|].
    destruct Hw as [(_ & _ & Ef) | [(e & _ & ? & _) | (n & e & _ & ? & _)]];
      [|done..].
    split; [done|]. split; [done|]. by eapply kept_normalized_on_target.
  - intros c p (_ & _ & _ & _ & He & _ & _ & Hs).
    split; intros E; [rewrite E in He | rewrite E in Hs]; done.
Qed.

Lemma persisted_cookies_on_target_and_normalized_witness :
  (Forall2 normalized (List.filter kept [youtube_cookie; other_cookie; google_cookie])
     [mkPersisted "SID" "abc" ".youtube.com" "/" (-1) true false "no_restriction";
      mkPersisted "HSID" "xyz" "accounts.google.com" "/" 1790000000 true true "Lax"]
   ∧ Forall on_target
       [mkPersisted "SID" "abc" ".youtube.com" "/" (-1) true false "no_restriction";
        mkPersisted "HSID" "xyz" "accounts.google.com" "/" 1790000000 true true "Lax"])
  ∧ (∃ cookies l,
       e_cookies
         (engine (world_of ∅ (engine_ok [youtube_cookie; other_cookie; google_cookie])
                    NoFault Missing)) = inr cookies
       ∧ cookies_file
           (extract_and_save_cookies
              (world_of ∅ (engine_ok [youtube_cookie; other_cookie; google_cookie])
                 NoFault Missing)).2 = Text (dumps_cookies l)
       ∧ Forall2 normalized (List.filter kept cookies) l
       ∧ Forall on_target l)
  ∧ ((c_expires youtube_cookie = None →
      p_expires
        (mkPersisted "SID" "abc" ".youtube.com" "/" (-1) true false "no_restriction")
      = (-1)%Z)
     ∧ (c_sameSite youtube_cookie = None →
        p_sameSite
          (mkPersisted "SID" "abc" ".youtube.com" "/" (-1) true false "no_restriction")
        = "no_restriction")).
Proof.
  split; [|split].
  - apply (proj1 persisted_cookies_on_target_and_normalized
             [youtube_cookie; other_cookie; google_cookie]
             (world_of ∅ (engine_ok []) NoFault Missing) _
             (world_of ∅ (engine_ok []) NoFault Missing)).
    vm_compute. reflexivity.
  - apply (proj1 (proj2 persisted_cookies_on_target_and_normalized)
             (world_of ∅ (engine_ok [youtube_cookie; other_cookie; google_cookie])
                NoFault Missing)).
    vm_compute. reflexivity.
  - apply (proj2 (proj2 persisted_cookies_on_target_and_normalized) youtube_cookie).
    repeat split; reflexivity.
Defined.

(** ** Reading back what the encoder wrote *)

#[local] Arguments String.append !_ _ / : simpl nomatch.

Lemma append_assoc (a b c : string) : (a +:+ b) +:+ c = a +:+ (b +:+ c).
Proof. induction a as [|x a IH]; cbn; [done | by f_equal]. Qed.

Lemma append_nil_r (a : string) : a +:+ EmptyString = a.
Proof. induction a as [|x a IH]; cbn; [done | by f_equal]. Qed.

Lemma length_append (a b : string) :
  String.length (a +:+ b) = String.length a + String.length b.
Proof. induction a as [|x a IH]; cbn; [done | by f_equal]. Qed.

(** An escaped character reads back as the character. *)
Lemma scanstring_escape_char c r :
  Json.scanstring (Json.escape_char c +:+ r)
  = Json.cons_fst (Json.code c) <$> Json.scanstring r.
Proof.
  destruct c as [[] [] [] [] [] [] [] []]; try reflexivity;
    destruct r as [|? [|? ?]]; reflexivity.
Qed.

Lemma scanstring_escape s r :
  Json.scanstring (Json.escape s +:+ String Json.dquote r) = Some (Json.codes s, r).
Proof.
  induction s as [|c s IH].
  - reflexivity.
  - cbn [Json.escape]. rewrite append_assoc, scanstring_escape_char, IH.
    reflexivity.
Qed.

Lemma scanstring_encode_string s r :
  Json.scanstring (Json.escape s +:+ String Json.dquote EmptyString +:+ r)
  = Some (Json.codes s, r).
Proof. apply scanstring_escape. Qed.

(** *** Numbers *)

Lemma span_digits_all ds r :
  all_digits ds = true → no_digit_head r →
  Json.span_digits (ds +:+ r) = (ds, r).
Proof.
  intros Hd Hr. induction ds as [|c ds IH]; cbn [String.append Json.span_digits].
  - destruct r as [|c r]; [done|]. unfold no_digit_head in Hr.
    cbn [Json.span_digits]. by rewrite Hr.
  - cbn [all_digits] in Hd. apply andb_true_iff in Hd as [-> Hd]. by rewrite IH.
Qed.

Lemma is_digit_pretty_N_char x : Json.is_digit (pretty_N_char x) = true.
Proof. unfold pretty_N_char. by repeat case_match. Qed.

Lemma all_digits_app a b :
  all_digits a = true → all_digits b = true → all_digits (a +:+ b) = true.
Proof.
  intros Ha Hb. induction a as [|c a IH]; cbn [String.append all_digits]; [done|].
  cbn [all_digits] in Ha. apply andb_true_iff in Ha as [-> Ha]. by apply IH.
Qed.

(** The digits [pretty] writes in front of [s]: all decimal, and the first
    is not a zero. *)
Lemma pretty_N_go_digits x s :
  ∃ ds, pretty_N_go x s = ds +:+ s
        ∧ all_digits ds = true
        ∧ ((0 < x)%N → ∃ c ds', ds = String c ds' ∧ Ascii.eqb c "0" = false).
Proof.
  revert s. induction (N.lt_wf_0 x) as [x _ IH]; intros s.
  destruct (decide (x = 0%N)) as [->|Hx].
  { exists EmptyString. rewrite pretty_N_go_0.
    split; [done|]. split; [done|]. lia. }
  assert (0 < x)%N as Hpos by lia.
  rewrite pretty_N_go_step by done.
  assert (x `div` 10 < x)%N as Hlt by (apply N.div_lt; lia).
  destruct (IH _ Hlt (String (pretty_N_char (x `mod` 10)) s)) as (ds1 & E & Hd & Hf).
  exists (ds1 +:+ String (pretty_N_char (x `mod` 10)) EmptyString).
  split; [by rewrite E, append_assoc|]. split.
  - apply all_digits_app; [done|]. cbn [all_digits].
    by rewrite is_digit_pretty_N_char.
  - intros _. destruct (decide (x `div` 10 = 0)%N) as [Hz|Hnz].
    + rewrite Hz, pretty_N_go_0 in E.
      assert (ds1 = EmptyString) as ->.
      { destruct ds1 as [|c ds1]; [done|]. exfalso.
        apply (f_equal String.length) in E.
        cbn [String.append String.length] in E.
        rewrite length_append in E. cbn [String.length] in E. lia. }
      cbn [String.append]. eexists _, _. split; [done|].
      assert (x < 10)%N as Hsmall.
      { apply N.div_small_iff in Hz; lia. }
      rewrite N.mod_small by done.
      assert (x = 1 ∨ x = 2 ∨ x = 3 ∨ x = 4 ∨ x = 5 ∨ x = 6
              ∨ x = 7 ∨ x = 8 ∨ x = 9)%N as Hcases by lia.
      by destruct Hcases as [->|[->|[->|[->|[->|[->|[->|[->| ->]]]]]]]].
    + destruct Hf as (c & ds' & -> & Hc); [by apply N.neq_0_lt_0|].
      cbn [String.append]. by eexists _, _.
Qed.

Lemma pretty_positive_digits p :
  ∃ c ds, pretty (N.pos p) = String c ds
          ∧ Json.is_digit c = true ∧ Ascii.eqb c "0" = false
          ∧ all_digits ds = true.
Proof.
  unfold pretty, pretty_N. rewrite decide_False by done.
  destruct (pretty_N_go_digits (N.pos p) EmptyString) as (ds & E & Hd & Hf).
  destruct Hf as (c & ds' & -> & Hc); [lia|].
  rewrite append_nil_r in E. exists c, ds'.
  cbn [all_digits] in Hd. apply andb_true_iff in Hd as [? ?]. by rewrite E.
Qed.

Lemma match_integer_digits c ds r :
  Json.is_digit c = true → Ascii.eqb c "0" = false → all_digits ds = true →
  no_digit_head r →
  Json.match_integer (String c ds +:+ r) = Some (String c ds, r)
  ∧ Json.match_integer (String "-" (String c ds) +:+ r)
    = Some (String "-" (String c ds), r).
Proof.
  intros Hc H0 Hd Hr.
  assert (c ≠ "-"%char) as Hm by (intros ->; discriminate).
  split.
  - unfold Json.match_integer. cbn [String.append].
    destruct c as [[] [] [] [] [] [] [] []]; try discriminate;
      cbn -[Json.span_digits]; by rewrite span_digits_all.
  - unfold Json.match_integer. cbn [String.append].
    destruct c as [[] [] [] [] [] [] [] []]; try discriminate;
      cbn -[Json.span_digits]; by rewrite span_digits_all.
Qed.

Lemma match_number_digits c ds x r :
  Json.is_digit c = true → Ascii.eqb c "0" = false → all_digits ds = true →
  follower x →
  Json.match_number (String c ds +:+ String x r) = Some (String c ds, String x r)
  ∧ Json.match_number (String "-" (String c ds) +:+ String x r)
    = Some (String "-" (String c ds), String x r).
Proof.
  intros Hc H0 Hd Hx.
  destruct (match_integer_digits c ds (String x r) Hc H0 Hd) as [E1 E2].
  { by destruct Hx as [-> | ->]. }
  unfold Json.match_number. rewrite E1, E2.
  destruct Hx as [-> | ->];
    cbn [mbind option_bind Json.match_frac Json.match_exp Ascii.eqb Bool.eqb orb
         Json.newline];
    by rewrite !append_nil_r.
Qed.

Lemma scan_once_number f c s lexeme r :
  Json.is_digit c = true ∨ c = "-"%char →
  Json.match_number (String c s) = Some (lexeme, r) →
  Json.scan_once (S f) (String c s) = Some (Json.JNumber lexeme, r).
Proof.
  intros [Hc | ->] Hm.
  - destruct c as [[] [] [] [] [] [] [] []]; try discriminate;
      cbn [Json.scan_once Ascii.eqb Bool.eqb Json.dquote]; by rewrite Hm.
  - cbn [Json.scan_once Ascii.eqb Bool.eqb Json.dquote]. by rewrite Hm.
Qed.

Lemma scan_once_encode_int f z x r :
  follower x →
  Json.scan_once (S f) (Json.encode_int z +:+ String x r)
  = Some (Json.JNumber (Json.encode_int z), String x r).
Proof.
  intros Hx. unfold Json.encode_int. destruct z as [|p|p].
  - by destruct Hx as [-> | ->].
  - unfold pretty, pretty_Z, pretty, pretty_positive.
    destruct (pretty_positive_digits p) as (c & ds & -> & Hc & H0 & Hd).
    apply scan_once_number; [by left|].
    by apply match_number_digits.
  - unfold pretty, pretty_Z, pretty, pretty_positive.
    destruct (pretty_positive_digits p) as (c & ds & -> & Hc & H0 & Hd).
    cbn [String.append].
    apply scan_once_number; [by right|].
    by apply (match_number_digits c ds x r).
Qed.

Lemma scan_once_encode_bool f b r :
  Json.scan_once (S f) (Json.encode_bool b +:+ r) = Some (Json.JBool b, r).
Proof. by destruct b. Qed.

Lemma scan_once_encode_string f s r :
  Json.scan_once (S f) (Json.encode_string s +:+ r)
  = Some (Json.JString (Json.codes s), r).
Proof.
  unfold Json.encode_string. cbn [String.append Json.scan_once].
  rewrite Ascii.eqb_refl, append_assoc, scanstring_encode_string.
  reflexivity.
Qed.

(** *** Dicts and lists *)

Lemma skip_ws_encode_string s r :
  Json.skip_ws (Json.encode_string s +:+ r) = Json.encode_string s +:+ r.
Proof. reflexivity. Qed.

Lemma skip_ws_encode_bool b r :
  Json.skip_ws (Json.encode_bool b +:+ r) = Json.encode_bool b +:+ r.
Proof. by destruct b. Qed.

Lemma skip_ws_encode_int z r :
  Json.skip_ws (Json.encode_int z +:+ r) = Json.encode_int z +:+ r.
Proof.
  unfold Json.encode_int. destruct z as [|p|p]; [done| |].
  - unfold pretty, pretty_Z, pretty, pretty_positive.
    destruct (pretty_positive_digits p) as (c & ds & -> & Hc & _).
    cbn [String.append Json.skip_ws].
    destruct c as [[] [] [] [] [] [] [] []]; try discriminate; reflexivity.
  - reflexivity.
Qed.

Lemma member_ok_string f s : member_ok (S f) (Json.encode_string s) (Json.JString (Json.codes s)).
Proof.
  split; [apply skip_ws_encode_string|]. intros. apply scan_once_encode_string.
Qed.

Lemma member_ok_bool f b : member_ok (S f) (Json.encode_bool b) (Json.JBool b).
Proof.
  split; [apply skip_ws_encode_bool|]. intros. apply scan_once_encode_bool.
Qed.

Lemma member_ok_int f z :
  member_ok (S f) (Json.encode_int z) (Json.JNumber (Json.encode_int z)).
Proof.
  split; [apply skip_ws_encode_int|]. intros. by apply scan_once_encode_int.
Qed.

Lemma members_text_concat ms rest :
  ms ≠ [] →
  String.concat ("," +:+ Json.newline_indent 2)
    (map (λ kv : string * string, Json.encode_string kv.1 +:+ ": " +:+ kv.2) ms)
  +:+ Json.newline_indent 1 +:+ "}" +:+ rest
  = String Json.dquote (members_text ms rest).
Proof.
  induction ms as [|[k v] ms IH]; [done|]. intros _.
  destruct ms as [|kv' ms].
  - cbn [map String.concat fst snd members_text]. unfold Json.encode_string.
    cbn [String.append]. rewrite !append_assoc. reflexivity.
  - specialize (IH ltac:(done)).
    change (String.concat ?sep (map ?f ((k, v) :: kv' :: ms)))
      with (f (k, v) +:+ sep +:+ String.concat sep (map f (kv' :: ms))).
    cbn [fst snd members_text]. rewrite !append_assoc.
    rewrite IH.
    unfold Json.encode_string. cbn [String.append]. rewrite !append_assoc.
    reflexivity.
Qed.

Lemma encode_dict_text ms rest :
  ms ≠ [] →
  Json.encode_dict 1 ms +:+ rest
  = "{" +:+ Json.newline_indent 2 +:+ String Json.dquote (members_text ms rest).
Proof.
  intros Hne. unfold Json.encode_dict. destruct ms as [|kv ms]; [done|].
  rewrite <- (members_text_concat (kv :: ms) rest Hne).
  by rewrite !append_assoc.
Qed.

Lemma object_loop_members ms vs rest f :
  Forall2 (λ m v, ∀ g, member_ok (S g) m.2 v) ms vs →
  ms ≠ [] → length ms < f →
  Json.object_loop f (members_text ms rest)
  = Some (zip (map (λ m, Json.codes m.1) ms) vs, rest).
Proof.
  intros HF. revert f. induction HF as [|[k vt] v ms vs Hm HF IH]; [done|].
  intros f _ Hf. destruct f as [|f]; [cbn in Hf; lia|].
  cbn [members_text Json.object_loop].
  rewrite scanstring_escape.
  cbn -[Json.scan_once Json.object_loop members_text Json.codes].
  destruct f as [|g]; [cbn in Hf; lia|].
  destruct (Hm g) as [Hws Hscan]. cbn [snd] in Hws, Hscan.
  rewrite Hws.
  destruct ms as [|m' ms].
  - inversion HF; subst.
    rewrite Hscan by (by right).
    reflexivity.
  - rewrite Hscan by (by left).
    cbn -[Json.scan_once Json.object_loop members_text Json.codes].
    rewrite IH; [|done|cbn in Hf |- *; lia].
    destruct vs as [|v' vs]; [inversion HF|]. reflexivity.
Qed.

Lemma scan_once_encode_dict ms vs rest f :
  Forall2 (λ m v, ∀ g, member_ok (S g) m.2 v) ms vs →
  ms ≠ [] → length ms < f →
  Json.scan_once (S f) (Json.encode_dict 1 ms +:+ rest)
  = Some (Json.JObject
            (Json.dict_of_pairs (zip (map (λ m, Json.codes m.1) ms) vs)), rest).
Proof.
  intros HF Hne Hf. rewrite encode_dict_text by done.
  cbn -[Json.object_loop members_text Json.codes Json.dict_of_pairs].
  by rewrite (object_loop_members ms vs rest f).
Qed.

Lemma scan_once_encode_cookie p rest f :
  8 < f →
  Json.scan_once (S f) (encode_cookie p +:+ rest) = Some (cookie_json p, rest).
Proof.
  intros Hf. unfold encode_cookie.
  rewrite (scan_once_encode_dict _
             [Json.JString (Json.codes (p_name p));
              Json.JString (Json.codes (p_value p));
              Json.JString (Json.codes (p_domain p));
              Json.JString (Json.codes (p_path p));
              Json.JNumber (Json.encode_int (p_expires p));
              Json.JBool (p_httpOnly p);
              Json.JBool (p_secure p);
              Json.JString (Json.codes (p_sameSite p))] rest f);
    [reflexivity| |done|cbn; lia].
  repeat (apply List.Forall2_cons;
    [intros g; cbn [snd];
     first [apply member_ok_string | apply member_ok_bool | apply member_ok_int]|]).
  apply List.Forall2_nil.
Qed.

Lemma encode_cookie_head p rest :
  ∃ r, encode_cookie p +:+ rest = String "{" r.
Proof.
  unfold encode_cookie. rewrite encode_dict_text by done. by eexists.
Qed.

Lemma length_encode_cookie p : 7 ≤ String.length (encode_cookie p).
Proof.
  rewrite <- (append_nil_r (encode_cookie p)). unfold encode_cookie.
  rewrite encode_dict_text by done.
  cbn [String.append String.length Json.newline_indent String.concat replicate
       Nat.mul Nat.add].
  lia.
Qed.

Lemma items_text_concat items rest :
  items ≠ [] →
  String.concat ("," +:+ Json.newline_indent 1) items
  +:+ Json.newline_indent 0 +:+ "]" +:+ rest
  = items_text items rest.
Proof.
  induction items as [|x items IH]; [done|]. intros _.
  destruct items as [|y items].
  - reflexivity.
  - specialize (IH ltac:(done)).
    change (String.concat ?sep (x :: y :: items))
      with (x +:+ sep +:+ String.concat sep (y :: items)).
    cbn [items_text]. rewrite !append_assoc. by rewrite IH.
Qed.

Lemma encode_list_text items rest :
  items ≠ [] →
  Json.encode_list 0 items +:+ rest
  = "[" +:+ Json.newline_indent 1 +:+ items_text items rest.
Proof.
  intros Hne. unfold Json.encode_list. destruct items as [|x items]; [done|].
  rewrite <- (items_text_concat (x :: items) rest Hne).
  by rewrite !append_assoc.
Qed.

Lemma length_items_text l rest :
  7 * length l ≤ String.length (items_text (map encode_cookie l) rest).
Proof.
  induction l as [|p l IH]; [cbn; lia|].
  cbn [map items_text]. rewrite length_append.
  pose proof (length_encode_cookie p).
  destruct l as [|q l].
  - cbn [length]. lia.
  - cbn [map] in IH |- *. rewrite !length_append.
    cbn [length] in IH |- *. lia.
Qed.

Lemma array_loop_S f s :
  Json.array_loop (S f) s
  = '(value, r) ← Json.scan_once f s;
    match Json.skip_ws r with
    | String c r1 =>
      if Ascii.eqb c "]" then Some ([value], r1)
      else if Ascii.eqb c "," then
        '(rest, r2) ← Json.array_loop f (Json.skip_ws r1); Some (value :: rest, r2)
      else None
    | EmptyString => None
    end.
Proof. reflexivity. Qed.

Lemma skip_ws_items_text l rest :
  l ≠ [] →
  Json.skip_ws (items_text (map encode_cookie l) rest)
  = items_text (map encode_cookie l) rest.
Proof.
  destruct l as [|p l]; [done|]. intros _. cbn [map items_text].
  destruct (encode_cookie_head p
    match map encode_cookie l with
    | [] => Json.newline_indent 0 +:+ "]" +:+ rest
    | _ :: _ => "," +:+ Json.newline_indent 1 +:+ items_text (map encode_cookie l) rest
    end) as [r ->].
  reflexivity.
Qed.

Lemma array_loop_items l rest f :
  l ≠ [] → length l + 9 < f →
  Json.array_loop f (items_text (map encode_cookie l) rest)
  = Some (map cookie_json l, rest).
Proof.
  revert f. induction l as [|p l IH]; [done|]. intros f _ Hf.
  destruct f as [|f]; [lia|]. destruct f as [|g]; [cbn in Hf; lia|].
  rewrite array_loop_S.
  destruct l as [|q l].
  - cbn [map items_text].
    rewrite scan_once_encode_cookie by (cbn in Hf; lia).
    reflexivity.
  - assert (items_text (map encode_cookie (p :: q :: l)) rest
            = encode_cookie p +:+ "," +:+ Json.newline_indent 1
              +:+ items_text (map encode_cookie (q :: l)) rest) as -> by reflexivity.
    specialize (IH (S g) ltac:(done) ltac:(cbn in Hf |- *; lia)).
    pose proof (skip_ws_items_text (q :: l) rest ltac:(done)) as Hws.
    remember (items_text (map encode_cookie (q :: l)) rest) as T eqn:ET.
    rewrite scan_once_encode_cookie by (cbn in Hf; lia).
    cbn -[Json.array_loop Json.skip_ws].
    change (Json.skip_ws (String "," ?X)) with (String "," X).
    cbn -[Json.array_loop Json.skip_ws].
    change (Json.skip_ws (String Json.newline (String " " (String " " T))))
      with (Json.skip_ws T).
    rewrite Hws, IH. reflexivity.
Qed.

Lemma items_text_head l rest :
  l ≠ [] → ∃ t, items_text (map encode_cookie l) rest = String "{" t.
Proof.
  destruct l as [|p l]; [done|]. intros _. cbn [map items_text].
  apply encode_cookie_head.
Qed.

Lemma scan_once_array f s items r :
  (∃ t, s = String "{" t) →
  Json.array_loop f s = Some (items, r) →
  Json.scan_once (S f) ("[" +:+ Json.newline_indent 1 +:+ s)
  = Some (Json.JArray items, r).
Proof.
  intros [t ->] H. cbn -[Json.array_loop]. by rewrite H.
Qed.

(** What the encoder writes for a non-empty list of cookies, [json.loads]
    reads back as the list of their values. *)
Lemma loads_dumps_cookies l :
  l ≠ [] → Json.loads (dumps_cookies l) = Some (Json.JArray (map cookie_json l)).
Proof.
  intros Hne. unfold Json.loads, dumps_cookies.
  assert (map encode_cookie l ≠ []) as Hne' by (by destruct l).
  pose proof (encode_list_text (map encode_cookie l) EmptyString Hne') as E.
  rewrite append_nil_r in E.
  pose proof (length_items_text l EmptyString) as Hlen.
  pose proof (items_text_head l EmptyString Hne) as Hhead.
  pose proof (array_loop_items l EmptyString) as Hloop.
  remember (items_text (map encode_cookie l) EmptyString) as T eqn:ET.
  rewrite E.
  assert (0 < length l) as Hpos by (destruct l; [done | cbn; lia]).
  assert (Json.skip_ws ("[" +:+ Json.newline_indent 1 +:+ T)
          = "[" +:+ Json.newline_indent 1 +:+ T) as -> by reflexivity.
  replace (2 * String.length ("[" +:+ Json.newline_indent 1 +:+ T) + 1)
    with (S (2 * String.length ("[" +:+ Json.newline_indent 1 +:+ T))) by lia.
  rewrite (scan_once_array _ _ (map cookie_json l) EmptyString); [reflexivity|done|].
  apply Hloop; [done|].
  rewrite !length_append. pose proof (Nat.le_0_l (String.length (Json.newline_indent 1))).
  cbn [String.length]. lia.
Qed.

Lemma check_cookies_file_dumps l w :
  l ≠ [] → cookies_file w = Text (dumps_cookies l) →
  check_cookies_file w = (Val true, w).
Proof.
  intros Hne Hf. unfold check_cookies_file. munfold. rewrite Hf.
  rewrite (loads_dumps_cookies l Hne). cbn [Json.py_len].
  rewrite length_map. by destruct l.
Qed.

(** ** The refresh and the cookie file *)

Lemma truthy_true o :
  PyStr.truthy o = true → ∃ s, o = Some s ∧ s ≠ EmptyString.
Proof. destruct o as [[|c s]|]; try done. intros _. by eexists. Qed.

Lemma frame_environ P w w' : frame P w w' → environ w' = environ w.
Proof. by intros (? & _). Qed.

Lemma frame_engine P w w' : frame P w w' → engine w' = engine w.
Proof. by intros (_ & ? & _). Qed.

Lemma frame_disk_fault P w w' : frame P w w' → disk_fault w' = disk_fault w.
Proof. by intros (_ & _ & ? & _). Qed.

Lemma frame_cookies_file P w w' : frame P w w' → cookies_file w' = cookies_file w.
Proof. by intros (_ & _ & _ & ? & _). Qed.

Lemma has_credentials_frame P w w' email password :
  frame P w w' → has_credentials w email password → has_credentials w' email password.
Proof.
  intros F (? & ? & ? & ?). unfold has_credentials.
  by rewrite (frame_environ _ _ _ F).
Qed.

Lemma close_after_frame w m :
  ∃ w', close_browser (add_stdout m w) = (Val tt, w') ∧ frame session_event w w'.
Proof.
  destruct (close_browser_unit (add_stdout m w)) as (w' & Ec).
  exists w'. split; [done|].
  eapply frame_trans; [apply frame_add_stdout | by eapply close_browser_frame].
Qed.

Lemma frame_session_no_write w w' : frame session_event w w' → frame no_write w w'.
Proof. apply frame_weaken, session_event_not_write. Qed.

Lemma frame_page_no_write w w' : frame page_event w w' → frame no_write w w'.
Proof. apply frame_weaken, page_event_not_write. Qed.

(** C2 (amended): a refresh either returns false without any call that
    touches the cookie file, which is then as before; or it has credentials,
    a started browser, a login and a navigation that both returned true and
    at least one kept cookie, and then the file is written: with no disk
    fault the refresh returns true and the file holds the encoding of the
    kept cookies, which [check_cookies_file] accepts; when opening fails the
    refresh returns false and the file is as before; when the disk fails
    during the write the refresh returns false and a truncated file is
    left. *)
Theorem refresh_cookies_store_outcomes w r w' :
  refresh_cookies w = (r, w') →
  (r = Val false ∧ frame (λ ev, ¬ write_event ev) w w')
  ∨ ∃ email password w1 w2 w3 cookies l,
      has_credentials w email password
      ∧ start_browser (set_self_page false (set_self_browser false w)) = (Val tt, w1)
      ∧ login_to_gmail email password w1 = (Val true, w2)
      ∧ navigate_to_youtube w2 = (Val true, w3)
      ∧ e_cookies (engine w) = inr cookies
      ∧ Forall2 normalized (List.filter kept cookies) l
      ∧ l ≠ []
      ∧ ((disk_fault w = NoFault ∧ r = Val true
          ∧ cookies_file w' = Text (dumps_cookies l)
          ∧ check_cookies_file w' = (Val true, w'))
         ∨ (∃ e, disk_fault w = OpenFault e ∧ r = Val false
                 ∧ cookies_file w' = cookies_file w)
         ∨ (∃ n e, disk_fault w = DumpFault n e ∧ r = Val false
                   ∧ cookies_file w' = Text (take_string n (dumps_cookies l)))).
Proof.
  fold no_write. intros Hr.
  set (w0 := set_self_page false (set_self_browser false w)) in *.
  assert (frame session_event w w0) as F0 by (by eapply (manager_init_frame _ w)).
  destruct (start_browser w0) as [rs w1] eqn:Es.
  assert (frame session_event w0 w1) as F1 by (eapply start_browser_frame; exact Es).
  destruct rs as [[]|e].
  2:{ rewrite (refresh_cookies_not_started _ _ _ Es) in Hr. injection Hr as <- <-.
      left. split; [done|]. apply frame_session_no_write.
      eapply frame_trans; [exact F0|].
      eapply frame_trans; [exact F1 | apply frame_add_stdout]. }
  assert (frame no_write w w1) as F01.
  { apply frame_session_no_write. eapply frame_trans; [exact F0 | exact F1]. }
  (* the credential check *)
  destruct (PyStr.truthy (environ w1 !! "YOUTUBE_EMAIL")) eqn:Te;
    [destruct (PyStr.truthy (environ w1 !! "YOUTUBE_PASSWORD")) eqn:Tp|].
  2,3: (pose proof (perform_without_credentials w1 ltac:(auto)) as Ep;
        destruct (close_after_frame (add_stdout LogMissingCredentials w1) LogRefreshFailed)
          as (w5 & Ec & F5);
        rewrite (refresh_cookies_started _ _ _ _ _ Es Ep Ec) in Hr;
        injection Hr as <- <-; left; split; [done|];
        eapply frame_trans; [exact F01|];
        eapply frame_trans; [apply frame_add_stdout|];
        by apply frame_session_no_write).
  apply truthy_true in Te as (email & Ee & Hne), Tp as (password & Epw & Hnp).
  assert (has_credentials w1 email password) as Hc1 by done.
  assert (has_credentials w email password) as Hc.
  { unfold has_credentials. by rewrite <- (frame_environ _ _ _ F01). }
  (* the login *)
  destruct (login_to_gmail_returns email password w1) as (b1 & w2 & El).
  assert (frame no_write w1 w2) as F2.
  { apply frame_page_no_write. eapply login_to_gmail_frame. exact El. }
  destruct b1.
  2:{ pose proof (perform_login_failed _ _ _ _ Hc1 El) as Ep.
      destruct (close_after_frame w2 LogRefreshFailed) as (w5 & Ec & F5).
      rewrite (refresh_cookies_started _ _ _ _ _ Es Ep Ec) in Hr.
      injection Hr as <- <-. left. split; [done|].
      eapply frame_trans; [exact F01|]. eapply frame_trans; [exact F2|].
      by apply frame_session_no_write. }
  (* the navigation *)
  destruct (navigate_to_youtube_returns w2) as (b2 & w3 & En).
  assert (frame no_write w2 w3) as F3.
  { apply frame_page_no_write. eapply navigate_to_youtube_frame. exact En. }
  destruct b2.
  2:{ pose proof (perform_navigation_failed _ _ _ _ _ Hc1 El En) as Ep.
      destruct (close_after_frame w3 LogRefreshFailed) as (w5 & Ec & F5).
      rewrite (refresh_cookies_started _ _ _ _ _ Es Ep Ec) in Hr.
      injection Hr as <- <-. left. split; [done|].
      eapply frame_trans; [exact F01|]. eapply frame_trans; [exact F2|].
      eapply frame_trans; [exact F3|]. by apply frame_session_no_write. }
  assert (frame no_write w w3) as F03.
  { eapply frame_trans; [exact F01|]. eapply frame_trans; [exact F2 | exact F3]. }
  (* the extraction *)
  destruct (extract_and_save_cookies_returns w3) as (b3 & w4 & Ex).
  pose proof (perform_extracts _ _ _ _ _ _ _ Hc1 El En Ex) as Ep.
  destruct (close_after_frame w4 (if b3 then LogRefreshed else LogRefreshFailed))
    as (w5 & Ec & F5).
  rewrite (refresh_cookies_started _ _ _ _ _ Es Ep Ec) in Hr.
  injection Hr as <- <-.
  destruct (extract_and_save_cookies_cases _ _ _ Ex)
    as [[Hb F4] | (cookies & l & Eck & HF & Hl & E1 & E2 & E3 & Hw)].
  { left. split; [done|]. eapply frame_trans; [exact F03|].
    eapply frame_trans; [exact F4|]. by apply frame_session_no_write. }
  right. exists email, password, w1, w2, w3, cookies, l.
  rewrite (frame_engine _ _ _ F03) in Eck.
  rewrite (frame_disk_fault _ _ _ F03) in Hw.
  rewrite (frame_cookies_file _ _ _ F03) in Hw.
  rewrite <- (frame_cookies_file _ _ _ F5) in Hw.
  do 7 (split; [done|]).
  destruct Hw as [(Hf & Hb & Efile) | [(e & Hf & Hb & Efile) | (n & e & Hf & Hb & Efile)]].
  - left. split; [done|]. split; [done|]. split; [done|].
    by apply (check_cookies_file_dumps l).
  - right; left. by exists e.
  - right; right. by exists n, e.
Qed.

Lemma refresh_cookies_store_outcomes_witness :
  ∃ l, l ≠ []
       ∧ (refresh_cookies (world_of credentials (engine_ok [youtube_cookie]) NoFault Missing)).1
         = Val true
       ∧ cookies_file
           (refresh_cookies (world_of credentials (engine_ok [youtube_cookie]) NoFault Missing)).2
         = Text (dumps_cookies l).
Proof.
  destruct (refresh_cookies_store_outcomes
              (world_of credentials (engine_ok [youtube_cookie]) NoFault Missing)
              (refresh_cookies (world_of credentials (engine_ok [youtube_cookie]) NoFault Missing)).1
              (refresh_cookies (world_of credentials (engine_ok [youtube_cookie]) NoFault Missing)).2)
    as [[Hr _] | (email & password & w1 & w2 & w3 & cookies & l & _ & _ & _ & _ & _ & _ & Hl & Hw)].
  - vm_compute. reflexivity.
  - vm_compute in Hr. discriminate Hr.
  - exists l. split; [exact Hl|].
    destruct Hw as [(_ & Hr & Hf & _) | [(e & Hd & _) | (n & e & Hd & _)]].
    + split; [exact Hr | exact Hf].
    + vm_compute in Hd. discriminate Hd.
    + vm_compute in Hd. discriminate Hd.
Defined.

(** The disk can fail while the cookies are written.  The refresh then
    returns false, and the store, valid before, is left truncated: it is
    not the prior file and it is not a valid one. *)
Lemma refresh_write_failure_truncates_store :
  let w := world_of credentials (engine_ok [youtube_cookie])
             (DumpFault 10 "No space left on device")
             (Text (dumps_cookies [stored_cookie])) in
  (check_cookies_file w).1 = Val true
  ∧ (refresh_cookies w).1 = Val false
  ∧ cookies_file (refresh_cookies w).2
    = Text (take_string 10
              (dumps_cookies
                 [mkPersisted "SID" "abc" ".youtube.com" "/" (-1) true false
                    "no_restriction"]))
  ∧ cookies_file (refresh_cookies w).2 ≠ cookies_file w
  ∧ (check_cookies_file (refresh_cookies w).2).1 = Val false.
Proof.
  cbv zeta. split; [vm_compute; reflexivity|]. split; [vm_compute; reflexivity|].
  split; [vm_compute; reflexivity|]. split; [|vm_compute; reflexivity].
  vm_compute. intros H. discriminate H.
Qed.

(** ** Noninterference *)

Section Related.

Variable log_too : bool.

Lemma related_ret {A} (R : A → A → Prop) a1 a2 :
  R a1 a2 → related log_too R (ret a1) (ret a2).
Proof. by intros HR w1 w2 H. Qed.

Lemma related_raise {A} (R : A → A → Prop) e :
  related log_too R (raise e) (raise e).
Proof. by intros w1 w2 H. Qed.

Lemma related_bind {A B} (R : A → A → Prop) (S : B → B → Prop) m1 m2 k1 k2 :
  related log_too R m1 m2 →
  (∀ a1 a2, R a1 a2 → related log_too S (k1 a1) (k2 a2)) →
  related log_too S (bind m1 k1) (bind m2 k2).
Proof.
  intros Hm Hk w1 w2 H. specialize (Hm w1 w2 H). unfold bind.
  destruct (m1 w1) as [[a1|e1] w1'], (m2 w2) as [[a2|e2] w2']; try done.
  destruct Hm as [HR H']. by apply Hk.
Qed.

Lemma related_bind_eq {A B} (S : B → B → Prop) (m1 m2 : M A) k1 k2 :
  related log_too eq m1 m2 →
  (∀ a, related log_too S (k1 a) (k2 a)) →
  related log_too S (bind m1 k1) (bind m2 k2).
Proof.
  intros Hm Hk. eapply related_bind; [exact Hm|]. intros a1 a2 <-. apply Hk.
Qed.

Lemma related_try_except {A} (R : A → A → Prop) b1 b2 h1 h2 :
  related log_too R b1 b2 →
  (∀ e, related log_too R (h1 e) (h2 e)) →
  related log_too R (try_except b1 h1) (try_except b2 h2).
Proof.
  intros Hm Hk w1 w2 H. specialize (Hm w1 w2 H). unfold try_except.
  destruct (b1 w1) as [[a1|e1] w1'], (b2 w2) as [[a2|e2] w2']; try done.
  destruct Hm as [<- H']. by apply Hk.
Qed.

Lemma related_print m1 m2 :
  (log_too = true → m1 = m2) → related log_too eq (print m1) (print m2).
Proof.
  intros Hm w1 w2 (E1 & E2 & E3 & E4 & E5 & E6 & E7 & E8 & E9). split; [done|].
  repeat split; try done.
  - cbn. destruct (E8 H) as [-> _]. by rewrite (Hm H).
  - by apply E8.
Qed.

Lemma related_emit ev1 ev2 : related log_too eq (emit ev1) (emit ev2).
Proof. intros w1 w2 H. split; [done|]. exact H. Qed.

Lemma related_get {A} (f : World → A) :
  (∀ w1 w2, agree log_too w1 w2 → f w1 = f w2) →
  related log_too eq (get f) (get f).
Proof. intros Hf w1 w2 H. split; [by apply Hf | done]. Qed.

Lemma related_get_engine {A} (f : Engine → A) :
  related log_too eq (get (λ w, f (engine w))) (get (λ w, f (engine w))).
Proof. apply related_get. by intros w1 w2 (-> & _). Qed.

Lemma related_get2 {A} (f1 f2 : World → A) :
  (∀ w1 w2, agree log_too w1 w2 → f1 w1 = f2 w2) →
  related log_too eq (get f1) (get f2).
Proof. intros Hf w1 w2 H. split; [by apply Hf | done]. Qed.

(** Typing one text or another into a field is answered alike. *)
Lemma related_fill sel t1 t2 :
  related log_too eq (page_fill sel t1) (page_fill sel t2).
Proof.
  unfold page_fill, call.
  apply related_bind_eq; [apply related_emit|]. intros _.
  apply related_bind_eq.
  { apply related_get2. intros w1 w2 (E & _ & _ & _ & _ & _ & _ & _ & Hb).
    rewrite <- E. apply Hb. }
  intros [e|]; [apply related_raise | by apply related_ret].
Qed.

Lemma related_call ev1 ev2 answer :
  related log_too eq (call ev1 answer) (call ev2 answer).
Proof.
  apply related_bind_eq; [apply related_emit|]. intros _.
  apply related_bind_eq; [apply related_get_engine|]. intros [e|].
  - apply related_raise.
  - by apply related_ret.
Qed.

Lemma related_ask {A} ev1 ev2 (answer : Engine → exn + A) :
  related log_too eq (ask ev1 answer) (ask ev2 answer).
Proof.
  apply related_bind_eq; [apply related_emit|]. intros _.
  apply related_bind_eq; [apply related_get_engine|]. intros [e|a].
  - apply related_raise.
  - by apply related_ret.
Qed.

Lemma related_modify f :
  (∀ w1 w2, agree log_too w1 w2 → agree log_too (f w1) (f w2)) →
  related log_too eq (modify f) (modify f).
Proof. intros Hf w1 w2 H. split; [done | by apply Hf]. Qed.

Lemma related_set_self_browser b :
  related log_too eq (modify (set_self_browser b)) (modify (set_self_browser b)).
Proof. apply related_modify. intros w1 w2 (?&?&?&?&?&?&?&?&?).
  unfold agree. do 8 (split; [done|]). done.
Qed.

Lemma related_set_self_page b :
  related log_too eq (modify (set_self_page b)) (modify (set_self_page b)).
Proof. apply related_modify. intros w1 w2 (?&?&?&?&?&?&?&?&?).
  unfold agree. do 8 (split; [done|]). done.
Qed.

Lemma related_set_cookies_file f :
  related log_too eq (modify (set_cookies_file f)) (modify (set_cookies_file f)).
Proof. apply related_modify. intros w1 w2 (?&?&?&?&?&?&?&?&?).
  unfold agree. do 8 (split; [done|]). done.
Qed.

End Related.

Ltac related_step :=
  match goal with
  | |- related _ _ (bind _ _) (bind _ _) => apply related_bind_eq; [|intros ?]
  | |- related _ _ (try_except _ _) (try_except _ _) =>
    apply related_try_except; [|intros ?]
  | |- related _ _ (ret _) (ret _) => by apply related_ret
  | |- related _ _ (raise _) (raise _) => apply related_raise
  | |- related _ _ (print _) (print _) =>
    apply related_print; intros ?; first [reflexivity | f_equal; auto]
  | |- related _ _ (emit _) (emit _) => apply related_emit
  | |- related _ _ (page_fill _ _) (page_fill _ _) => apply related_fill
  | |- related _ _ (call _ _) (call _ _) => apply related_call
  | |- related _ _ (ask _ _) (ask _ _) => apply related_ask
  | |- related _ _ (modify (set_self_browser _)) _ => apply related_set_self_browser
  | |- related _ _ (modify (set_self_page _)) _ => apply related_set_self_page
  | |- related _ _ (modify (set_cookies_file _)) _ => apply related_set_cookies_file
  | |- related _ _ (get _) (get _) =>
    apply related_get; intros ? ? (?&?&?&?&?&?&?&?&?); cbn; congruence
  | |- related _ _ (if ?b then _ else _) (if ?b then _ else _) => destruct b
  | |- related _ _ (match ?x with _ => _ end) (match ?x with _ => _ end) =>
    destruct x
  end.
Ltac related_tac := repeat related_step.

Section RelatedPrograms.

Variable log_too : bool.

Lemma start_browser_related : related log_too eq start_browser start_browser.
Proof. unfold start_browser. related_tac. Qed.

Lemma close_browser_related : related log_too eq close_browser close_browser.
Proof. unfold close_browser. related_tac. Qed.

Lemma login_to_gmail_related email1 password1 email2 password2 :
  (log_too = true → email1 = email2) →
  related log_too eq (login_to_gmail email1 password1)
                     (login_to_gmail email2 password2).
Proof.
  intros He.
  unfold login_to_gmail, page_goto, page_wait_for_selector, page_click,
    page_wait_for_function, page_url, page_content, asyncio_sleep.
  related_tac.
Qed.

Lemma navigate_to_youtube_related :
  related log_too eq navigate_to_youtube navigate_to_youtube.
Proof.
  unfold navigate_to_youtube, page_goto, page_wait_for_selector,
    page_query_selector, asyncio_sleep.
  related_tac.
Qed.

Lemma filter_and_convert_related cookies acc :
  related log_too eq (filter_and_convert cookies acc) (filter_and_convert cookies acc).
Proof.
  revert acc. induction cookies as [|c cs IH]; intros acc; cbn [filter_and_convert].
  - by apply related_ret.
  - unfold getitem. related_tac; apply IH.
Qed.

Lemma write_cookies_file_related l :
  related log_too eq (write_cookies_file l) (write_cookies_file l).
Proof. unfold write_cookies_file. related_tac. Qed.

Lemma extract_and_save_cookies_related :
  related log_too eq extract_and_save_cookies extract_and_save_cookies.
Proof.
  unfold extract_and_save_cookies, context_cookies.
  related_tac; first [apply filter_and_convert_related | apply write_cookies_file_related].
Qed.

End RelatedPrograms.

Section RelatedRefresh.

Variable log_too : bool.

Lemma os_getenv_email_related :
  related log_too
    (λ o1 o2, PyStr.truthy o1 = PyStr.truthy o2 ∧ (log_too = true → o1 = o2))
    (os_getenv "YOUTUBE_EMAIL") (os_getenv "YOUTUBE_EMAIL").
Proof.
  intros w1 w2 H. split; [|done].
  destruct H as (_&_&_&_&_&He&_&Hl&_). split; [done|]. intros Ht. by apply Hl.
Qed.

Lemma os_getenv_password_related :
  related log_too (λ o1 o2, PyStr.truthy o1 = PyStr.truthy o2)
    (os_getenv "YOUTUBE_PASSWORD") (os_getenv "YOUTUBE_PASSWORD").
Proof.
  intros w1 w2 H. split; [|done]. by destruct H as (_&_&_&_&_&_&Hp&_&_).
Qed.

Lemma perform_login_and_save_cookies_related :
  related log_too eq perform_login_and_save_cookies perform_login_and_save_cookies.
Proof.
  unfold perform_login_and_save_cookies.
  apply related_try_except; [|intros e; related_tac].
  eapply related_bind; [apply os_getenv_email_related|].
  intros email1 email2 [Te He].
  eapply related_bind; [apply os_getenv_password_related|].
  intros password1 password2 Tp. cbv beta in Tp.
  rewrite Te, Tp.
  destruct (negb (PyStr.truthy email2) || negb (PyStr.truthy password2));
    [related_tac|].
  apply related_bind_eq.
  { apply login_to_gmail_related. intros Hl. by rewrite (He Hl). }
  intros logged_in. destruct (negb logged_in); [related_tac|].
  apply related_bind_eq; [apply navigate_to_youtube_related|].
  intros on_youtube. destruct (negb on_youtube); [related_tac|].
  apply extract_and_save_cookies_related.
Qed.

Lemma async_with_related {A} (R : A → A → Prop) aenter aexit body1 body2 :
  related log_too eq aenter aenter →
  related log_too eq aexit aexit →
  related log_too R body1 body2 →
  related log_too R (async_with aenter aexit body1) (async_with aenter aexit body2).
Proof.
  intros He Hx Hb. unfold async_with.
  apply related_bind_eq; [exact He|]. intros _ w1 w2 H.
  specialize (Hb w1 w2 H).
  destruct (body1 w1) as [[a1|e1] w1'], (body2 w2) as [[a2|e2] w2']; try done.
  - destruct Hb as [HR H'].
    apply (related_bind_eq log_too R aexit aexit (λ _, ret a1) (λ _, ret a2));
      [exact Hx | intros _; by apply related_ret | exact H'].
  - destruct Hb as [<- H'].
    apply (related_bind_eq log_too R aexit aexit (λ _, raise e1) (λ _, raise e1));
      [exact Hx | intros _; apply related_raise | exact H'].
Qed.

Lemma refresh_cookies_related : related log_too eq refresh_cookies refresh_cookies.
Proof.
  unfold refresh_cookies, refresh_cookies_async, manager_init.
  apply related_try_except; [|intros e; related_tac].
  apply related_try_except; [|intros e; related_tac].
  apply related_bind_eq; [related_tac|]. intros _.
  apply async_with_related;
    [apply start_browser_related | apply close_browser_related |].
  apply related_bind_eq; [apply perform_login_and_save_cookies_related|].
  intros success. related_tac.
Qed.

End RelatedRefresh.

(** The login prints the e-mail address it signs in with. *)
Lemma refresh_prints_identity :
  let w := world_of credentials (engine_ok [youtube_cookie]) NoFault Missing in
  environ w !! "YOUTUBE_EMAIL" = Some "user@example.com"
  ∧ LogLoggingIn "user@example.com" ∈ stdout (refresh_cookies w).2
  ∧ PyStr.contains "user@example.com" (render (LogLoggingIn "user@example.com")) = true.
Proof.
  cbv zeta. split; [vm_compute; reflexivity|]. split; [|vm_compute; reflexivity].
  vm_compute. apply list_elem_of_here.
Qed.

(** A failed typing of the password is printed as the engine reports it:
    on an engine whose message repeats the call, the secret is in the
    output.  The identity is printed in any case, when the login starts. *)
Lemma refresh_prints_credentials :
  (let w := world_of credentials (engine_ok [youtube_cookie]) NoFault Missing in
   environ w !! "YOUTUBE_EMAIL" = Some "user@example.com"
   ∧ LogLoggingIn "user@example.com" ∈ stdout (refresh_cookies w).2
   ∧ PyStr.contains "user@example.com" (render (LogLoggingIn "user@example.com"))
     = true)
  ∧ (let w := world_of credentials engine_fill_echoes NoFault Missing in
     environ w !! "YOUTUBE_PASSWORD" = Some "hunter2"
     ∧ LogLoginFailed "Page.fill: Timeout 30000ms exceeded. Call log: fill(hunter2)"
       ∈ stdout (refresh_cookies w).2
     ∧ PyStr.contains "hunter2"
         (render
            (LogLoginFailed
               "Page.fill: Timeout 30000ms exceeded. Call log: fill(hunter2)"))
       = true).
Proof.
  cbv zeta. split.
  - split; [vm_compute; reflexivity|]. split; [|vm_compute; reflexivity].
    vm_compute. apply list_elem_of_here.
  - split; [vm_compute; reflexivity|]. split; [|vm_compute; reflexivity].
    vm_compute. set_solver.
Qed.

Lemma take_string_all s : take_string (String.length s) s = s.
Proof. induction s as [|c s IH]; cbn; [done | by rewrite IH]. Qed.

(** What the login process can leave in the cookie file: what was there,
    or the encoding of the kept cookies of the session, or a part of it. *)
Lemma perform_file_cases w r w' :
  perform_login_and_save_cookies w = (r, w') →
  cookies_file w' = cookies_file w
  ∨ ∃ cookies l n,
      e_cookies (engine w) = inr cookies
      ∧ Forall2 normalized (List.filter kept cookies) l
      ∧ cookies_file w' = Text (take_string n (dumps_cookies l)).
Proof.
  unfold perform_login_and_save_cookies. munfold.
  destruct (_ || _); [intros [= _ <-]; by left|].
  destruct (login_to_gmail_returns
              (default EmptyString (environ w !! "YOUTUBE_EMAIL"))
              (default EmptyString (environ w !! "YOUTUBE_PASSWORD")) w)
    as (b1 & w1 & El).
  rewrite El. pose proof (login_to_gmail_frame _ _ _ _ _ El) as F1.
  destruct b1; cbn [negb];
    [|intros [= _ <-]; left; by rewrite (frame_cookies_file _ _ _ F1)].
  destruct (navigate_to_youtube_returns w1) as (b2 & w2 & En).
  rewrite En. pose proof (navigate_to_youtube_frame _ _ _ En) as F2.
  destruct b2; cbn [negb];
    [|intros [= _ <-]; left;
      by rewrite (frame_cookies_file _ _ _ F2), (frame_cookies_file _ _ _ F1)].
  destruct (extract_and_save_cookies_returns w2) as (b3 & w3 & Ex). rewrite Ex.
  intros [= _ <-].
  destruct (extract_and_save_cookies_cases _ _ _ Ex)
    as [[_ F3] | (cookies & l & Eck & HF & _ & _ & _ & _ & Hw)].
  { left. by rewrite (frame_cookies_file _ _ _ F3), (frame_cookies_file _ _ _ F2),
      (frame_cookies_file _ _ _ F1). }
  rewrite (frame_engine _ _ _ F2), (frame_engine _ _ _ F1) in Eck.
  destruct Hw as [(_ & _ & Ef) | [(e & _ & _ & Ef) | (n & e & _ & _ & Ef)]].
  - right. exists cookies, l, (String.length (dumps_cookies l)).
    by rewrite take_string_all.
  - left. by rewrite Ef, (frame_cookies_file _ _ _ F2), (frame_cookies_file _ _ _ F1).
  - right. by exists cookies, l, n.
Qed.

Lemma refresh_file_cases w r w' :
  refresh_cookies w = (r, w') →
  cookies_file w' = cookies_file w
  ∨ ∃ cookies l n,
      e_cookies (engine w) = inr cookies
      ∧ Forall2 normalized (List.filter kept cookies) l
      ∧ cookies_file w' = Text (take_string n (dumps_cookies l)).
Proof.
  intros Hr.
  set (w0 := set_self_page false (set_self_browser false w)) in *.
  destruct (start_browser w0) as [rs w1] eqn:Es.
  pose proof (start_browser_frame _ _ _ Es) as F1.
  destruct rs as [[]|e].
  2:{ rewrite (refresh_cookies_not_started _ _ _ Es) in Hr. injection Hr as _ <-.
      left. wsimpl. by rewrite (frame_cookies_file _ _ _ F1). }
  destruct (perform_login_and_save_cookies_returns w1) as (success & w2 & Ep).
  destruct (close_after_frame w2 (if success then LogRefreshed else LogRefreshFailed))
    as (w3 & Ec & F3).
  rewrite (refresh_cookies_started _ _ _ _ _ Es Ep Ec) in Hr. injection Hr as _ <-.
  rewrite (frame_cookies_file _ _ _ F3).
  destruct (perform_file_cases _ _ _ Ep) as [E | (cookies & l & n & Eck & HF & Ef)].
  - left. by rewrite E, (frame_cookies_file _ _ _ F1).
  - right. exists cookies, l, n. rewrite (frame_engine _ _ _ F1) in Eck.
    split; [exact Eck | by split].
Qed.

(** C7 (amended): the credentials are read from the environment at each
    refresh.  Nothing but session cookies is ever persisted: the cookie
    file after a refresh is the file before it, or the encoding of the kept
    cookies of the session, or a part of that encoding.  The code never
    prints the secret: on an engine whose answers do not depend on the text
    typed into the page, two refreshes on worlds that differ in the value
    of the secret (and in the calls made so far) return the same result,
    print the same lines and leave the same cookie file; when the worlds
    differ in the identity as well, the result and the cookie file are
    still the same.  (The identity is printed when the login starts, and a
    failure of a call is printed with the message of its exception, which
    for the typing of the password can repeat the secret.) *)
Theorem refresh_cookies_secret_noninterference :
  (∀ w1 w2,
     agree true w1 w2 →
     (refresh_cookies w1).1 = (refresh_cookies w2).1
     ∧ stdout (refresh_cookies w1).2 = stdout (refresh_cookies w2).2
     ∧ cookies_file (refresh_cookies w1).2 = cookies_file (refresh_cookies w2).2)
  ∧ (∀ w1 w2,
       agree false w1 w2 →
       (refresh_cookies w1).1 = (refresh_cookies w2).1
       ∧ cookies_file (refresh_cookies w1).2 = cookies_file (refresh_cookies w2).2)
  ∧ (∀ w r w',
       refresh_cookies w = (r, w') →
       cookies_file w' = cookies_file w
       ∨ ∃ cookies l n,
           e_cookies (engine w) = inr cookies
           ∧ Forall2 normalized (List.filter kept cookies) l
           ∧ cookies_file w' = Text (take_string n (dumps_cookies l))).
Proof.
  split; [|split]; [intros w1 w2 H..|].
  - pose proof (refresh_cookies_related true w1 w2 H) as Hr.
    destruct (refresh_cookies w1) as [[a1|e1] w1'], (refresh_cookies w2) as [[a2|e2] w2'];
      try done; destruct Hr as [<- (_&_&Hf&_&_&_&_&Hl&_)];
      (split; [done|]); (split; [by apply Hl | done]).
  - pose proof (refresh_cookies_related false w1 w2 H) as Hr.
    destruct (refresh_cookies w1) as [[a1|e1] w1'], (refresh_cookies w2) as [[a2|e2] w2'];
      try done; destruct Hr as [<- (_&_&Hf&_)]; by split.
  - apply refresh_file_cases.
Qed.

Lemma refresh_cookies_secret_noninterference_witness :
  ((refresh_cookies (world_of credentials (engine_ok [youtube_cookie]) NoFault Missing)).1
   = (refresh_cookies
        (world_of credentials_other_secret (engine_ok [youtube_cookie]) NoFault Missing)).1
   ∧ stdout (refresh_cookies
               (world_of credentials (engine_ok [youtube_cookie]) NoFault Missing)).2
     = stdout (refresh_cookies
                 (world_of credentials_other_secret (engine_ok [youtube_cookie])
                    NoFault Missing)).2
   ∧ cookies_file (refresh_cookies
                     (world_of credentials (engine_ok [youtube_cookie]) NoFault Missing)).2
     = cookies_file (refresh_cookies
                       (world_of credentials_other_secret (engine_ok [youtube_cookie])
                          NoFault Missing)).2)
  ∧ ((refresh_cookies (world_of credentials (engine_ok [youtube_cookie]) NoFault Missing)).1
     = (refresh_cookies
          (world_of credentials_other_identity (engine_ok [youtube_cookie]) NoFault Missing)).1
     ∧ cookies_file (refresh_cookies
                       (world_of credentials (engine_ok [youtube_cookie]) NoFault Missing)).2
       = cookies_file (refresh_cookies
                         (world_of credentials_other_identity (engine_ok [youtube_cookie])
                            NoFault Missing)).2)
  ∧ (cookies_file
       (refresh_cookies (world_of credentials engine_fill_echoes NoFault (Text "[]"))).2
     = cookies_file (world_of credentials engine_fill_echoes NoFault (Text "[]"))
     ∨ ∃ cookies l n,
         e_cookies (engine (world_of credentials engine_fill_echoes NoFault (Text "[]")))
         = inr cookies
         ∧ Forall2 normalized (List.filter kept cookies) l
         ∧ cookies_file
             (refresh_cookies
                (world_of credentials engine_fill_echoes NoFault (Text "[]"))).2
           = Text (take_string n (dumps_cookies l))).
Proof.
  split; [|split].
  - apply (proj1 refresh_cookies_secret_noninterference).
    unfold agree. do 7 (split; [reflexivity|]).
    split; [intros _; split; reflexivity | intros sel t1 t2; reflexivity].
  - apply (proj1 (proj2 refresh_cookies_secret_noninterference)).
    unfold agree. do 7 (split; [reflexivity|]).
    split; [intros H; discriminate H | intros sel t1 t2; reflexivity].
  - apply (proj2 (proj2 refresh_cookies_secret_noninterference)
             (world_of credentials engine_fill_echoes NoFault (Text "[]"))
             (refresh_cookies
                (world_of credentials engine_fill_echoes NoFault (Text "[]"))).1).
    by destruct (refresh_cookies _).
Defined.

(** ** The validity check *)

Lemma check_cookies_file_world w r w' : check_cookies_file w = (r, w') → w' = w.
Proof.
  unfold check_cookies_file. munfold.
  destruct (cookies_file w) as [|e|contents]; [by intros [= _ <-]..|].
  destruct (Json.loads contents) as [v|]; [|by intros [= _ <-]].
  destruct (Json.py_len v); by intros [= _ <-].
Qed.

Lemma check_cookies_file_true w :
  check_cookies_file w = (Val true, w) ↔ holds_value_with_length (cookies_file w).
Proof.
  unfold check_cookies_file, holds_value_with_length. munfold. split.
  - destruct (cookies_file w) as [|e|contents]; [done..|].
    destruct (Json.loads contents) as [v|] eqn:El; [|done].
    destruct (Json.py_len v) as [n|] eqn:En; [|done].
    intros [= Hn]. exists contents, v, n.
    split; [done|]. split; [done|]. split; [done|]. by apply Nat.ltb_lt.
  - intros (contents & v & n & -> & -> & -> & Hn).
    apply Nat.ltb_lt in Hn. by rewrite Hn.
Qed.

(** The check accepts a file whose contents parse to something that is not
    a sequence of records at all, here the object with the single member
    a: 1. *)
Lemma check_cookies_file_accepts_object :
  check_cookies_file (world_with_file (Text object_text))
  = (Val true, world_with_file (Text object_text))
  ∧ Json.loads object_text
    = Some (Json.JObject [(Json.codes "a", Json.JNumber "1")])
  ∧ ¬ holds_nonempty_sequence (cookies_file (world_with_file (Text object_text))).
Proof.
  split; [vm_compute; reflexivity|]. split; [vm_compute; reflexivity|].
  intros (contents & items & [= <-] & Hl & _). vm_compute in Hl. discriminate Hl.
Qed.

(** C8 (amended): [check_cookies_file] always returns a boolean, raises
    nothing and changes nothing; it returns true exactly when the file
    exists, its contents parse as JSON and the top-level value has a
    positive length (a non-empty array, object or string); on a missing
    file, an unreadable file, a malformed file and an empty array it
    returns false. *)
Theorem check_cookies_file_valid_iff w :
  (∃ b, check_cookies_file w = (Val b, w))
  ∧ (check_cookies_file w = (Val true, w) ↔ holds_value_with_length (cookies_file w))
  ∧ (cookies_file w = Missing → check_cookies_file w = (Val false, w))
  ∧ (∀ e, cookies_file w = Unreadable e → check_cookies_file w = (Val false, w))
  ∧ (∀ contents, cookies_file w = Text contents → Json.loads contents = None →
       check_cookies_file w = (Val false, w))
  ∧ (cookies_file w = Text "[]" → check_cookies_file w = (Val false, w)).
Proof.
  split; [|split; [apply check_cookies_file_true|]].
  - destruct (check_cookies_file_returns w) as (b & w' & E).
    rewrite (check_cookies_file_world _ _ _ E) in E. by exists b.
  - unfold check_cookies_file. munfold. repeat split.
    + by intros ->.
    + by intros e ->.
    + by intros contents -> ->.
    + by intros ->.
Qed.

Lemma check_cookies_file_valid_iff_witness :
  check_cookies_file (world_with_file Missing) = (Val false, world_with_file Missing)
  ∧ check_cookies_file (world_with_file (Unreadable "PermissionError"))
    = (Val false, world_with_file (Unreadable "PermissionError"))
  ∧ check_cookies_file (world_with_file (Text malformed_text))
    = (Val false, world_with_file (Text malformed_text))
  ∧ check_cookies_file (world_with_file (Text "[]"))
    = (Val false, world_with_file (Text "[]"))
  ∧ check_cookies_file (world_with_file (Text (dumps_cookies [stored_cookie])))
    = (Val true, world_with_file (Text (dumps_cookies [stored_cookie]))).
Proof.
  split; [|split; [|split; [|split]]].
  - destruct (check_cookies_file_valid_iff (world_with_file Missing))
      as (_ & _ & H & _).
    apply H. reflexivity.
  - destruct (check_cookies_file_valid_iff
                (world_with_file (Unreadable "PermissionError")))
      as (_ & _ & _ & H & _).
    apply (H "PermissionError"). reflexivity.
  - destruct (check_cookies_file_valid_iff (world_with_file (Text malformed_text)))
      as (_ & _ & _ & _ & H & _).
    apply (H malformed_text); [reflexivity | vm_compute; reflexivity].
  - destruct (check_cookies_file_valid_iff (world_with_file (Text "[]")))
      as (_ & _ & _ & _ & _ & H).
    apply H. reflexivity.
  - destruct (check_cookies_file_valid_iff
                (world_with_file (Text (dumps_cookies [stored_cookie]))))
      as (_ & H & _).
    apply H.
    exists (dumps_cookies [stored_cookie]), (Json.JArray [cookie_json stored_cookie]), 1.
    split; [reflexivity|]. split; [vm_compute; reflexivity|].
    split; [reflexivity | lia].
Defined.

(** C10: [check_cookies_file] returns true for every file whose contents
    parse to a value of positive length, whatever that value is: a
    non-empty object, a non-empty string and an array of one number are
    accepted just as an array of cookie records is. *)
Theorem check_cookies_file_accepts_any_length :
  (∀ w contents v n,
     cookies_file w = Text contents →
     Json.loads contents = Some v →
     Json.py_len v = Some n →
     0 < n →
     check_cookies_file w = (Val true, w))
  ∧ (check_cookies_file (world_with_file (Text object_text))).1 = Val true
  ∧ (check_cookies_file (world_with_file (Text string_text))).1 = Val true
  ∧ (check_cookies_file (world_with_file (Text number_array_text))).1 = Val true.
Proof.
  split; [|by vm_compute].
  intros w contents v n Hf Hl Hn Hpos. apply check_cookies_file_true.
  by exists contents, v, n.
Qed.

Lemma check_cookies_file_accepts_any_length_witness :
  check_cookies_file (world_with_file (Text string_text))
  = (Val true, world_with_file (Text string_text)).
Proof.
  apply (proj1 check_cookies_file_accepts_any_length
           (world_with_file (Text string_text)) string_text (Json.JString [120%N]) 1).
  - reflexivity.
  - vm_compute. reflexivity.
  - reflexivity.
  - lia.
Defined.

(** ** The renewal loop *)

Lemma loop_refresh_continues w :
  ∃ ok w', loop_refresh w = (Refreshed ok, AtWhile, w').
Proof.
  unfold loop_refresh. destruct (refresh_cookies_returns w) as (ok & w' & ->).
  by exists ok, w'.
Qed.

Lemma run_loop_add a b stop outside k p w :
  run_loop (a + b) stop outside k p w
  = let '(l1, p1, w1) := run_loop a stop outside k p w in
    let '(l2, p2, w2) := run_loop b stop outside (k + a) p1 w1 in
    (l1 ++ l2, p2, w2).
Proof.
  revert k p w. induction a as [|a IH]; intros k p w.
  - cbn [run_loop Nat.add]. rewrite Nat.add_0_r.
    by destruct (run_loop b stop outside k p w) as [[l2 p2] w2].
  - cbn [run_loop Nat.add].
    destruct (loop_step (stop k) p (outside k w)) as [[[l p'] w']|] eqn:E.
    + rewrite IH. replace (S k + a) with (k + S a) by lia.
      destruct (run_loop a stop outside (S k) p' w') as [[l1 p1] w1].
      by destruct (run_loop b stop outside (k + S a) p1 w1) as [[l2 p2] w2].
    + destruct b as [|b]; [done|]. cbn [run_loop].
      assert (p = Finished) as -> by (by destruct p; cbn in E; repeat case_match).
      done.
Qed.

(** The [for] loop with the flag down: from tick [i] to the last tick, two
    steps a tick, one of them a sleep of a minute. *)
Lemma run_loop_ticks j i outside k w :
  i + j = TICKS →
  ∃ w', run_loop (2 * j) never outside k (AtFor i) w
        = (concat (replicate j [Tau; Slept 60]), AtFor TICKS, w').
Proof.
  revert i k w. induction j as [|j IH]; intros i k w Hij.
  - rewrite Nat.add_0_r in Hij. subst i. by exists w.
  - replace (2 * S j) with (S (S (2 * j))) by lia. cbn [run_loop never loop_step].
    assert ((i <? TICKS) = true) as -> by (apply Nat.ltb_lt; lia).
    cbn [loop_step].
    destruct (IH (S i) (S (S k))
                (add_trace (EvTimeSleep 60) (outside (S k) (outside k w)))
                ltac:(lia)) as (w' & ->).
    by exists w'.
Qed.

Lemma filter_observable_ticks j :
  List.filter observable (concat (replicate j [Tau; Slept 60]))
  = replicate j (Slept 60).
Proof. induction j as [|j IH]; [done|]. cbn. by rewrite IH. Qed.

(** A full round with the flag down. *)
Lemma run_loop_round outside k w :
  ∃ ok w' ls,
    run_loop ROUND_STEPS never outside k AtWhile w = (ls, AtWhile, w')
    ∧ List.filter observable ls = round ok.
Proof.
  unfold ROUND_STEPS. replace (2 * TICKS + 4) with (1 + (2 * TICKS + 3)) by lia.
  rewrite run_loop_add. cbn [run_loop never loop_step].
  rewrite run_loop_add.
  destruct (run_loop_ticks TICKS 0 outside (k + 1) (outside k w) ltac:(lia))
    as (w1 & ->).
  cbn [run_loop never loop_step]. rewrite Nat.ltb_irrefl.
  cbn [run_loop never loop_step].
  match goal with
  | |- context [loop_refresh ?x] =>
    destruct (loop_refresh_continues x) as (ok & w3 & ->)
  end.
  exists ok, w3. eexists. split; [reflexivity|].
  cbn [app]. change (Tau :: ?l) with ([Tau] ++ l).
  rewrite !List.filter_app, filter_observable_ticks. reflexivity.
Qed.

Lemma run_loop_rounds n outside k w :
  ∃ oks w' ls,
    length oks = n
    ∧ run_loop (n * ROUND_STEPS) never outside k AtWhile w = (ls, AtWhile, w')
    ∧ List.filter observable ls = concat (map round oks).
Proof.
  revert k w. induction n as [|n IH]; intros k w.
  - by exists [], w, [].
  - cbn [Nat.mul]. rewrite run_loop_add.
    destruct (run_loop_round outside k w) as (ok & w1 & l1 & -> & H1).
    destruct (IH (k + ROUND_STEPS) w1) as (oks & w2 & l2 & Hlen & -> & H2).
    exists (ok :: oks), w2, (l1 ++ l2). split; [by cbn; rewrite Hlen|].
    split; [done|]. rewrite List.filter_app, H1, H2. reflexivity.
Qed.

Lemma loop_step_finished stop p w l w' :
  loop_step stop p w = Some (l, Finished, w') →
  p = AtWhile ∧ stop = true ∧ l = Exited.
Proof.
  destruct p; cbn [loop_step].
  - destruct (loop_refresh_continues
                (add_stdout (LogLoopStarting (REFRESH_INTERVAL / 3600)) w))
      as (ok & w1 & ->). done.
  - destruct stop; [by intros [= <- <-] | done].
  - repeat case_match; done.
  - done.
  - destruct stop; done.
  - destruct (loop_refresh_continues (add_stdout LogScheduledRefresh w))
      as (ok & w1 & ->). done.
  - done.
Qed.

(** A refresh step of the loop is a call of [refresh_cookies], and the
    label holds what the call returned. *)
Lemma loop_refresh_calls w :
  ∃ ok w', refresh_cookies w = (Val ok, w')
           ∧ loop_refresh w = (Refreshed ok, AtWhile, w').
Proof.
  unfold loop_refresh. destruct (refresh_cookies_returns w) as (ok & w' & E).
  exists ok, w'. by rewrite E.
Qed.

Lemma loop_step_refreshed stop p w ok p' w' :
  loop_step stop p w = Some (Refreshed ok, p', w') →
  p' = AtWhile
  ∧ ((p = AtInitialRefresh
      ∧ refresh_cookies (add_stdout (LogLoopStarting (REFRESH_INTERVAL / 3600)) w)
        = (Val ok, w'))
     ∨ (p = AtScheduledRefresh
        ∧ refresh_cookies (add_stdout LogScheduledRefresh w) = (Val ok, w'))).
Proof.
  destruct p; cbn [loop_step];
    try match goal with
        | |- context [loop_refresh ?x] =>
          destruct (loop_refresh_calls x) as (ok' & w1 & Er & ->)
        end;
    repeat case_match; intros [= ? ? ?]; subst;
    (split; [done|]); [left | right]; by split.
Qed.

(** A full round with the flag down, step by step: the ticks take the
    worker to the scheduled refresh, which is a call of [refresh_cookies]. *)
Lemma run_loop_round_calls outside k w :
  ∃ w1 ok w' ls,
    run_loop (2 * TICKS + 3) never outside k AtWhile w = (ls, AtScheduledRefresh, w1)
    ∧ List.filter observable ls = replicate TICKS (Slept 60)
    ∧ refresh_cookies
        (add_stdout LogScheduledRefresh (outside (k + (2 * TICKS + 3)) w1))
      = (Val ok, w')
    ∧ run_loop ROUND_STEPS never outside k AtWhile w
      = (ls ++ [Refreshed ok], AtWhile, w').
Proof.
  assert (∃ w1 ls,
            run_loop (2 * TICKS + 3) never outside k AtWhile w
            = (ls, AtScheduledRefresh, w1)
            ∧ List.filter observable ls = replicate TICKS (Slept 60))
    as (w1 & ls & E1 & Hf).
  { replace (2 * TICKS + 3) with (1 + (2 * TICKS + 2)) by lia.
    rewrite run_loop_add. cbn [run_loop never loop_step].
    rewrite run_loop_add.
    destruct (run_loop_ticks TICKS 0 outside (k + 1) (outside k w) ltac:(lia))
      as (w1 & ->).
    cbn [run_loop never loop_step]. rewrite Nat.ltb_irrefl.
    cbn [run_loop never loop_step].
    eexists _, _. split; [reflexivity|].
    cbn [app]. change (Tau :: ?l) with ([Tau] ++ l).
    rewrite !List.filter_app, filter_observable_ticks. cbn. by rewrite app_nil_r. }
  destruct (loop_refresh_calls
              (add_stdout LogScheduledRefresh (outside (k + (2 * TICKS + 3)) w1)))
    as (ok & w' & Er & El).
  exists w1, ok, w', ls. split; [exact E1|]. split; [exact Hf|]. split; [exact Er|].
  unfold ROUND_STEPS. replace (2 * TICKS + 4) with ((2 * TICKS + 3) + 1) by lia.
  rewrite run_loop_add, E1. cbn [run_loop never loop_step]. by rewrite El.
Qed.

(** C4: a worker first calls [refresh_cookies], whatever the flag; with the
    flag down it then goes round for ever, each round being [TICKS] sleeps
    of one minute, which add up to the refresh interval, and a call of
    [refresh_cookies]; the flag is read before every sleep, and once it is
    up the worker leaves without another sleep or refresh; a refresh always
    hands control back to the loop, whether it returned true or false, and
    the worker ends only by leaving the [while] loop on a raised flag.
    Every step that is labelled as a refresh is a call of
    [refresh_cookies], made after the line that announces it is printed,
    and the label holds the value the call returned; so it is at the end
    of every round. *)
Theorem refresh_loop_schedule :
  (∀ stop w, ∃ ok w',
     refresh_cookies (add_stdout (LogLoopStarting (REFRESH_INTERVAL / 3600)) w)
     = (Val ok, w')
     ∧ loop_step stop AtInitialRefresh w = Some (Refreshed ok, AtWhile, w'))
  ∧ (∀ n outside w, ∃ ok oks ls w1 w',
       length oks = n
       ∧ refresh_cookies
           (add_stdout (LogLoopStarting (REFRESH_INTERVAL / 3600)) (outside 0 w))
         = (Val ok, w1)
       ∧ run_loop 1 never outside 0 AtInitialRefresh w = ([Refreshed ok], AtWhile, w1)
       ∧ run_loop (1 + n * ROUND_STEPS) never outside 0 AtInitialRefresh w
         = (ls, AtWhile, w')
       ∧ List.filter observable ls = Refreshed ok :: concat (map round oks))
  ∧ (Z.of_nat TICKS * 60 = REFRESH_INTERVAL)%Z
  ∧ (∀ i w, i < TICKS →
       loop_step false (AtFor i) w = Some (Tau, AtSleep i, w)
       ∧ loop_step true (AtFor i) w = Some (Tau, AtScheduledCheck, w))
  ∧ (∀ i w, loop_step false (AtSleep i) w
            = Some (Slept 60, AtFor (S i), add_trace (EvTimeSleep 60) w))
  ∧ (∀ outside k i w, ∃ w',
       run_loop 3 always outside k (AtFor i) w = ([Tau; Tau; Exited], Finished, w'))
  ∧ (∀ stop w, ∃ ok w',
       refresh_cookies (add_stdout LogScheduledRefresh w) = (Val ok, w')
       ∧ loop_step stop AtScheduledRefresh w = Some (Refreshed ok, AtWhile, w'))
  ∧ (∀ stop p w l w', loop_step stop p w = Some (l, Finished, w') →
       p = AtWhile ∧ stop = true ∧ l = Exited)
  ∧ (∀ stop p w ok p' w',
       loop_step stop p w = Some (Refreshed ok, p', w') →
       p' = AtWhile
       ∧ ((p = AtInitialRefresh
           ∧ refresh_cookies (add_stdout (LogLoopStarting (REFRESH_INTERVAL / 3600)) w)
             = (Val ok, w'))
          ∨ (p = AtScheduledRefresh
             ∧ refresh_cookies (add_stdout LogScheduledRefresh w) = (Val ok, w'))))
  ∧ (∀ outside k w, ∃ w1 ok w' ls,
       run_loop (2 * TICKS + 3) never outside k AtWhile w
       = (ls, AtScheduledRefresh, w1)
       ∧ List.filter observable ls = replicate TICKS (Slept 60)
       ∧ refresh_cookies
           (add_stdout LogScheduledRefresh (outside (k + (2 * TICKS + 3)) w1))
         = (Val ok, w')
       ∧ run_loop ROUND_STEPS never outside k AtWhile w
         = (ls ++ [Refreshed ok], AtWhile, w')).
Proof.
  split; [|split; [|split; [|split; [|split; [|split; [|split; [|split; [|split]]]]]]]].
  - intros stop w. cbn [loop_step].
    destruct (loop_refresh_calls
                (add_stdout (LogLoopStarting (REFRESH_INTERVAL / 3600)) w))
      as (ok & w' & Er & ->).
    by exists ok, w'.
  - intros n outside w. rewrite run_loop_add. cbn [run_loop loop_step].
    destruct (loop_refresh_calls
                (add_stdout (LogLoopStarting (REFRESH_INTERVAL / 3600)) (outside 0 w)))
      as (ok & w1 & Er & ->).
    destruct (run_loop_rounds n outside (0 + 1) w1) as (oks & w2 & ls & Hlen & -> & Hf).
    exists ok, oks, ([Refreshed ok] ++ ls), w1, w2.
    split; [done|]. split; [done|]. split; [done|]. split; [done|].
    cbn. by rewrite Hf.
  - reflexivity.
  - intros i w Hi. cbn [loop_step].
    by assert ((i <? TICKS) = true) as -> by (by apply Nat.ltb_lt).
  - reflexivity.
  - intros outside k i w. cbn [run_loop always loop_step].
    eexists. by destruct (i <? TICKS).
  - intros stop w. cbn [loop_step].
    destruct (loop_refresh_calls (add_stdout LogScheduledRefresh w))
      as (ok & w' & Er & ->).
    by exists ok, w'.
  - apply loop_step_finished.
  - apply loop_step_refreshed.
  - apply run_loop_round_calls.
Qed.

Lemma refresh_loop_schedule_witness :
  (loop_step false (AtFor 0) (world_of ∅ (engine_ok []) NoFault Missing)
   = Some (Tau, AtSleep 0, world_of ∅ (engine_ok []) NoFault Missing)
   ∧ loop_step true (AtFor 0) (world_of ∅ (engine_ok []) NoFault Missing)
     = Some (Tau, AtScheduledCheck, world_of ∅ (engine_ok []) NoFault Missing))
  ∧ (AtWhile = AtWhile ∧ true = true ∧ Exited = Exited)
  ∧ (AtWhile = AtWhile
     ∧ ((AtScheduledRefresh = AtInitialRefresh
         ∧ refresh_cookies
             (add_stdout (LogLoopStarting (REFRESH_INTERVAL / 3600))
                (world_of credentials (engine_ok [youtube_cookie]) NoFault Missing))
           = (Val true,
              (refresh_cookies
                 (add_stdout LogScheduledRefresh
                    (world_of credentials (engine_ok [youtube_cookie])
                       NoFault Missing))).2))
        ∨ (AtScheduledRefresh = AtScheduledRefresh
           ∧ refresh_cookies
               (add_stdout LogScheduledRefresh
                  (world_of credentials (engine_ok [youtube_cookie]) NoFault Missing))
             = (Val true,
                (refresh_cookies
                   (add_stdout LogScheduledRefresh
                      (world_of credentials (engine_ok [youtube_cookie])
                         NoFault Missing))).2)))).
Proof.
  destruct refresh_loop_schedule as (_ & _ & _ & H4 & _ & _ & _ & H8 & H9 & _).
  split; [|split].
  - apply (H4 0 (world_of ∅ (engine_ok []) NoFault Missing)). vm_compute. lia.
  - apply (H8 true AtWhile (world_of ∅ (engine_ok []) NoFault Missing) Exited
             (add_stdout LogLoopStopped (world_of ∅ (engine_ok []) NoFault Missing))).
    reflexivity.
  - apply (H9 false AtScheduledRefresh
             (world_of credentials (engine_ok [youtube_cookie]) NoFault Missing)).
    vm_compute. reflexivity.
Defined.

(** ** The scheduler *)

Lemma loop_refresh_grows w l p w' : loop_refresh w = (l, p, w') → grows w w'.
Proof.
  unfold loop_refresh.
  destruct (refresh_cookies w) as [[ok|e] w1] eqn:E; intros [= _ _ <-];
    by eapply refresh_cookies_grows.
Qed.

Lemma loop_step_grows stop p w l p' w' :
  loop_step stop p w = Some (l, p', w') → grows w w'.
Proof.
  destruct p; cbn [loop_step].
  - intros [= E%loop_refresh_grows].
    eapply grows_trans; [|exact E]. by apply grows_same_trace.
  - destruct stop; intros [= _ _ <-]; [by apply grows_same_trace | apply grows_refl].
  - repeat case_match; intros [= _ _ <-]; apply grows_refl.
  - intros [= _ _ <-]. apply grows_add_trace.
  - destruct stop; intros [= _ _ <-]; apply grows_refl.
  - intros [= E%loop_refresh_grows].
    eapply grows_trans; [|exact E]. by apply grows_same_trace.
  - done.
Qed.

(** What a step of thread [t] changes: the place of thread [t] and the
    world, nothing else. *)
Lemma thread_step_spec t P l P' :
  thread_step t P = Some (l, P') →
  ∃ p p',
    threads P !! t = Some p
    ∧ loop_step (_stop_refresh P) p (world P) = Some (l, p', world P')
    ∧ threads P' = <[t := p']> (threads P)
    ∧ _refresh_thread P' = _refresh_thread P
    ∧ _stop_refresh P' = _stop_refresh P.
Proof.
  unfold thread_step. destruct (threads P !! t) as [p|] eqn:Ep; [|done].
  cbn [mbind option_bind].
  destruct (loop_step (_stop_refresh P) p (world P)) as [[[l0 p'] w']|] eqn:El; [|done].
  cbn [mbind option_bind]. intros [= <- <-]. by exists p, p'.
Qed.

Lemma thread_step_alive t P l P' t' :
  thread_step t P = Some (l, P') →
  is_alive P' t' = true → is_alive P t' = true.
Proof.
  intros (p & p' & Ep & El & Et & _)%thread_step_spec. unfold is_alive.
  rewrite Et. destruct (decide (t' = t)) as [->|Hne].
  - rewrite Ep. intros _. by destruct p.
  - by rewrite list_lookup_insert_ne.
Qed.

Lemma run_thread_spec n t P :
  _refresh_thread (run_thread n t P).2 = _refresh_thread P
  ∧ _stop_refresh (run_thread n t P).2 = _stop_refresh P
  ∧ grows (world P) (world (run_thread n t P).2)
  ∧ ∀ t', is_alive (run_thread n t P).2 t' = true → is_alive P t' = true.
Proof.
  revert P. induction n as [|n IH]; intros P; cbn [run_thread].
  { cbn [snd]. repeat split; [apply grows_refl | done]. }
  destruct (thread_step t P) as [[l P']|] eqn:E.
  2:{ cbn [snd]. repeat split; [apply grows_refl | done]. }
  destruct (IH P') as (I1 & I2 & I3 & I4).
  destruct (run_thread n t P') as [ls P''] eqn:Er. cbn [snd] in *.
  pose proof (λ t', thread_step_alive _ _ _ _ t' E) as Ha.
  apply thread_step_spec in E as (p & p' & Ep & El & Et & E1 & E2).
  split; [congruence|]. split; [congruence|]. split.
  - eapply grows_trans; [eapply loop_step_grows; exact El | done].
  - intros t' H. by apply Ha, I4.
Qed.

Lemma start_spawns_or_keeps P :
  (∃ t, _refresh_thread P = Some t ∧ is_alive P t = true
        ∧ start_cookie_refresh_loop P
          = mkProcess (_refresh_thread P) (_stop_refresh P) (threads P)
              (add_stdout LogLoopAlreadyRunning (world P)))
  ∨ ((∀ t, _refresh_thread P = Some t → is_alive P t = false)
     ∧ start_cookie_refresh_loop P
       = mkProcess (Some (length (threads P))) false
           (threads P ++ [AtInitialRefresh])
           (add_stdout LogLoopStarted (world P))).
Proof.
  unfold start_cookie_refresh_loop.
  destruct (_refresh_thread P) as [t|].
  - destruct (is_alive P t) eqn:Ha.
    + left. by exists t.
    + right. split; [by intros ? [= <-] | done].
  - right. by split.
Qed.

Lemma single_worker_start P :
  single_worker P → single_worker (start_cookie_refresh_loop P).
Proof.
  intros HP. destruct (start_spawns_or_keeps P) as [(t & Et & Ha & ->) | [Hd ->]].
  - exact HP.
  - intros t Ha. unfold is_alive in Ha. cbn [threads] in Ha. cbn [_refresh_thread].
    destruct (decide (t < length (threads P))) as [Hlt|Hge].
    + rewrite lookup_app_l in Ha by done.
      assert (is_alive P t = true) as Ha' by exact Ha.
      pose proof (HP t Ha') as Et. by rewrite (Hd t Et) in Ha'.
    + destruct (decide (t = length (threads P))) as [->|Hne]; [done|].
      rewrite lookup_ge_None_2 in Ha; [done|]. rewrite length_app. cbn. lia.
Qed.

Lemma single_worker_run_thread n t P :
  single_worker P → single_worker (run_thread n t P).2.
Proof.
  intros HP t' Ha. destruct (run_thread_spec n t P) as (E1 & _ & _ & H).
  rewrite E1. by apply HP, H.
Qed.

Lemma stop_spec n P :
  (_refresh_thread P = None
   ∧ stop_cookie_refresh_loop n P = mkProcess None true (threads P) (world P))
  ∨ ∃ t P3,
      _refresh_thread P = Some t
      ∧ P3 = (run_thread n t
                (mkProcess (Some t) true (threads P)
                   (add_trace (EvJoin t 5) (world P)))).2
      ∧ stop_cookie_refresh_loop n P
        = mkProcess (_refresh_thread P3) (_stop_refresh P3) (threads P3)
            (add_stdout LogStopped (world P3)).
Proof.
  unfold stop_cookie_refresh_loop. cbn [_refresh_thread].
  destruct (_refresh_thread P) as [t|].
  - right. by eexists t, _.
  - by left.
Qed.

Lemma single_worker_stop n P :
  single_worker P → single_worker (stop_cookie_refresh_loop n P).
Proof.
  intros HP. destruct (stop_spec n P) as [[Et ->] | (t & P3 & Et & E3 & ->)].
  - intros t' Ha. specialize (HP t' Ha). congruence.
  - assert (single_worker P3) as H3.
    { rewrite E3. apply single_worker_run_thread.
      intros t' Ha. specialize (HP t' Ha). cbn [_refresh_thread]. congruence. }
    exact H3.
Qed.

Lemma reachable_single_worker P : reachable P → single_worker P.
Proof.
  induction 1 as [w | P P' _ IH Hs].
  - by intros t.
  - destruct Hs as [P | n P | t l P P' Hs | w' P].
    + by apply single_worker_start.
    + by apply single_worker_stop.
    + intros t' Ha. apply thread_step_alive with (t' := t') in Hs as Ha'; [|done].
      apply thread_step_spec in Hs as (_ & _ & _ & _ & _ & -> & _). by apply IH.
    + exact IH.
Qed.

Lemma filter_alive_none (l : list pc) :
  (∀ i p, l !! i = Some p → pc_alive p = false) →
  filter (λ p, pc_alive p = true) l = [].
Proof.
  induction l as [|x l IH]; intros H; [done|].
  rewrite filter_cons_False by (by rewrite (H 0 x eq_refl)).
  apply IH. intros i p Hi. by apply (H (S i)).
Qed.

(** With at most the thread [t] running, the running workers are counted
    by whether [t] runs. *)
Lemma count_alive_at (l : list pc) t :
  (∀ i p, l !! i = Some p → pc_alive p = true → i = t) →
  length (filter (λ p, pc_alive p = true) l)
  = match l !! t with
    | Some p => if pc_alive p then 1 else 0
    | None => 0
    end.
Proof.
  revert t. induction l as [|x l IH]; intros t H; [done|].
  destruct t as [|t].
  - cbn [lookup list_lookup].
    assert (filter (λ p, pc_alive p = true) l = []) as El.
    { apply filter_alive_none. intros i p Hi.
      destruct (pc_alive p) eqn:Hp; [|done]. by specialize (H (S i) p Hi Hp). }
    destruct (pc_alive x) eqn:Hx.
    + rewrite filter_cons_True by done. by rewrite El.
    + rewrite filter_cons_False by (by rewrite Hx). by rewrite El.
  - assert (pc_alive x = false) as Hx.
    { destruct (pc_alive x) eqn:Hx; [|done]. by specialize (H 0 x eq_refl Hx). }
    rewrite filter_cons_False by (by rewrite Hx). cbn [lookup list_lookup].
    apply IH. intros i p Hi Hp. specialize (H (S i) p Hi Hp). lia.
Qed.

Lemma active_workers_single P t :
  single_worker P → _refresh_thread P = Some t →
  active_workers P = if is_alive P t then 1 else 0.
Proof.
  intros HP Et. unfold active_workers, is_alive.
  rewrite (count_alive_at (threads P) t).
  - by destruct (threads P !! t).
  - intros i p Hi Hp. specialize (HP i). unfold is_alive in HP.
    rewrite Hi in HP. specialize (HP Hp). congruence.
Qed.

Lemma start_runs_a_worker P :
  ∃ t, _refresh_thread (start_cookie_refresh_loop P) = Some t
       ∧ is_alive (start_cookie_refresh_loop P) t = true.
Proof.
  destruct (start_spawns_or_keeps P) as [(t & Et & Ha & ->) | [Hd ->]].
  - by exists t.
  - exists (length (threads P)). split; [done|]. unfold is_alive. cbn [threads].
    by rewrite lookup_app_r, Nat.sub_diag.
Qed.

Lemma active_workers_start P :
  single_worker P → active_workers (start_cookie_refresh_loop P) = 1.
Proof.
  intros HP. destruct (start_runs_a_worker P) as (t & Et & Ha).
  rewrite (active_workers_single _ t); [by rewrite Ha | by apply single_worker_start | done].
Qed.

(** *** After the flag is up *)

Lemma thread_step_at t P p :
  threads P !! t = Some p →
  thread_step t P
  = match loop_step (_stop_refresh P) p (world P) with
    | Some (l, p', w') =>
      Some (l, mkProcess (_refresh_thread P) (_stop_refresh P)
                 (<[t := p']> (threads P)) w')
    | None => None
    end.
Proof.
  intros Ep. unfold thread_step. rewrite Ep. cbn [mbind option_bind].
  by destruct (loop_step _ _ _) as [[[l p'] w']|].
Qed.

(** A step with the flag up: no refresh unless the worker was committed to
    it, the worker is not committed afterwards, and it is one step nearer
    to its exit. *)
Lemma loop_step_flag_up p w l p' w' :
  loop_step true p w = Some (l, p', w') →
  (¬ committed p → is_refresh l = false)
  ∧ ¬ committed p'
  ∧ S (steps_to_exit p') = steps_to_exit p.
Proof.
  destruct p; cbn [loop_step];
    try match goal with
        | |- context [loop_refresh ?x] =>
          destruct (loop_refresh_continues x) as (ok & w1 & ->)
        end;
    repeat case_match; intros [= ? ? ?]; subst;
    (split; [unfold committed; intuition discriminate|]);
    (split; [unfold committed; intuition discriminate | done]).
Qed.

Lemma run_thread_flag_up k t P p :
  _stop_refresh P = true → threads P !! t = Some p →
  (¬ committed p → Forall (λ l, is_refresh l = false) (run_thread k t P).1)
  ∧ Forall (λ l, is_refresh l = false) (tail (run_thread k t P).1)
  ∧ (steps_to_exit p ≤ k → is_alive (run_thread k t P).2 t = false).
Proof.
  revert P p. induction k as [|k IH]; intros P p Hflag Ep.
  { cbn [run_thread fst snd tail]. split; [done|]. split; [done|].
    intros Hk. unfold is_alive. rewrite Ep. destruct p; cbn in Hk; try lia. done. }
  cbn [run_thread]. rewrite (thread_step_at _ _ _ Ep), Hflag.
  destruct (loop_step true p (world P)) as [[[l p'] w']|] eqn:El.
  2:{ cbn [fst snd tail]. split; [done|]. split; [done|]. intros _.
      unfold is_alive. rewrite Ep.
      destruct p; cbn [loop_step] in El; repeat case_match; done. }
  destruct (loop_step_flag_up _ _ _ _ _ El) as (Hl & Hc & Hs).
  set (P' := mkProcess _ _ _ _).
  assert (threads P' !! t = Some p') as Ep'.
  { cbn [threads]. apply list_lookup_insert_eq. by eapply lookup_lt_Some. }
  destruct (IH P' p' eq_refl Ep') as (I1 & I2 & I3).
  destruct (run_thread k t P') as [ls P''] eqn:Er. cbn [fst snd tail] in *.
  split; [|split].
  - intros Hn. constructor; [by apply Hl | by apply I1].
  - by apply I1.
  - intros Hk. apply I3. lia.
Qed.

Lemma active_workers_at_most_one P : single_worker P → active_workers P ≤ 1.
Proof.
  intros HP. destruct (_refresh_thread P) as [t|] eqn:Et.
  - rewrite (active_workers_single P t HP Et). destruct (is_alive P t); lia.
  - unfold active_workers. rewrite filter_alive_none; [cbn; lia|].
    intros i p Hi. destruct (pc_alive p) eqn:Hp; [|done].
    specialize (HP i). unfold is_alive in HP. rewrite Hi in HP.
    specialize (HP Hp). congruence.
Qed.

Lemma run_thread_after_flag k t P :
  _stop_refresh P = true →
  Forall (λ l, is_refresh l = false) (tail (run_thread k t P).1)
  ∧ (∀ p, threads P !! t = Some p → ¬ committed p →
       Forall (λ l, is_refresh l = false) (run_thread k t P).1)
  ∧ (4 ≤ k → is_alive (run_thread k t P).2 t = false).
Proof.
  intros Hflag. destruct (threads P !! t) as [p|] eqn:Ep.
  - destruct (run_thread_flag_up k t P p Hflag Ep) as (H1 & H2 & H3).
    split; [done|]. split; [by intros ? [= <-]|].
    intros Hk. apply H3. destruct p; cbn; lia.
  - assert (thread_step t P = None) as Es by (unfold thread_step; by rewrite Ep).
    assert (run_thread k t P = ([], P)) as ->.
    { destruct k; [done|]. cbn [run_thread]. by rewrite Es. }
    cbn [fst snd tail]. split; [done|]. split; [done|]. intros _.
    unfold is_alive. by rewrite Ep.
Qed.

Lemma stop_after_start_joins n P :
  ∃ t, _refresh_thread (start_cookie_refresh_loop P) = Some t
       ∧ _stop_refresh (stop_cookie_refresh_loop n (start_cookie_refresh_loop P)) = true
       ∧ EvJoin t 5
         ∈ trace (world (stop_cookie_refresh_loop n (start_cookie_refresh_loop P))).
Proof.
  destruct (start_runs_a_worker P) as (t & Et & _). exists t. split; [done|].
  destruct (stop_spec n (start_cookie_refresh_loop P))
    as [[En _] | (t' & P3 & Et' & E3 & ->)]; [congruence|].
  assert (t' = t) as -> by congruence.
  cbn [_stop_refresh world].
  destruct (run_thread_spec n t
              (mkProcess (Some t) true (threads (start_cookie_refresh_loop P))
                 (add_trace (EvJoin t 5) (world (start_cookie_refresh_loop P)))))
    as (_ & Hs & [evs Hg] & _).
  rewrite <- E3 in Hs, Hg. split; [exact Hs|].
  cbn [trace add_stdout]. rewrite Hg. cbn [world trace add_trace].
  apply elem_of_app. left. apply elem_of_app. right. by apply list_elem_of_singleton.
Qed.

Lemma reachable_run_thread k t P : reachable P → reachable (run_thread k t P).2.
Proof.
  revert P. induction k as [|k IH]; intros P HP; [done|]. cbn [run_thread].
  destruct (thread_step t P) as [[l P']|] eqn:E; [|done].
  assert (reachable P') as HP' by (eapply reachable_step; [exact HP | by econstructor]).
  specialize (IH P' HP'). by destruct (run_thread k t P').
Qed.

(** With the flag up, where a worker stands after [n] steps: it has no
    refresh ahead of it unless it took no step and had one ahead before,
    and every step has brought it nearer to the exit. *)
Lemma run_thread_flag_up_pc n t P p :
  _stop_refresh P = true → threads P !! t = Some p →
  ∃ p', threads (run_thread n t P).2 !! t = Some p'
        ∧ (1 ≤ n ∨ ¬ committed p → ¬ committed p')
        ∧ steps_to_exit p' ≤ steps_to_exit p - n.
Proof.
  revert P p. induction n as [|n IH]; intros P p Hflag Ep.
  { exists p. split; [done|]. split; [|cbn; lia]. intros [?|?]; [lia | done]. }
  cbn [run_thread]. rewrite (thread_step_at _ _ _ Ep), Hflag.
  destruct (loop_step true p (world P)) as [[[l p1] w1]|] eqn:El.
  2:{ exists p. cbn [snd]. split; [done|].
      assert (p = Finished) as -> by (by destruct p; cbn in El; repeat case_match).
      split; [by intros _ [|] | cbn; lia]. }
  destruct (loop_step_flag_up _ _ _ _ _ El) as (_ & Hc & Hs).
  set (P' := mkProcess _ _ _ _).
  assert (threads P' !! t = Some p1) as Ep'.
  { cbn [threads]. apply list_lookup_insert_eq. by eapply lookup_lt_Some. }
  destruct (IH P' p1 eq_refl Ep') as (p' & E' & Hc' & Hs').
  destruct (run_thread n t P') as [ls P''] eqn:Er. cbn [fst snd] in *.
  exists p'. split; [done|]. split; [intros _; apply Hc'; by right | lia].
Qed.

(** After [stop] has returned: the flag is up, the join has been made, and
    the worker stands where its steps during the join have taken it. *)
Lemma stop_leaves_worker n P t p :
  _refresh_thread P = Some t → threads P !! t = Some p →
  _stop_refresh (stop_cookie_refresh_loop n P) = true
  ∧ EvJoin t 5 ∈ trace (world (stop_cookie_refresh_loop n P))
  ∧ ∃ p', threads (stop_cookie_refresh_loop n P) !! t = Some p'
          ∧ (1 ≤ n ∨ ¬ committed p → ¬ committed p')
          ∧ steps_to_exit p' ≤ steps_to_exit p - n.
Proof.
  intros Et Ep.
  destruct (stop_spec n P) as [[En _] | (t' & P3 & Et' & E3 & ->)]; [congruence|].
  assert (t' = t) as -> by congruence.
  set (P2 := mkProcess (Some t) true (threads P) (add_trace (EvJoin t 5) (world P)))
    in E3.
  destruct (run_thread_spec n t P2) as (_ & Hs & [evs Hg] & _).
  destruct (run_thread_flag_up_pc n t P2 p eq_refl Ep) as (p' & Ep' & Hp').
  rewrite <- E3 in Hs, Hg, Ep'. cbn [_stop_refresh threads world].
  split; [exact Hs|]. split; [|by exists p'].
  cbn [trace add_stdout]. rewrite Hg. cbn [world trace add_trace].
  apply elem_of_app. left. apply elem_of_app. right. by apply list_elem_of_singleton.
Qed.

(** A worker that has passed its last test of the flag when [stop] is
    called, and that takes no step while [stop] waits for it, begins its
    refresh after [stop] has returned. *)
Lemma stop_returns_before_scheduled_refresh :
  let P := (run_thread 1444 0
              (start_cookie_refresh_loop
                 (initial (world_of credentials (engine_ok [youtube_cookie])
                             NoFault Missing)))).2 in
  let Q := stop_cookie_refresh_loop 0 P in
  reachable P
  ∧ _refresh_thread P = Some 0
  ∧ threads P = [AtScheduledRefresh]
  ∧ _stop_refresh Q = true
  ∧ last (trace (world Q)) = Some (EvJoin 0 5)
  ∧ last (stdout (world Q)) = Some LogStopped
  ∧ fst <$> thread_step 0 Q = Some (Refreshed true).
Proof.
  cbv zeta. split.
  { apply reachable_run_thread.
    eapply reachable_step; [apply reachable_initial | constructor]. }
  split; [vm_compute; reflexivity|]. split; [vm_compute; reflexivity|].
  split; [vm_compute; reflexivity|]. split; [vm_compute; reflexivity|].
  split; vm_compute; reflexivity.
Qed.

(** C5 (amended): in every reachable state a call of [start] leaves exactly
    one running worker, a second call right after it as well and without a
    new thread, and a call while the worker runs changes nothing but the
    output; there is never more than one running worker; [stop] on a
    process that was never started only raises the flag; [stop] on a
    process with a worker raises the flag and joins the worker with a
    timeout of five seconds.  When [stop] has returned, the worker begins
    no further refresh if it took at least one step while [stop] waited or
    had not yet passed its last test of the flag, and it is gone once it
    has taken four steps since the flag went up.  In general, once the
    flag is up a worker refreshes at most once more, as its very next step
    and only if it had passed its last test of the flag. *)
Theorem scheduler_start_stop :
  (∀ P, reachable P →
     active_workers (start_cookie_refresh_loop P) = 1
     ∧ active_workers (start_cookie_refresh_loop (start_cookie_refresh_loop P)) = 1
     ∧ threads (start_cookie_refresh_loop (start_cookie_refresh_loop P))
       = threads (start_cookie_refresh_loop P)
     ∧ (∀ t, _refresh_thread P = Some t → is_alive P t = true →
          start_cookie_refresh_loop P
          = mkProcess (_refresh_thread P) (_stop_refresh P) (threads P)
              (add_stdout LogLoopAlreadyRunning (world P))))
  ∧ (∀ P, reachable P → active_workers P ≤ 1)
  ∧ (∀ w n, stop_cookie_refresh_loop n (initial w) = mkProcess None true [] w)
  ∧ (∀ P n, reachable P →
       ∃ t, _refresh_thread (start_cookie_refresh_loop P) = Some t
            ∧ _stop_refresh (stop_cookie_refresh_loop n (start_cookie_refresh_loop P))
              = true
            ∧ EvJoin t 5
              ∈ trace (world (stop_cookie_refresh_loop n (start_cookie_refresh_loop P))))
  ∧ (∀ P n t p,
       _refresh_thread P = Some t → threads P !! t = Some p →
       _stop_refresh (stop_cookie_refresh_loop n P) = true
       ∧ EvJoin t 5 ∈ trace (world (stop_cookie_refresh_loop n P))
       ∧ (1 ≤ n ∨ ¬ committed p →
          ∀ k, Forall (λ l, is_refresh l = false)
                 (run_thread k t (stop_cookie_refresh_loop n P)).1)
       ∧ (∀ k, 4 ≤ n + k →
            is_alive (run_thread k t (stop_cookie_refresh_loop n P)).2 t = false))
  ∧ (∀ P t k, _stop_refresh P = true →
       Forall (λ l, is_refresh l = false) (tail (run_thread k t P).1)
       ∧ (∀ p, threads P !! t = Some p → ¬ committed p →
            Forall (λ l, is_refresh l = false) (run_thread k t P).1)
       ∧ (4 ≤ k → is_alive (run_thread k t P).2 t = false)).
Proof.
  split; [|split; [|split; [|split; [|split]]]].
  - intros P HP%reachable_single_worker.
    pose proof (single_worker_start P HP) as HP'.
    split; [by apply active_workers_start|].
    split; [by apply active_workers_start|]. split.
    + destruct (start_runs_a_worker P) as (t & Et & Ha).
      destruct (start_spawns_or_keeps (start_cookie_refresh_loop P))
        as [(t' & _ & _ & ->) | [Hd _]]; [done|].
      by rewrite (Hd t Et) in Ha.
    + intros t Et Ha.
      destruct (start_spawns_or_keeps P) as [(t' & _ & _ & ->) | [Hd _]]; [done|].
      by rewrite (Hd t Et) in Ha.
  - intros P HP%reachable_single_worker. by apply active_workers_at_most_one.
  - done.
  - intros P n _. apply stop_after_start_joins.
  - intros P n t p Et Ep.
    destruct (stop_leaves_worker n P t p Et Ep) as (Hf & Hj & p' & Ep' & Hc & Hs).
    split; [exact Hf|]. split; [exact Hj|]. split.
    + intros Hn k.
      destruct (run_thread_flag_up k t _ p' Hf Ep') as (H1 & _). by apply H1, Hc.
    + intros k Hk.
      destruct (run_thread_flag_up k t _ p' Hf Ep') as (_ & _ & H3). apply H3.
      assert (steps_to_exit p ≤ 4) by (destruct p; cbn; lia). lia.
  - intros P t k. apply run_thread_after_flag.
Qed.

Lemma scheduler_start_stop_witness :
  active_workers
    (start_cookie_refresh_loop
       (start_cookie_refresh_loop (initial (world_of ∅ (engine_ok []) NoFault Missing))))
  = 1
  ∧ active_workers (initial (world_of ∅ (engine_ok []) NoFault Missing)) ≤ 1
  ∧ (∀ k, Forall (λ l, is_refresh l = false)
            (run_thread k 0
               (stop_cookie_refresh_loop 1
                  (mkProcess (Some 0) false [AtScheduledRefresh]
                     (world_of ∅ (engine_ok []) NoFault Missing)))).1)
  ∧ (∀ k, 4 ≤ 0 + k →
       is_alive
         (run_thread k 0
            (stop_cookie_refresh_loop 0
               (mkProcess (Some 0) false [AtSleep 7]
                  (world_of ∅ (engine_ok []) NoFault Missing)))).2 0
       = false)
  ∧ (4 ≤ 4 →
     is_alive
       (run_thread 4 0
          (stop_cookie_refresh_loop 0
             (start_cookie_refresh_loop
                (initial (world_of ∅ (engine_ok []) NoFault Missing))))).2 0
     = false).
Proof.
  destruct scheduler_start_stop as (H1 & H2 & _ & _ & H5 & H6).
  split; [|split; [|split; [|split]]].
  - apply (H1 (initial (world_of ∅ (engine_ok []) NoFault Missing))).
    apply reachable_initial.
  - apply (H2 (initial (world_of ∅ (engine_ok []) NoFault Missing))).
    apply reachable_initial.
  - destruct (H5 (mkProcess (Some 0) false [AtScheduledRefresh]
                    (world_of ∅ (engine_ok []) NoFault Missing))
                1 0 AtScheduledRefresh eq_refl eq_refl) as (_ & _ & H & _).
    apply H. left. lia.
  - destruct (H5 (mkProcess (Some 0) false [AtSleep 7]
                    (world_of ∅ (engine_ok []) NoFault Missing))
                0 0 (AtSleep 7) eq_refl eq_refl) as (_ & _ & _ & H).
    exact H.
  - apply (H6 (stop_cookie_refresh_loop 0
                 (start_cookie_refresh_loop
                    (initial (world_of ∅ (engine_ok []) NoFault Missing)))) 0 4).
    reflexivity.
Defined.


(** ** The fuel of the decoder is enough *)

Lemma skip_ws_length s : String.length (Json.skip_ws s) ≤ String.length s.
Proof.
  induction s as [|c s IH]; cbn [Json.skip_ws]; [done|].
  destruct (Json.is_ws c); cbn [String.length]; lia.
Qed.

Lemma strip_prefix_length p s r :
  Json.strip_prefix p s = Some r →
  String.length s = String.length p + String.length r.
Proof.
  revert s. induction p as [|a p IH]; intros s; cbn [Json.strip_prefix].
  - by intros [= ->].
  - destruct s as [|b s]; [done|]. destruct (Ascii.eqb a b); [|done].
    intros H%IH. cbn [String.length]. lia.
Qed.

Lemma keyword_length p v s v' r :
  p ≠ EmptyString → Json.keyword p v s = Some (v', r) →
  String.length r < String.length s.
Proof.
  intros Hp. unfold Json.keyword.
  destruct (Json.strip_prefix p s) as [r'|] eqn:E; [|done].
  cbn [mbind option_bind]. intros [= _ <-].
  apply strip_prefix_length in E. destruct p; [done|]. cbn [String.length] in E. lia.
Qed.

Lemma span_digits_length s :
  String.length (Json.span_digits s).2 ≤ String.length s.
Proof.
  induction s as [|c s IH]; cbn [Json.span_digits]; [done|].
  destruct (Json.is_digit c); [|done].
  destruct (Json.span_digits s) as [ds r]. cbn [snd String.length] in *. lia.
Qed.

Lemma match_integer_length s lex r :
  Json.match_integer s = Some (lex, r) → String.length r < String.length s.
Proof.
  unfold Json.match_integer.
  assert (∀ t, match t with
               | EmptyString => None
               | String c r' =>
                 if Ascii.eqb c "0" then Some (r')
                 else if Json.is_digit c then Some (Json.span_digits r').2
                 else None
               end = Some r → String.length r < String.length t) as Haux.
  { intros [|c t]; [done|]. destruct (Ascii.eqb c "0").
    - intros [= ->]. cbn. lia.
    - destruct (Json.is_digit c); [|done]. intros [= <-].
      pose proof (span_digits_length t). cbn [String.length]. lia. }
  destruct s as [|c s]; [done|].
  destruct (Ascii.eqb_spec c "-") as [->|Hc].
  - cbn [fst snd]. intros H. cbn [String.length].
    enough (String.length r < String.length s) by lia. apply Haux.
    destruct s as [|d s]; [done|]. destruct (Ascii.eqb d "0"); [by injection H as _ ->|].
    destruct (Json.is_digit d); [|done]. destruct (Json.span_digits s).
    by injection H as _ ->.
  - assert ((let '(sign, r0) :=
               match String c s with
               | String "-"%char r0 => ("-", r0)
               | _ => (EmptyString, String c s)
               end in
             match r0 with
             | EmptyString => None
             | String c0 r' =>
               if Ascii.eqb c0 "0" then Some (sign +:+ "0", r')
               else if Json.is_digit c0 then
                 let '(ds, r'') := Json.span_digits r' in Some (sign +:+ String c0 ds, r'')
               else None
             end)
            = (if Ascii.eqb c "0" then Some ("0", s)
               else if Json.is_digit c then
                 let '(ds, r'') := Json.span_digits s in Some (String c ds, r'')
               else None)) as ->.
    { destruct c as [[] [] [] [] [] [] [] []]; try reflexivity. by destruct Hc. }
    intros H. apply (Haux (String c s)).
    destruct (Ascii.eqb c "0"); [by injection H as _ ->|].
    destruct (Json.is_digit c); [|done]. destruct (Json.span_digits s).
    by injection H as _ ->.
Qed.

Lemma match_frac_length s :
  String.length (Json.match_frac s).2 ≤ String.length s.
Proof.
  unfold Json.match_frac. destruct s as [|c s]; [done|].
  destruct (Ascii.eqb_spec c ".") as [->|Hc].
  - pose proof (span_digits_length s).
    destruct (Json.span_digits s) as [[|d ds] r]; cbn [snd String.length] in *; lia.
  - destruct c as [[] [] [] [] [] [] [] []]; done.
Qed.

Lemma match_exp_length s :
  String.length (Json.match_exp s).2 ≤ String.length s.
Proof.
  unfold Json.match_exp. destruct s as [|e s]; [done|].
  destruct (Ascii.eqb e "e" || Ascii.eqb e "E"); [|done].
  assert (∀ sign r1, String.length r1 ≤ String.length s →
            String.length
              (match Json.span_digits r1 with
               | (String d ds, r') => (String e (sign +:+ String d ds), r')
               | _ => (EmptyString, String e s)
               end).2 ≤ String.length (String e s)) as Haux.
  { intros sign r1 Hr1. pose proof (span_digits_length r1).
    destruct (Json.span_digits r1) as [[|d ds] r]; cbn [snd String.length] in *; lia. }
  destruct s as [|c s]; [apply (Haux EmptyString); done|].
  destruct (Ascii.eqb_spec c "+") as [->|Hp];
    [apply (Haux "+"); cbn; lia|].
  destruct (Ascii.eqb_spec c "-") as [->|Hm];
    [apply (Haux "-"); cbn; lia|].
  assert (match String c s with
          | String "+"%char r1 => ("+", r1)
          | String "-"%char r1 => ("-", r1)
          | _ => (EmptyString, String c s)
          end = (EmptyString, String c s)) as ->.
  { destruct c as [[] [] [] [] [] [] [] []]; try reflexivity;
      [by destruct Hm | by destruct Hp]. }
  by apply (Haux EmptyString).
Qed.

Lemma match_number_length s lex r :
  Json.match_number s = Some (lex, r) → String.length r < String.length s.
Proof.
  unfold Json.match_number.
  destruct (Json.match_integer s) as [[i r1]|] eqn:Ei; [|done].
  cbn [mbind option_bind].
  pose proof (match_integer_length _ _ _ Ei).
  pose proof (match_frac_length r1).
  destruct (Json.match_frac r1) as [frac r2]. cbn [snd] in *.
  pose proof (match_exp_length r2).
  destruct (Json.match_exp r2) as [exp r3]. cbn [snd] in *.
  intros [= _ <-]. lia.
Qed.

Lemma fmap_cons_fst_Some (a : N) (x : option (list N * string)) l r :
  Json.cons_fst a <$> x = Some (l, r) → ∃ l', x = Some (l', r).
Proof. destruct x as [[l' r']|]; [|done]. intros [= _ <-]. by exists l'. Qed.

Lemma scanstring_length_aux n s l r :
  String.length s ≤ n →
  Json.scanstring s = Some (l, r) → String.length r < String.length s.
Proof.
  revert s l r. induction n as [|n IH]; intros s l r Hn.
  { destruct s; [done | cbn in Hn; lia]. }
  destruct s as [|c s]; [done|]. cbn [Json.scanstring].
  destruct (Ascii.eqb c Json.dquote); [intros [= _ <-]; cbn; lia|].
  assert (∀ a t, String.length t ≤ n →
            Json.cons_fst a <$> Json.scanstring t = Some (l, r) →
            String.length r < String.length t) as Hrec.
  { intros a t Ht (l' & E)%fmap_cons_fst_Some. by eapply IH. }
  cbn [String.length] in Hn.
  destruct (Ascii.eqb c Json.backslash).
  2:{ destruct (Json.code c <? 32)%N; [done|]. intros H%Hrec; [|lia].
      cbn [String.length]. lia. }
  destruct s as [|e r1]; [done|].
  destruct (Ascii.eqb e "u").
  2:{ destruct (Json.simple_escape e); [|done]. intros H%Hrec.
      - cbn [String.length]. lia.
      - cbn [String.length] in Hn. lia. }
  destruct r1 as [|h1 [|h2 [|h3 [|h4 r2]]]]; try done.
  destruct (Json.decode_uXXXX h1 h2 h3 h4) as [uni|]; [|done].
  cbn [String.length] in Hn |- *.
  assert (Json.cons_fst uni <$> Json.scanstring r2 = Some (l, r) →
          String.length r < S (S (S (S (S (S (String.length r2))))))) as Hlone.
  { intros H%Hrec; lia. }
  destruct r2 as [|b2 [|u2 r3]]; try exact Hlone.
  destruct (Json.is_high_surrogate uni && Ascii.eqb b2 Json.backslash
            && Ascii.eqb u2 "u"); [|exact Hlone].
  destruct r3 as [|k1 [|k2 [|k3 [|k4 r4]]]]; try done.
  destruct (Json.decode_uXXXX k1 k2 k3 k4) as [uni2|]; [|done].
  destruct (Json.is_low_surrogate uni2); [|exact Hlone].
  cbn [String.length] in Hn |- *. intros H%Hrec; lia.
Qed.

Lemma scanstring_length s l r :
  Json.scanstring s = Some (l, r) → String.length r < String.length s.
Proof. by apply (scanstring_length_aux (String.length s)). Qed.

Lemma fuel_enough_S {A : Type} (f : nat → string → option (A * string)) s x r :
  (String.length r < String.length s ∧
   ∀ n, 2 * (String.length s - String.length r) ≤ S n → f (S n) s = Some (x, r)) →
  String.length r < String.length s ∧
  ∀ n, 2 * (String.length s - String.length r) ≤ n → f n s = Some (x, r).
Proof.
  intros [Hlt H]. split; [done|]. intros [|n] Hn; [lia|]. by apply H.
Qed.

Lemma decoder_fuel_enough m :
  fuel_enough Json.scan_once m ∧ fuel_enough Json.array_loop m ∧
  fuel_enough Json.object_loop m.
Proof.
  induction m as [|m (IHs & IHa & IHo)]; [by repeat split|].
  split; [|split].
  - intros s v r H. apply fuel_enough_S. cbn [Json.scan_once] in H |- *.
    destruct s as [|c s0]; [done|]. cbn [String.length].
    assert (∀ p v0, p ≠ EmptyString →
              Json.keyword p v0 (String c s0) = Some (v, r) →
              String.length r < S (String.length s0) ∧
              (∀ n : nat, 2 * (S (String.length s0) - String.length r) ≤ S n →
                 Json.keyword p v0 (String c s0) = Some (v, r))) as Hkw.
    { intros p v0 Hp Hk. by apply keyword_length in Hk as Hl. }
    destruct (Ascii.eqb c Json.dquote).
    { destruct (Json.scanstring s0) as [[str r']|] eqn:E; [|done].
      cbn [mbind option_bind] in H |- *. injection H as <- <-.
      apply scanstring_length in E. split; [lia | done]. }
    destruct (Ascii.eqb c "{").
    { pose proof (skip_ws_length s0) as Hws.
      destruct (Json.skip_ws s0) as [|c1 r1]; [done|]. cbn [String.length] in Hws.
      destruct (Ascii.eqb c1 "}"); [injection H as <- <-; split; [lia | done]|].
      destruct (Ascii.eqb c1 Json.dquote); [|done].
      destruct (Json.object_loop m r1) as [[pairs r2]|] eqn:E; [|done].
      cbn [mbind option_bind] in H. injection H as <- <-.
      apply IHo in E as [Hlt Hn]. split; [lia|].
      intros n Hle. rewrite Hn; [done | lia]. }
    destruct (Ascii.eqb c "[").
    { pose proof (skip_ws_length s0) as Hws.
      destruct (Json.skip_ws s0) as [|c1 r1]; [done|]. cbn [String.length] in Hws.
      destruct (Ascii.eqb c1 "]"); [injection H as <- <-; split; [lia | done]|].
      destruct (Json.array_loop m (String c1 r1)) as [[items r2]|] eqn:E; [|done].
      cbn [mbind option_bind] in H. injection H as <- <-.
      apply IHa in E as [Hlt Hn]. cbn [String.length] in Hlt, Hn. split; [lia|].
      intros n Hle. rewrite Hn; [done | lia]. }
    destruct (Ascii.eqb c "n"); [by apply Hkw in H|].
    destruct (Ascii.eqb c "t"); [by apply Hkw in H|].
    destruct (Ascii.eqb c "f"); [by apply Hkw in H|].
    destruct (Json.match_number (String c s0)) as [[lexeme r']|] eqn:E.
    { injection H as <- <-. apply match_number_length in E.
      cbn [String.length] in E. split; [lia | done]. }
    destruct (Ascii.eqb c "N"); [by apply Hkw in H|].
    destruct (Ascii.eqb c "I"); [by apply Hkw in H|].
    destruct (Ascii.eqb c "-"); [by apply Hkw in H | done].
  - intros s l r H. apply fuel_enough_S. cbn [Json.array_loop] in H |- *.
    destruct (Json.scan_once m s) as [[value r0]|] eqn:E; [|done].
    cbn [mbind option_bind] in H. apply IHs in E as [Hlt Hn].
    pose proof (skip_ws_length r0) as Hws.
    destruct (Json.skip_ws r0) as [|c r1] eqn:Ews; [done|].
    cbn [String.length] in Hws.
    destruct (Ascii.eqb c "]") eqn:Eb.
    { injection H as <- <-. split; [lia|]. intros n Hle.
      rewrite Hn by lia. cbn [mbind option_bind]. by rewrite Ews, Eb. }
    destruct (Ascii.eqb c ",") eqn:Ec; [|done].
    pose proof (skip_ws_length r1) as Hws1.
    destruct (Json.array_loop m (Json.skip_ws r1)) as [[rest r2]|] eqn:E; [|done].
    cbn [mbind option_bind] in H. injection H as <- <-.
    apply IHa in E as [Hlt' Hn']. split; [lia|]. intros n Hle.
    rewrite Hn by lia. cbn [mbind option_bind]. rewrite Ews.
    rewrite Eb, Ec, Hn' by lia. done.
  - intros s l r H. apply fuel_enough_S. cbn [Json.object_loop] in H |- *.
    destruct (Json.scanstring s) as [[key r0]|] eqn:Ek; [|done].
    cbn [mbind option_bind] in H |- *. apply scanstring_length in Ek.
    pose proof (skip_ws_length r0) as Hws.
    destruct (Json.skip_ws r0) as [|c r1]; [done|]. cbn [String.length] in Hws.
    destruct (Ascii.eqb c ":"); [|done].
    pose proof (skip_ws_length r1) as Hws1.
    destruct (Json.scan_once m (Json.skip_ws r1)) as [[value r2]|] eqn:E; [|done].
    cbn [mbind option_bind] in H. apply IHs in E as [Hlt Hn].
    pose proof (skip_ws_length r2) as Hws2.
    destruct (Json.skip_ws r2) as [|c2 r3] eqn:Ews2; [done|].
    cbn [String.length] in Hws2.
    destruct (Ascii.eqb c2 "}") eqn:Ec2.
    { injection H as <- <-. split; [lia|]. intros n Hle.
      rewrite Hn by lia. cbn [mbind option_bind]. by rewrite Ews2, Ec2. }
    destruct (Ascii.eqb c2 ",") eqn:Ec2'; [|done].
    pose proof (skip_ws_length r3) as Hws3.
    destruct (Json.skip_ws r3) as [|c3 r4] eqn:Ews3; [done|].
    cbn [String.length] in Hws3.
    destruct (Ascii.eqb c3 Json.dquote) eqn:Ec3; [|done].
    destruct (Json.object_loop m r4) as [[rest r5]|] eqn:E; [|done].
    cbn [mbind option_bind] in H. injection H as <- <-.
    apply IHo in E as [Hlt' Hn']. split; [lia|]. intros n Hle.
    rewrite Hn by lia. cbn [mbind option_bind].
    rewrite Ews2, Ec2, Ec2', Ews3, Ec3, Hn' by lia. done.
Qed.

(** Whatever some fuel decodes, the fuel that [loads] gives decodes: a
    [None] of [loads] is a text that is not JSON, never a lack of fuel. *)
Lemma loads_fuel_enough n s v r :
  Json.scan_once n (Json.skip_ws s) = Some (v, r) →
  Json.scan_once (2 * String.length s + 1) (Json.skip_ws s) = Some (v, r).
Proof.
  intros H. destruct (decoder_fuel_enough n) as (Hs & _ & _).
  apply Hs in H as [Hlt Hn]. apply Hn.
  pose proof (skip_ws_length s). lia.
Qed.

(** * The rest of the module *)

(** ** Starting and closing the browser session *)

Lemma start_browser_ok w :
  first_failure (start_answers (engine w)) = None →
  start_browser w
  = (Val tt, mkWorld (environ w) (engine w) (disk_fault w) (cookies_file w)
               (stdout w) (trace w ++ start_calls) true true).
Proof.
  destruct w as [env [a1 a2 a3 a4 a5 ? ? ? ? ? ? ? ? ? ? ?] f c out tr b p].
  cbn. destruct a1, a2, a3, a4, a5; try discriminate. intros _.
  cbv -[app]. by rewrite <- !app_assoc.
Qed.

Lemma start_browser_fails w k e :
  first_failure (start_answers (engine w)) = Some (k, e) →
  ∃ w', start_browser w = (Raise e, w')
        ∧ environ w' = environ w ∧ engine w' = engine w
        ∧ disk_fault w' = disk_fault w ∧ cookies_file w' = cookies_file w
        ∧ trace w' = trace w ++ take (S k) start_calls
        ∧ stdout w' = stdout w ++ [LogStartBrowserFailed e]
        ∧ self_browser w' = (if decide (2 ≤ k) then true else self_browser w)
        ∧ self_page w' = (if decide (4 ≤ k) then true else self_page w).
Proof.
  destruct w as [env [a1 a2 a3 a4 a5 ? ? ? ? ? ? ? ? ? ? ?] f c out tr b p].
  cbn. intros H.
  destruct a1, a2, a3, a4, a5; try discriminate; injection H as <- <-;
    (eexists; split; [reflexivity|]); wsimpl; cbn [take start_calls];
    rewrite <- ?app_assoc; repeat split; reflexivity.
Qed.

Lemma close_browser_started w :
  self_page w = true → self_browser w = true →
  ∃ w', close_browser w = (Val tt, w')
        ∧ trace w'
          = trace w ++ EvPageClose
              :: match e_page_close (engine w) with
                 | None => [EvBrowserClose]
                 | Some _ => []
                 end.
Proof.
  intros Hp Hb. unfold close_browser. munfold. rewrite Hp. wsimpl.
  destruct (e_page_close (engine w)) as [e|].
  - eexists. split; reflexivity.
  - wsimpl. rewrite Hb. wsimpl. destruct (e_browser_close (engine w));
      (eexists; split; [reflexivity|]); wsimpl; by rewrite <- app_assoc.
Qed.

(** *** What the login, the navigation and the extraction leave alone *)

Lemma keeps_session_refl w : keeps_session w w.
Proof. repeat split. exists []. by rewrite app_nil_r. Qed.

Lemma keeps_session_trans w1 w2 w3 :
  keeps_session w1 w2 → keeps_session w2 w3 → keeps_session w1 w3.
Proof.
  intros (E1 & E2 & E3 & l1 & T1 & F1) (G1 & G2 & G3 & l2 & T2 & F2).
  repeat split; try congruence.
  exists (l1 ++ l2). split; [by rewrite T2, T1, app_assoc | by apply Forall_app].
Qed.

#[local] Instance keeps_session_preorder : PreOrder keeps_session.
Proof.
  split; [intros w; apply keeps_session_refl
         | intros w1 w2 w3; apply keeps_session_trans].
Qed.

Lemma keeps_session_add_stdout m w : keeps_session w (add_stdout m w).
Proof. repeat split. exists []. by rewrite app_nil_r. Qed.

Lemma keeps_session_set_cookies_file f w : keeps_session w (set_cookies_file f w).
Proof. repeat split. exists []. by rewrite app_nil_r. Qed.

Lemma keeps_session_add_trace ev w :
  ¬ session_event ev → keeps_session w (add_trace ev w).
Proof. intros Hev. repeat split. exists [ev]. split; [done | by constructor]. Qed.

Ltac keeps_session_tac :=
  respects_tac;
  first [ apply keeps_session_add_stdout | apply keeps_session_set_cookies_file
        | apply keeps_session_add_trace; intros [] ].

Lemma login_to_gmail_keeps_session email password :
  respects keeps_session (login_to_gmail email password).
Proof.
  unfold login_to_gmail, page_goto, page_wait_for_selector, page_fill, page_click,
    page_wait_for_function, page_url, page_content, asyncio_sleep.
  keeps_session_tac.
Qed.

Lemma navigate_to_youtube_keeps_session :
  respects keeps_session navigate_to_youtube.
Proof.
  unfold navigate_to_youtube, page_goto, page_wait_for_selector,
    page_query_selector, asyncio_sleep.
  keeps_session_tac.
Qed.

Lemma filter_and_convert_keeps_session cookies acc :
  respects keeps_session (filter_and_convert cookies acc).
Proof.
  revert acc. induction cookies as [|c cs IH]; intros acc; cbn [filter_and_convert].
  - apply respects_ret, _.
  - unfold getitem. respects_tac; apply IH.
Qed.

Lemma extract_and_save_cookies_keeps_session :
  respects keeps_session extract_and_save_cookies.
Proof.
  unfold extract_and_save_cookies, context_cookies.
  rtry; [|intros e; keeps_session_tac].
  rbind; [keeps_session_tac|]. intros _.
  rbind; [keeps_session_tac|]. intros [|c cs]; [keeps_session_tac|].
  rbind; [apply filter_and_convert_keeps_session|].
  intros [|p l]; [keeps_session_tac|].
  unfold write_cookies_file. keeps_session_tac.
Qed.

Lemma perform_login_and_save_cookies_keeps_session :
  respects keeps_session perform_login_and_save_cookies.
Proof.
  unfold perform_login_and_save_cookies, os_getenv.
  rtry; [|intros e; keeps_session_tac].
  rbind; [apply respects_get, _|]. intros email.
  rbind; [apply respects_get, _|]. intros password.
  destruct (_ || _); [keeps_session_tac|].
  rbind; [apply login_to_gmail_keeps_session|].
  intros logged_in. destruct (negb logged_in); [keeps_session_tac|].
  rbind; [apply navigate_to_youtube_keeps_session|].
  intros on_youtube. destruct (negb on_youtube); [keeps_session_tac|].
  apply extract_and_save_cookies_keeps_session.
Qed.

(** X1: when one of the calls that start the browser raises, the refresh
    returns false after printing the failure twice; it has made the start
    calls up to the failing one and no other call: a browser whose launch
    went through before the failure (the failing call is the third or a
    later one, so the launch is among the calls before it) is never closed,
    and the cookie file is as before. *)
Theorem refresh_start_failure_never_closes w k e :
  first_failure (start_answers (engine w)) = Some (k, e) →
  ∃ w', refresh_cookies w = (Val false, w')
        ∧ trace w' = trace w ++ take (S k) start_calls
        ∧ Forall (λ ev, ev ≠ EvPageClose ∧ ev ≠ EvBrowserClose)
            (take (S k) start_calls)
        ∧ (2 ≤ k → EvLaunch ∈ take k start_calls)
        ∧ stdout w' = stdout w ++ [LogStartBrowserFailed e; LogRefreshError e]
        ∧ cookies_file w' = cookies_file w.
Proof.
  intros H.
  destruct (start_browser_fails (set_self_page false (set_self_browser false w)) k e H)
    as (w1 & Es & _ & _ & _ & Ef & Et & Eo & _).
  exists (add_stdout (LogRefreshError e) w1).
  split; [by apply refresh_cookies_not_started|]. wsimpl.
  split; [exact Et|]. split.
  { apply Forall_forall. intros ev Hev.
    apply elem_of_take in Hev as (i & Hi & _).
    do 5 (destruct i as [|i]; [injection Hi as <-; by split|]). done. }
  split.
  { intros Hk. destruct k as [|[|k]]; [lia..|]. cbn. set_solver. }
  split; [by rewrite Eo, <- app_assoc | exact Ef].
Qed.

Lemma refresh_start_failure_never_closes_witness :
  ∃ w', refresh_cookies (world_of credentials engine_no_context NoFault Missing)
        = (Val false, w')
        ∧ trace w' = [EvPlaywrightStart; EvLaunch; EvNewContext]
        ∧ Forall (λ ev, ev ≠ EvPageClose ∧ ev ≠ EvBrowserClose)
            [EvPlaywrightStart; EvLaunch; EvNewContext]
        ∧ (2 ≤ 2 → EvLaunch ∈ [EvPlaywrightStart; EvLaunch])
        ∧ stdout w' = [LogStartBrowserFailed "Browser closed";
                       LogRefreshError "Browser closed"]
        ∧ cookies_file w' = Missing.
Proof.
  apply (refresh_start_failure_never_closes
           (world_of credentials engine_no_context NoFault Missing) 2 "Browser closed").
  reflexivity.
Defined.

(** X2: when the browser starts, the refresh closes it at the very end,
    whatever happened in between: after the five start calls come calls to
    the page and the disk only, then the page is closed and, unless that
    raised, the browser; and the refresh returns. *)
Theorem refresh_closes_started_browser w :
  first_failure (start_answers (engine w)) = None →
  ∃ r evs w',
    refresh_cookies w = (Val r, w')
    ∧ Forall (λ ev, ¬ session_event ev) evs
    ∧ trace w'
      = trace w ++ start_calls ++ evs
        ++ EvPageClose :: match e_page_close (engine w) with
                          | None => [EvBrowserClose]
                          | Some _ => []
                          end.
Proof.
  intros H.
  pose proof (start_browser_ok (set_self_page false (set_self_browser false w)) H) as Es.
  wsimpl. set (w1 := mkWorld _ _ _ _ _ _ _ _) in Es.
  destruct (perform_login_and_save_cookies_returns w1) as (success & w2 & Ep).
  destruct (perform_login_and_save_cookies_keeps_session _ _ _ Ep)
    as (Ee & Eb & Epg & evs & Et & Hevs).
  destruct (close_browser_started
              (add_stdout (if success then LogRefreshed else LogRefreshFailed) w2))
    as (w3 & Ec & Et3); [wsimpl; by rewrite Epg | wsimpl; by rewrite Eb |].
  exists success, evs, w3. split; [by eapply refresh_cookies_started|].
  split; [exact Hevs|].
  rewrite Et3. wsimpl. rewrite Ee, Et. subst w1. wsimpl.
  by rewrite <- !app_assoc.
Qed.

Lemma refresh_closes_started_browser_witness :
  ∃ r evs w',
    refresh_cookies (world_of credentials (engine_ok [youtube_cookie]) NoFault Missing)
    = (Val r, w')
    ∧ Forall (λ ev, ¬ session_event ev) evs
    ∧ trace w' = [] ++ start_calls ++ evs ++ [EvPageClose; EvBrowserClose].
Proof.
  apply (refresh_closes_started_browser
           (world_of credentials (engine_ok [youtube_cookie]) NoFault Missing)).
  reflexivity.
Defined.

(** ** The decisions of the login and of the navigation *)

Lemma navigate_to_youtube_cases w :
  ∃ b w',
    navigate_to_youtube w = (Val b, w')
    ∧ (b = true
       ↔ e_goto (engine w) YOUTUBE_URL = None
         ∧ (e_wait_for_selector (engine w) SelAccountIndicator = None
            ∨ e_query_selector (engine w) SelSignInButton = inr false)).
Proof.
  unfold navigate_to_youtube. munfold. wsimpl.
  destruct (e_goto (engine w) YOUTUBE_URL) as [e|] eqn:Eg.
  { eexists _, _. split; [reflexivity|]. split; [done | by intros [? _]]. }
  wsimpl. destruct (e_wait_for_selector (engine w) SelAccountIndicator) as [e|] eqn:Ew.
  2:{ eexists _, _. split; [reflexivity|]. split; [by auto | done]. }
  wsimpl. destruct (e_query_selector (engine w) SelSignInButton) as [e'|[]] eqn:Eq.
  - eexists _, _. split; [reflexivity|]. split; [done | by intros [_ [|]]].
  - eexists _, _. split; [reflexivity|]. split; [done | by intros [_ [|]]].
  - eexists _, _. split; [reflexivity|]. split; [by auto | done].
Qed.

(** X3: on a manager that holds a page, [navigate_to_youtube] never
    raises, and it returns true exactly when the page loads and either an
    account indicator shows up within the ten seconds or, failing that, the
    page can be searched and holds no sign-in button. *)
Theorem navigate_to_youtube_decision w :
  self_page w = true →
  ∃ b w',
    navigate_to_youtube w = (Val b, w')
    ∧ (b = true
       ↔ e_goto (engine w) YOUTUBE_URL = None
         ∧ (e_wait_for_selector (engine w) SelAccountIndicator = None
            ∨ e_query_selector (engine w) SelSignInButton = inr false)).
Proof.
  intros _. destruct (navigate_to_youtube_cases w) as (b & w' & E & Hb).
  exists b, w'. split; [exact E | exact Hb].
Qed.

Lemma navigate_to_youtube_decision_witness :
  ∃ b w',
    navigate_to_youtube (world_with_page credentials (engine_ok []) NoFault Missing)
    = (Val b, w')
    ∧ (b = true
       ↔ e_goto (engine_ok []) YOUTUBE_URL = None
         ∧ (e_wait_for_selector (engine_ok []) SelAccountIndicator = None
            ∨ e_query_selector (engine_ok []) SelSignInButton = inr false)).
Proof.
  apply (navigate_to_youtube_decision
           (world_with_page credentials (engine_ok []) NoFault Missing)).
  reflexivity.
Defined.

(** The login flow, call by call: where it stops and what it returns. *)
Lemma login_to_gmail_run email password w :
  ∃ w',
    match first_failure (login_answers (engine w) email password) with
    | None =>
      login_to_gmail email password w = (Val true, w')
      ∧ trace w' = trace w ++ login_calls email password
    | Some (k, _) =>
      if decide (k = 8) then
        login_to_gmail email password w
        = (Val match e_content (engine w) with
               | inr content => outcome_ok (disambiguate (e_url (engine w)) content)
               | inl _ => false
               end, w')
        ∧ trace w' = trace w ++ login_calls email password ++ [EvContent]
      else
        login_to_gmail email password w = (Val false, w')
        ∧ trace w' = trace w ++ take (S k) (login_calls email password)
    end.
Proof.
  unfold login_to_gmail. munfold. wsimpl. cbn [login_answers first_failure].
  destruct (e_goto (engine w) GMAIL_LOGIN_URL);
    [eexists; split; [reflexivity|]; wsimpl; by rewrite <- ?app_assoc|].
  wsimpl. destruct (e_wait_for_selector (engine w) SelEmailInput);
    [eexists; split; [reflexivity|]; wsimpl; by rewrite <- ?app_assoc|].
  wsimpl. destruct (e_fill (engine w) SelEmailInput email);
    [eexists; split; [reflexivity|]; wsimpl; by rewrite <- ?app_assoc|].
  wsimpl. destruct (e_click (engine w) SelNext);
    [eexists; split; [reflexivity|]; wsimpl; by rewrite <- ?app_assoc|].
  wsimpl. destruct (e_wait_for_selector (engine w) SelPasswordInput);
    [eexists; split; [reflexivity|]; wsimpl; by rewrite <- ?app_assoc|].
  wsimpl. destruct (e_fill (engine w) SelPasswordInput password);
    [eexists; split; [reflexivity|]; wsimpl; by rewrite <- ?app_assoc|].
  wsimpl. destruct (e_click (engine w) SelNextOrSignIn);
    [eexists; split; [reflexivity|]; wsimpl; by rewrite <- ?app_assoc|].
  wsimpl. destruct (e_wait_for_function (engine w));
    [|eexists; split; [reflexivity|]; wsimpl; by rewrite <- ?app_assoc].
  cbn [decide decide_rel]. wsimpl.
  destruct (e_content (engine w)) as [e'|content].
  { eexists; split; [reflexivity|]; wsimpl; by rewrite <- ?app_assoc. }
  unfold disambiguate, indicates_challenge, indicates_account.
  destruct (_ || _); [eexists; split; [reflexivity|]; wsimpl; by rewrite <- ?app_assoc|].
  destruct (_ || _); eexists; (split; [reflexivity|]); wsimpl; by rewrite <- ?app_assoc.
Qed.

Lemma login_to_gmail_cases email password w :
  ∃ b w',
    login_to_gmail email password w = (Val b, w')
    ∧ (b = true
       ↔ reaches_race (engine w) email password
         ∧ (e_wait_for_function (engine w) = None
            ∨ ∃ content,
                e_content (engine w) = inr content
                ∧ disambiguate (e_url (engine w)) content = Success)).
Proof.
  destruct (login_to_gmail_run email password w) as (w' & H).
  cbn [login_answers first_failure] in H. unfold reaches_race.
  destruct (e_goto (engine w) GMAIL_LOGIN_URL) eqn:E1;
    [cbn in H; destruct H as [H _]; eexists _, _; split; [exact H|];
     split; [done | intros [(?&?&?&?&?&?&?) _]; congruence]|].
  destruct (e_wait_for_selector (engine w) SelEmailInput) eqn:E2;
    [cbn in H; destruct H as [H _]; eexists _, _; split; [exact H|];
     split; [done | intros [(?&?&?&?&?&?&?) _]; congruence]|].
  destruct (e_fill (engine w) SelEmailInput email) eqn:E3;
    [cbn in H; destruct H as [H _]; eexists _, _; split; [exact H|];
     split; [done | intros [(?&?&?&?&?&?&?) _]; congruence]|].
  destruct (e_click (engine w) SelNext) eqn:E4;
    [cbn in H; destruct H as [H _]; eexists _, _; split; [exact H|];
     split; [done | intros [(?&?&?&?&?&?&?) _]; congruence]|].
  destruct (e_wait_for_selector (engine w) SelPasswordInput) eqn:E5;
    [cbn in H; destruct H as [H _]; eexists _, _; split; [exact H|];
     split; [done | intros [(?&?&?&?&?&?&?) _]; congruence]|].
  destruct (e_fill (engine w) SelPasswordInput password) eqn:E6;
    [cbn in H; destruct H as [H _]; eexists _, _; split; [exact H|];
     split; [done | intros [(?&?&?&?&?&?&?) _]; congruence]|].
  destruct (e_click (engine w) SelNextOrSignIn) eqn:E7;
    [cbn in H; destruct H as [H _]; eexists _, _; split; [exact H|];
     split; [done | intros [(?&?&?&?&?&?&?) _]; congruence]|].
  destruct (e_wait_for_function (engine w)) as [err|] eqn:E8.
  - cbn in H. destruct H as [H _]. eexists _, _. split; [exact H|].
    destruct (e_content (engine w)) as [e'|content].
    + split; [done | intros [_ [|(c & ? & _)]]; congruence].
    + destruct (disambiguate (e_url (engine w)) content) eqn:Ed; cbn [outcome_ok].
      * split; [|done]. intros _. split; [done|]. right. by exists content.
      * split; [done|]. intros [_ [|(c & [= <-] & ?)]]; congruence.
      * split; [done|]. intros [_ [|(c & [= <-] & ?)]]; congruence.
  - destruct H as [H _]. eexists _, _. split; [exact H|].
    split; [|done]. intros _. split; [done | by left].
Qed.

(** X4: on a manager that holds a page, [login_to_gmail] never raises,
    and it returns true exactly when every step up to the second click goes
    through and then either a success signal arrives in time or, after the
    timeout, the page can be read, shows no challenge and is on the account
    or platform domain. *)
Theorem login_to_gmail_decision email password w :
  self_page w = true →
  ∃ b w',
    login_to_gmail email password w = (Val b, w')
    ∧ (b = true
       ↔ reaches_race (engine w) email password
         ∧ (e_wait_for_function (engine w) = None
            ∨ ∃ content,
                e_content (engine w) = inr content
                ∧ disambiguate (e_url (engine w)) content = Success)).
Proof.
  intros _. destruct (login_to_gmail_cases email password w) as (b & w' & E & Hb).
  exists b, w'. split; [exact E | exact Hb].
Qed.

Lemma login_to_gmail_decision_witness :
  ∃ b w',
    login_to_gmail "user@example.com" "hunter2"
      (world_with_page credentials
         (engine_timeout "https://myaccount.google.com/" "<html></html>")
         NoFault Missing)
    = (Val b, w')
    ∧ (b = true
       ↔ reaches_race
           (engine_timeout "https://myaccount.google.com/" "<html></html>")
           "user@example.com" "hunter2"
         ∧ (e_wait_for_function
              (engine_timeout "https://myaccount.google.com/" "<html></html>") = None
            ∨ ∃ content,
                e_content
                  (engine_timeout "https://myaccount.google.com/" "<html></html>")
                = inr content
                ∧ disambiguate
                    (e_url
                       (engine_timeout "https://myaccount.google.com/" "<html></html>"))
                    content = Success)).
Proof.
  apply (login_to_gmail_decision "user@example.com" "hunter2"
           (world_with_page credentials
              (engine_timeout "https://myaccount.google.com/" "<html></html>")
              NoFault Missing)).
  reflexivity.
Defined.

(** X5: on a manager that holds a page, [login_to_gmail] makes its calls
    to the page in the order of the
    source and stops at the first one that raises; only a timeout of the
    wait for a success signal is followed by one more call, the reading of
    the page content.  So the password is typed into the page only if the
    page loaded, the e-mail field was found and filled, Next was clicked
    and the password field was found. *)
Theorem login_to_gmail_call_order email password w :
  self_page w = true →
  ∃ b w' evs,
    login_to_gmail email password w = (Val b, w')
    ∧ trace w' = trace w ++ evs
    ∧ evs = match first_failure (login_answers (engine w) email password) with
            | None => login_calls email password
            | Some (k, _) =>
              if decide (k = 8) then login_calls email password ++ [EvContent]
              else take (S k) (login_calls email password)
            end
    ∧ (EvFill SelPasswordInput password ∈ evs →
       Forall (λ a, a = None) (take 5 (login_answers (engine w) email password))).
Proof.
  intros _. destruct (login_to_gmail_run email password w) as (w' & H).
  assert (∀ k, k < 5 →
            EvFill SelPasswordInput password
            ∉ take (S k) (login_calls email password)) as Hpw.
  { intros k Hk Hin. apply elem_of_take in Hin as (i & Hi & Hlt).
    do 5 (destruct i as [|i]; [discriminate Hi|]). lia. }
  assert (∃ b, login_to_gmail email password w = (Val b, w')
               ∧ trace w'
                 = trace w
                   ++ match first_failure (login_answers (engine w) email password) with
                      | None => login_calls email password
                      | Some (k, _) =>
                        if decide (k = 8) then login_calls email password ++ [EvContent]
                        else take (S k) (login_calls email password)
                      end) as (b & Hr & Ht).
  { destruct (first_failure (login_answers (engine w) email password)) as [[k e]|];
      [destruct (decide (k = 8))|]; destruct H as [H Ht]; by eexists. }
  exists b, w'. eexists. split; [exact Hr|]. split; [exact Ht|].
  split; [reflexivity|].
  cbn [login_answers first_failure take].
  destruct (e_goto (engine w) GMAIL_LOGIN_URL);
      [intros Hin; by apply (Hpw 0) in Hin; [|lia]|].
    destruct (e_wait_for_selector (engine w) SelEmailInput);
      [intros Hin; by apply (Hpw 1) in Hin; [|lia]|].
    destruct (e_fill (engine w) SelEmailInput email);
      [intros Hin; by apply (Hpw 2) in Hin; [|lia]|].
    destruct (e_click (engine w) SelNext);
      [intros Hin; by apply (Hpw 3) in Hin; [|lia]|].
    destruct (e_wait_for_selector (engine w) SelPasswordInput);
      [intros Hin; by apply (Hpw 4) in Hin; [|lia]|].
    intros _. by repeat constructor.
Qed.

Lemma login_to_gmail_call_order_witness :
  Forall (λ a, a = None)
    (take 5 (login_answers
               (engine (world_with_page credentials (engine_ok []) NoFault Missing))
               "user@example.com" "hunter2")).
Proof.
  destruct (login_to_gmail_call_order "user@example.com" "hunter2"
              (world_with_page credentials (engine_ok []) NoFault Missing) eq_refl)
    as (b & w' & evs & _ & _ & -> & H).
  apply H. vm_compute. set_solver.
Defined.

(** ** Credentials, filtering and the written file *)

(** X6: a credential that is set to the empty string counts as missing:
    [perform_login_and_save_cookies] prints the missing-credentials line and
    returns false without a single call, and the refresh returns false
    having done no more than open and close the browser session. *)
Theorem empty_credentials_count_as_missing w :
  environ w !! "YOUTUBE_EMAIL" = Some EmptyString
  ∨ environ w !! "YOUTUBE_PASSWORD" = Some EmptyString →
  perform_login_and_save_cookies w = (Val false, add_stdout LogMissingCredentials w)
  ∧ ∃ w', refresh_cookies w = (Val false, w') ∧ frame session_event w w'.
Proof.
  intros H.
  assert (PyStr.truthy (environ w !! "YOUTUBE_EMAIL") = false
          ∨ PyStr.truthy (environ w !! "YOUTUBE_PASSWORD") = false) as Ht.
  { destruct H as [-> | ->]; auto. }
  split; [by apply perform_without_credentials
         | by apply refresh_without_truthy_credentials].
Qed.

Lemma empty_credentials_count_as_missing_witness :
  perform_login_and_save_cookies
    (world_of credentials_empty_secret (engine_ok [youtube_cookie]) NoFault Missing)
  = (Val false,
     add_stdout LogMissingCredentials
       (world_of credentials_empty_secret (engine_ok [youtube_cookie]) NoFault Missing))
  ∧ ∃ w', refresh_cookies
            (world_of credentials_empty_secret (engine_ok [youtube_cookie])
               NoFault Missing)
          = (Val false, w')
          ∧ frame session_event
              (world_of credentials_empty_secret (engine_ok [youtube_cookie])
                 NoFault Missing) w'.
Proof.
  apply (empty_credentials_count_as_missing
           (world_of credentials_empty_secret (engine_ok [youtube_cookie])
              NoFault Missing)).
  right. reflexivity.
Defined.

Lemma contains_tail c t d :
  PyStr.contains (String c t) d = true → PyStr.contains t d = true.
Proof.
  intros (pre & post & ->)%contains_spec. apply contains_spec.
  exists (pre +:+ String c EmptyString), post.
  by rewrite (append_assoc pre).
Qed.

(** X7: the test for a target domain is a plain substring test, and the two
    dotted entries of the list add nothing: a cookie is kept exactly when
    its domain has the text youtube.com or google.com somewhere in it,
    whatever stands before and after. *)
Theorem is_target_domain_substring :
  (∀ d, is_target_domain d
        = PyStr.contains "youtube.com" d || PyStr.contains "google.com" d)
  ∧ (∀ pre post, is_target_domain (pre +:+ "youtube.com" +:+ post) = true)
  ∧ (∀ pre post, is_target_domain (pre +:+ "google.com" +:+ post) = true).
Proof.
  assert (∀ d, is_target_domain d
               = PyStr.contains "youtube.com" d || PyStr.contains "google.com" d)
    as Hd.
  { intros d. unfold is_target_domain, TARGET_DOMAINS. cbn [existsb].
    pose proof (contains_tail "." "youtube.com" d) as Hy.
    pose proof (contains_tail "." "google.com" d) as Hg.
    destruct (PyStr.contains ".youtube.com" d);
      destruct (PyStr.contains ".google.com" d);
      destruct (PyStr.contains "youtube.com" d);
      destruct (PyStr.contains "google.com" d);
      try reflexivity; try (by discriminate Hy); by discriminate Hg. }
  split; [exact Hd|]. split; intros pre post; rewrite Hd.
  - apply orb_true_iff. left. apply contains_spec. by exists pre, post.
  - apply orb_true_iff. right. apply contains_spec. by exists pre, post.
Qed.

(** The loop of the extractor, as a whole: it leaves the world alone and
    either raises a [KeyError], when there is a malformed cookie, or
    returns one entry more for every cookie that is kept. *)
Lemma filter_and_convert_result cookies acc w :
  if existsb malformed cookies then
    ∃ e, key_error e ∧ filter_and_convert cookies acc w = (Raise e, w)
  else
    ∃ l, filter_and_convert cookies acc w = (Val (acc ++ l), w)
         ∧ length l = length (List.filter kept cookies).
Proof.
  revert acc. induction cookies as [|c cs IH]; intros acc.
  { exists []. by rewrite app_nil_r. }
  cbn [existsb filter_and_convert List.filter]. unfold malformed at 1, kept at 1.
  destruct (c_domain c) as [d|]; munfold.
  2:{ exists "'domain'". split; [by left | reflexivity]. }
  destruct (is_target_domain d); cbn [andb orb]; [|apply IH].
  destruct (c_name c) as [name|].
  2:{ exists "'name'". split; [by right; left | reflexivity]. }
  destruct (c_value c) as [value|].
  2:{ exists "'value'". split; [by right; right | reflexivity]. }
  cbn [orb]. specialize (IH (acc ++ [mkPersisted name value d
      (default "/" (c_path c)) (default (-1)%Z (c_expires c))
      (default false (c_httpOnly c)) (default false (c_secure c))
      (default "no_restriction" (c_sameSite c))])).
  destruct (existsb malformed cs); [exact IH|].
  destruct IH as (l & E & Hl). eexists (_ :: l).
  split; [by rewrite E, <- app_assoc | cbn [length]; by rewrite Hl].
Qed.



Lemma extract_and_save_cookies_iff w :
  ∃ b w',
    extract_and_save_cookies w = (Val b, w')
    ∧ (b = true
       ↔ ∃ cookies,
           e_cookies (engine w) = inr cookies
           ∧ existsb malformed cookies = false
           ∧ List.filter kept cookies ≠ []
           ∧ disk_fault w = NoFault)
    ∧ (b = true →
       ∀ cookies, e_cookies (engine w) = inr cookies →
         last (stdout w')
         = Some (LogSaved (length (List.filter kept cookies)) COOKIES_FILE)).
Proof.
  unfold extract_and_save_cookies. munfold. wsimpl.
  destruct (e_cookies (engine w)) as [e|cookies] eqn:Ec.
  { eexists _, _. split; [reflexivity|]. split; [|done].
    split; [done | by intros (? & ? & _)]. }
  destruct cookies as [|c cs].
  { eexists _, _. split; [reflexivity|]. split; [|done].
    split; [done | by intros (? & [= <-] & _ & ? & _)]. }
  pose proof (filter_and_convert_result (c :: cs) []
                (add_trace EvCookies (add_stdout LogExtracting w))) as Hf.
  destruct (existsb malformed (c :: cs)) eqn:Hm.
  { destruct Hf as (e & _ & ->). eexists _, _. split; [reflexivity|].
    split; [|done]. split; [done|]. intros (? & [= <-] & ? & _). congruence. }
  destruct Hf as (l & -> & Hl). cbn [app].
  destruct l as [|p l].
  { eexists _, _. split; [reflexivity|]. split; [|done]. split; [done|].
    intros (? & [= <-] & _ & Hk & _). by destruct (List.filter kept (c :: cs)). }
  unfold write_cookies_file. munfold. wsimpl.
  destruct (disk_fault w) as [|e|n e] eqn:Ed.
  - eexists _, _. split; [reflexivity|]. wsimpl. split.
    + split; [|done]. intros _. exists (c :: cs).
      split; [done|]. split; [done|]. split; [|done].
      intros E. by rewrite E in Hl.
    + intros _ ? [= <-]. by rewrite last_snoc, Hl.
  - eexists _, _. split; [reflexivity|]. split; [|done].
    split; [done | by intros (? & _ & _ & _ & ?)].
  - eexists _, _. split; [reflexivity|]. split; [|done].
    split; [done | by intros (? & _ & _ & _ & ?)].
Qed.

(** X9: on a manager that holds a page, [extract_and_save_cookies] never
    raises, and it returns true exactly when the cookies can be read, none
    of them is malformed, at least one is kept and the disk takes the
    write; the line it then prints last gives the number of cookies kept. *)
Theorem extract_and_save_cookies_succeeds_iff w :
  self_page w = true →
  ∃ b w',
    extract_and_save_cookies w = (Val b, w')
    ∧ (b = true
       ↔ ∃ cookies,
           e_cookies (engine w) = inr cookies
           ∧ existsb malformed cookies = false
           ∧ List.filter kept cookies ≠ []
           ∧ disk_fault w = NoFault)
    ∧ (b = true →
       ∀ cookies, e_cookies (engine w) = inr cookies →
         last (stdout w')
         = Some (LogSaved (length (List.filter kept cookies)) COOKIES_FILE)).
Proof.
  intros _. destruct (extract_and_save_cookies_iff w) as (b & w' & E & Hb & Hm).
  exists b, w'. split; [exact E|]. split; [exact Hb | exact Hm].
Qed.

Lemma extract_and_save_cookies_succeeds_iff_witness :
  last (stdout
          (extract_and_save_cookies
             (world_with_page credentials
                (engine_ok [youtube_cookie; other_cookie; google_cookie])
                NoFault Missing)).2)
  = Some (LogSaved 2 COOKIES_FILE).
Proof.
  destruct (extract_and_save_cookies_succeeds_iff
              (world_with_page credentials
                 (engine_ok [youtube_cookie; other_cookie; google_cookie])
                 NoFault Missing) eq_refl)
    as (b & w' & E & _ & H).
  rewrite E. vm_compute in E. injection E as <- <-.
  apply (H eq_refl [youtube_cookie; other_cookie; google_cookie]). reflexivity.
Defined.

Lemma codes_inj s1 s2 : Json.codes s1 = Json.codes s2 → s1 = s2.
Proof.
  revert s2. induction s1 as [|c1 s1 IH]; intros [|c2 s2]; try done.
  unfold Json.codes. cbn [list_ascii_of_string map]. intros [= Hc Hs].
  f_equal; [|by apply IH].
  unfold Json.code in Hc.
  by rewrite <- (ascii_N_embedding c1), <- (ascii_N_embedding c2), Hc.
Qed.

Lemma cookie_json_inj p1 p2 : cookie_json p1 = cookie_json p2 → p1 = p2.
Proof.
  destruct p1, p2. unfold cookie_json. cbn [p_name p_value p_domain p_path
    p_expires p_httpOnly p_secure p_sameSite].
  intros [= H1 H2 H3 H4 H5 H6 H7 H8].
  apply codes_inj in H1, H2, H3, H4, H8.
  apply (inj pretty) in H5. by subst.
Qed.

(** X10: within the limits of the embedding (strings of code points
    below 256, an expiry that is absent or a whole number of seconds), what
    a successful [extract_and_save_cookies] has written is read back by
    [json.load] as the list of the dicts built for the kept cookies, in
    their order: reading with [json.load] what [json.dump] wrote gives the
    list that was written.  So two different lists of entries never give
    the same file. *)
Theorem dumps_cookies_round_trip :
  (∀ w w',
     self_page w = true →
     extract_and_save_cookies w = (Val true, w') →
     ∃ cookies l contents,
       e_cookies (engine w) = inr cookies
       ∧ Forall2 normalized (List.filter kept cookies) l
       ∧ cookies_file w' = Text contents
       ∧ Json.loads contents = Some (Json.JArray (map cookie_json l)))
  ∧ (∀ l, Json.loads (dumps_cookies l) = Some (Json.JArray (map cookie_json l)))
  ∧ (∀ l1 l2, dumps_cookies l1 = dumps_cookies l2 → l1 = l2).
Proof.
  assert (∀ l, Json.loads (dumps_cookies l) = Some (Json.JArray (map cookie_json l)))
    as Hrt.
  { intros [|p l]; [reflexivity | by apply loads_dumps_cookies]. }
  split; [|split; [exact Hrt|]].
  - intros w w' _ H.
    destruct (extract_and_save_cookies_cases _ _ _ H)
      as [[? _] | (cookies & l & Ec & HF & _ & _ & _ & _ & Hw)]; [done|].
    destruct Hw as [(_ & _ & Ef) | [(e & _ & ? & _) | (n & e & _ & ? & _)]];
      [|done..].
    exists cookies, l, (dumps_cookies l). by rewrite Hrt.
  - intros l1 l2 E.
    pose proof (Hrt l1) as H1. rewrite E, Hrt in H1. injection H1 as H1.
    clear E. revert l2 H1. induction l1 as [|p1 l1 IH]; intros [|p2 l2]; try done.
    cbn [map]. intros H.
    assert (cookie_json p1 = cookie_json p2) as Hp%cookie_json_inj by congruence.
    assert (map cookie_json l2 = map cookie_json l1) as Hl%IH by congruence.
    by f_equal.
Qed.

Lemma dumps_cookies_round_trip_witness :
  (∃ cookies l contents,
     e_cookies
       (engine (world_with_page credentials
                  (engine_ok [youtube_cookie; other_cookie; google_cookie])
                  NoFault Missing)) = inr cookies
     ∧ Forall2 normalized (List.filter kept cookies) l
     ∧ cookies_file
         (extract_and_save_cookies
            (world_with_page credentials
               (engine_ok [youtube_cookie; other_cookie; google_cookie])
               NoFault Missing)).2 = Text contents
     ∧ Json.loads contents = Some (Json.JArray (map cookie_json l)))
  ∧ [stored_cookie] = [stored_cookie].
Proof.
  split.
  - apply (proj1 dumps_cookies_round_trip
             (world_with_page credentials
                (engine_ok [youtube_cookie; other_cookie; google_cookie])
                NoFault Missing)); [reflexivity|].
    vm_compute. reflexivity.
  - apply (proj2 (proj2 dumps_cookies_round_trip) [stored_cookie] [stored_cookie]).
    reflexivity.
Defined.

(** ** The functions for the caller *)

Lemma perform_true_extracts w w2 :
  perform_login_and_save_cookies w = (Val true, w2) →
  ∃ w1, extract_and_save_cookies w1 = (Val true, w2).
Proof.
  unfold perform_login_and_save_cookies. munfold.
  destruct (_ || _); [intros [=]|].
  destruct (login_to_gmail_returns
              (default EmptyString (environ w !! "YOUTUBE_EMAIL"))
              (default EmptyString (environ w !! "YOUTUBE_PASSWORD")) w)
    as (b1 & w1 & ->).
  destruct b1; cbn [negb]; [|intros [=]].
  destruct (navigate_to_youtube_returns w1) as (b2 & w1' & ->).
  destruct b2; cbn [negb]; [|intros [=]].
  destruct (extract_and_save_cookies_returns w1') as (b3 & w3 & E). rewrite E.
  intros [= -> ->]. by exists w1'.
Qed.

(** After a refresh that returned true the file holds the encoding of a
    list of entries that is not empty. *)
Lemma refresh_true_file w w' :
  refresh_cookies w = (Val true, w') →
  ∃ l, l ≠ [] ∧ cookies_file w' = Text (dumps_cookies l).
Proof.
  intros Hr.
  destruct (start_browser (set_self_page false (set_self_browser false w)))
    as [[[]|e] w1] eqn:Es.
  2:{ by rewrite (refresh_cookies_not_started _ _ _ Es) in Hr. }
  destruct (perform_login_and_save_cookies_returns w1) as (success & w2 & Ep).
  destruct (close_after_frame w2 (if success then LogRefreshed else LogRefreshFailed))
    as (w3 & Ec & F3).
  rewrite (refresh_cookies_started _ _ _ _ _ Es Ep Ec) in Hr.
  injection Hr as -> <-.
  destruct (perform_true_extracts _ _ Ep) as (w1' & Ex).
  destruct (extract_and_save_cookies_cases _ _ _ Ex)
    as [[? _] | (cookies & l & _ & _ & Hl & _ & _ & _ & Hw)]; [done|].
  destruct Hw as [(_ & _ & Ef) | [(e & _ & ? & _) | (n & e & _ & ? & _)]];
    [|done..].
  exists l. split; [done|]. by rewrite (frame_cookies_file _ _ _ F3).
Qed.

Lemma check_cookies_file_of_file w1 w2 :
  cookies_file w1 = cookies_file w2 →
  check_cookies_file w1 = (Val true, w1) → check_cookies_file w2 = (Val true, w2).
Proof.
  intros E H1. apply check_cookies_file_true. rewrite <- E.
  by apply check_cookies_file_true.
Qed.

Lemma check_cookies_file_false w :
  ¬ holds_value_with_length (cookies_file w) →
  check_cookies_file w = (Val false, w).
Proof.
  intros Hn. destruct (check_cookies_file_returns w) as (b & w' & E).
  rewrite (check_cookies_file_world _ _ _ E) in E.
  destruct b; [|done]. by apply check_cookies_file_true in E.
Qed.

(** X11: [get_cookies_for_ytdl] never raises and leaves the file alone; it
    returns the option that names the cookie file exactly when the file
    holds JSON of positive length, and otherwise the empty dict, after
    printing the hint.  After a refresh that returned true it returns the
    option. *)
Theorem get_cookies_for_ytdl_option w :
  (holds_value_with_length (cookies_file w) →
   get_cookies_for_ytdl w = (Val {[ "cookiefile" := COOKIES_FILE ]}, w))
  ∧ (¬ holds_value_with_length (cookies_file w) →
     get_cookies_for_ytdl w = (Val ∅, add_stdout LogNoCookiesFile w))
  ∧ (∀ w0, refresh_cookies w0 = (Val true, w) →
       get_cookies_for_ytdl w = (Val {[ "cookiefile" := COOKIES_FILE ]}, w)).
Proof.
  assert (check_cookies_file w = (Val true, w) →
          get_cookies_for_ytdl w = (Val {[ "cookiefile" := COOKIES_FILE ]}, w)) as Hy.
  { intros E. unfold get_cookies_for_ytdl. by rewrite (bind_val _ _ _ _ _ E). }
  split; [|split].
  - intros H. by apply Hy, check_cookies_file_true.
  - intros H%check_cookies_file_false. unfold get_cookies_for_ytdl.
    by rewrite (bind_val _ _ _ _ _ H).
  - intros w0 (l & Hl & Ef)%refresh_true_file. apply Hy.
    by apply (check_cookies_file_dumps l).
Qed.

Lemma get_cookies_for_ytdl_option_witness :
  get_cookies_for_ytdl (world_with_file (Text (dumps_cookies [stored_cookie])))
  = (Val {[ "cookiefile" := COOKIES_FILE ]},
     world_with_file (Text (dumps_cookies [stored_cookie])))
  ∧ get_cookies_for_ytdl (world_with_file Missing)
    = (Val ∅, add_stdout LogNoCookiesFile (world_with_file Missing))
  ∧ get_cookies_for_ytdl
      (refresh_cookies
         (world_of credentials (engine_ok [youtube_cookie]) NoFault Missing)).2
    = (Val {[ "cookiefile" := COOKIES_FILE ]},
       (refresh_cookies
          (world_of credentials (engine_ok [youtube_cookie]) NoFault Missing)).2).
Proof.
  split; [|split].
  - apply (proj1 (get_cookies_for_ytdl_option
                    (world_with_file (Text (dumps_cookies [stored_cookie]))))).
    exists (dumps_cookies [stored_cookie]), (Json.JArray [cookie_json stored_cookie]), 1.
    split; [reflexivity|]. split; [vm_compute; reflexivity|].
    split; [reflexivity | lia].
  - apply (proj1 (proj2 (get_cookies_for_ytdl_option (world_with_file Missing)))).
    intros (contents & v & n & [=] & _).
  - apply (proj2 (proj2 (get_cookies_for_ytdl_option _))
             (world_of credentials (engine_ok [youtube_cookie]) NoFault Missing)).
    vm_compute. reflexivity.
Defined.

(** X12: [ensure_cookies] never raises.  When the file is valid it returns
    true at once, without a refresh and without any call; and whenever it
    returns true, by that way or after a refresh, the file is valid
    afterwards. *)
Theorem ensure_cookies_postcondition w :
  (∃ b w', ensure_cookies w = (Val b, w'))
  ∧ (holds_value_with_length (cookies_file w) →
     ensure_cookies w = (Val true, add_stdout LogCookiesAlreadyExist w))
  ∧ (∀ w', ensure_cookies w = (Val true, w') →
       check_cookies_file w' = (Val true, w')).
Proof.
  destruct (check_cookies_file_returns w) as (b & w1 & E).
  rewrite (check_cookies_file_world _ _ _ E) in E.
  unfold ensure_cookies. rewrite (bind_val _ _ _ _ _ E).
  destruct b.
  - split; [by eexists _, _|]. split; [done|].
    intros w' [= <-]. by apply (check_cookies_file_of_file w).
  - destruct (refresh_cookies_returns (add_stdout LogNoCookiesRefreshing w))
      as (b & w2 & Er).
    munfold. rewrite Er.
    split; [by exists b, w2|]. split.
    + intros H%check_cookies_file_true. congruence.
    + intros w' [= -> ->].
      destruct (refresh_true_file _ _ Er) as (l & Hl & Ef).
      by apply (check_cookies_file_dumps l).
Qed.

Lemma ensure_cookies_postcondition_witness :
  ensure_cookies (world_with_file (Text (dumps_cookies [stored_cookie])))
  = (Val true,
     add_stdout LogCookiesAlreadyExist
       (world_with_file (Text (dumps_cookies [stored_cookie]))))
  ∧ check_cookies_file
      (ensure_cookies
         (world_of credentials (engine_ok [youtube_cookie]) NoFault Missing)).2
    = (Val true,
       (ensure_cookies
          (world_of credentials (engine_ok [youtube_cookie]) NoFault Missing)).2).
Proof.
  split.
  - apply (proj1 (proj2 (ensure_cookies_postcondition
                           (world_with_file (Text (dumps_cookies [stored_cookie])))))).
    exists (dumps_cookies [stored_cookie]), (Json.JArray [cookie_json stored_cookie]), 1.
    split; [reflexivity|]. split; [vm_compute; reflexivity|].
    split; [reflexivity | lia].
  - apply (proj2 (proj2 (ensure_cookies_postcondition
                           (world_of credentials (engine_ok [youtube_cookie])
                              NoFault Missing)))).
    vm_compute. reflexivity.
Defined.

(** X13: of the coroutines and functions of the module only
    [start_browser] lets an exception out: closing the browser, the login,
    the navigation, the extraction, the whole login process, both forms of
    the refresh, the validity check, the yt-dlp options and
    [ensure_cookies] return on every world, whatever the browser, the disk
    and the environment do. *)
Theorem only_start_browser_raises :
  returns close_browser
  ∧ (∀ email password, returns (login_to_gmail email password))
  ∧ returns navigate_to_youtube
  ∧ returns extract_and_save_cookies
  ∧ returns perform_login_and_save_cookies
  ∧ returns refresh_cookies_async
  ∧ returns refresh_cookies
  ∧ returns check_cookies_file
  ∧ returns get_cookies_for_ytdl
  ∧ returns ensure_cookies
  ∧ ¬ returns start_browser.
Proof.
  do 8 (split; [first [ apply close_browser_returns | apply login_to_gmail_returns
                      | apply navigate_to_youtube_returns
                      | apply extract_and_save_cookies_returns
                      | apply perform_login_and_save_cookies_returns
                      | apply refresh_cookies_async_returns
                      | apply refresh_cookies_returns
                      | apply check_cookies_file_returns ]|]).
  split; [|split].
  - apply returns_bind; [apply check_cookies_file_returns|].
    intros []; [apply returns_ret|].
    apply returns_bind; [apply returns_print | intros _; apply returns_ret].
  - apply returns_bind; [apply check_cookies_file_returns|].
    intros [].
    + apply returns_bind; [apply returns_print | intros _; apply returns_ret].
    + apply returns_bind; [apply returns_print | intros _; apply refresh_cookies_returns].
  - intros H.
    destruct (H (world_of ∅ engine_no_context NoFault Missing)) as (a & w' & E).
    vm_compute in E. discriminate E.
Qed.

(** ** More on the worker and the scheduler *)

Lemma loop_step_flag_up_sleep p w l p' w' :
  loop_step true p w = Some (l, p', w') →
  (¬ sleeping p → is_sleep l = false) ∧ ¬ sleeping p'.
Proof.
  destruct p; cbn [loop_step];
    try match goal with
        | |- context [loop_refresh ?x] =>
          destruct (loop_refresh_continues x) as (ok & w1 & ->)
        end;
    repeat case_match; intros [= ? ? ?]; subst;
    (split; [try done; intros Hn; exfalso; apply Hn; by eexists
            | by intros [? [=]]]).
Qed.

Lemma run_thread_flag_up_sleep k t P p :
  _stop_refresh P = true → threads P !! t = Some p →
  (¬ sleeping p → Forall (λ l, is_sleep l = false) (run_thread k t P).1)
  ∧ Forall (λ l, is_sleep l = false) (tail (run_thread k t P).1).
Proof.
  revert P p. induction k as [|k IH]; intros P p Hflag Ep.
  { cbn [run_thread fst snd tail]. by split. }
  cbn [run_thread]. rewrite (thread_step_at _ _ _ Ep), Hflag.
  destruct (loop_step true p (world P)) as [[[l p'] w']|] eqn:El.
  2:{ cbn [fst snd tail]. by split. }
  destruct (loop_step_flag_up_sleep _ _ _ _ _ El) as (Hl & Hc).
  set (P' := mkProcess _ _ _ _).
  assert (threads P' !! t = Some p') as Ep'.
  { cbn [threads]. apply list_lookup_insert_eq. by eapply lookup_lt_Some. }
  destruct (IH P' p' eq_refl Ep') as (I1 & I2).
  destruct (run_thread k t P') as [ls P''] eqn:Er. cbn [fst snd tail] in *.
  split.
  - intros Hn. constructor; [by apply Hl | by apply I1].
  - by apply I1.
Qed.

(** X14: once the flag is up a worker starts no new tick: its next step
    may be the end of a sleep it is already in, and no step after that is a
    sleep; a worker that is not in a sleep does not sleep again at all. *)
Theorem worker_starts_no_tick_after_flag P t k :
  _stop_refresh P = true →
  Forall (λ l, is_sleep l = false) (tail (run_thread k t P).1)
  ∧ (∀ p, threads P !! t = Some p → ¬ sleeping p →
       Forall (λ l, is_sleep l = false) (run_thread k t P).1).
Proof.
  intros Hflag. destruct (threads P !! t) as [p|] eqn:Ep.
  - destruct (run_thread_flag_up_sleep k t P p Hflag Ep) as (H1 & H2).
    split; [done | by intros ? [= <-]].
  - assert (thread_step t P = None) as Es by (unfold thread_step; by rewrite Ep).
    assert (run_thread k t P = ([], P)) as ->.
    { destruct k; [done|]. cbn [run_thread]. by rewrite Es. }
    cbn [fst snd tail]. by split.
Qed.

Lemma worker_starts_no_tick_after_flag_witness :
  Forall (λ l, is_sleep l = false)
    (tail (run_thread 4 0
             (mkProcess (Some 0) true [AtSleep 7]
                (world_of ∅ (engine_ok []) NoFault Missing))).1)
  ∧ (∀ p, [AtFor 7] !! 0 = Some p → ¬ sleeping p →
       Forall (λ l, is_sleep l = false)
         (run_thread 4 0
            (mkProcess (Some 0) true [AtFor 7]
               (world_of ∅ (engine_ok []) NoFault Missing))).1).
Proof.
  split.
  - apply (worker_starts_no_tick_after_flag
             (mkProcess (Some 0) true [AtSleep 7]
                (world_of ∅ (engine_ok []) NoFault Missing)) 0 4).
    reflexivity.
  - apply (worker_starts_no_tick_after_flag
             (mkProcess (Some 0) true [AtFor 7]
                (world_of ∅ (engine_ok []) NoFault Missing)) 0 4).
    reflexivity.
Defined.

Lemma stop_keeps_thread n P t :
  _refresh_thread P = Some t →
  _refresh_thread (stop_cookie_refresh_loop n P) = Some t
  ∧ _stop_refresh (stop_cookie_refresh_loop n P) = true
  ∧ (4 ≤ n → is_alive (stop_cookie_refresh_loop n P) t = false).
Proof.
  intros Et.
  destruct (stop_spec n P) as [[En _] | (t' & P3 & Et' & E3 & ->)]; [congruence|].
  assert (t' = t) as -> by congruence.
  cbn [_refresh_thread _stop_refresh].
  set (P2 := mkProcess (Some t) true (threads P) (add_trace (EvJoin t 5) (world P)))
    in E3.
  destruct (run_thread_spec n t P2) as (Hr & Hs & _).
  destruct (run_thread_after_flag n t P2 eq_refl) as (_ & _ & Ha).
  rewrite <- E3 in Hr, Hs, Ha. split; [exact Hr|]. split; [exact Hs|].
  intros Hn. unfold is_alive. cbn [threads]. by apply Ha.
Qed.

(** X15: [start_cookie_refresh_loop] looks at the thread only, not at the
    flag.  Called after a stop while the old worker is still winding down,
    it does nothing: the flag stays up, the worker ends within four steps
    and the scheduler is left with no worker at all.  Called after a stop
    during whose join the worker has ended, it lowers the flag and runs one
    new worker. *)
Theorem start_after_stop :
  (∀ P n t,
     reachable P → _refresh_thread P = Some t →
     is_alive (stop_cookie_refresh_loop n P) t = true →
     _stop_refresh (start_cookie_refresh_loop (stop_cookie_refresh_loop n P)) = true
     ∧ threads (start_cookie_refresh_loop (stop_cookie_refresh_loop n P))
       = threads (stop_cookie_refresh_loop n P)
     ∧ ∀ k, 4 ≤ k →
         active_workers
           (run_thread k t
              (start_cookie_refresh_loop (stop_cookie_refresh_loop n P))).2 = 0)
  ∧ (∀ P n t,
       reachable P → _refresh_thread P = Some t → 4 ≤ n →
       _stop_refresh (start_cookie_refresh_loop (stop_cookie_refresh_loop n P)) = false
       ∧ threads (start_cookie_refresh_loop (stop_cookie_refresh_loop n P))
         = threads (stop_cookie_refresh_loop n P) ++ [AtInitialRefresh]
       ∧ active_workers (start_cookie_refresh_loop (stop_cookie_refresh_loop n P))
         = 1).
Proof.
  split; intros P n t HP Et.
  - intros Ha.
    assert (reachable (stop_cookie_refresh_loop n P)) as HS
      by (eapply reachable_step; [exact HP | constructor]).
    destruct (stop_keeps_thread n P t Et) as (Et' & Ef & _).
    set (S := stop_cookie_refresh_loop n P) in *.
    destruct (start_spawns_or_keeps S)
      as [(t' & _ & _ & E) | (Hd & _)]; [|by rewrite (Hd t Et') in Ha].
    assert (reachable (start_cookie_refresh_loop S)) as HQ
      by (eapply reachable_step; [exact HS | constructor]).
    revert HQ. rewrite E. intros HQ. cbn [_stop_refresh threads].
    split; [exact Ef|]. split; [done|]. intros k Hk.
    set (Q := mkProcess _ _ _ _) in *.
    destruct (run_thread_spec k t Q) as (Hr & _).
    destruct (run_thread_after_flag k t Q Ef) as (_ & _ & Hdead).
    rewrite (active_workers_single _ t).
    + by rewrite (Hdead Hk).
    + by apply single_worker_run_thread, reachable_single_worker.
    + by rewrite Hr.
  - intros Hn.
    assert (reachable (stop_cookie_refresh_loop n P)) as HS
      by (eapply reachable_step; [exact HP | constructor]).
    destruct (stop_keeps_thread n P t Et) as (Et' & Ef & Hdead).
    specialize (Hdead Hn).
    set (S := stop_cookie_refresh_loop n P) in *.
    split; [|split].
    + destruct (start_spawns_or_keeps S)
        as [(t' & Et'' & Ha & _) | (_ & ->)]; [congruence | done].
    + destruct (start_spawns_or_keeps S)
        as [(t' & Et'' & Ha & _) | (_ & ->)]; [congruence | done].
    + by apply active_workers_start, reachable_single_worker.
Qed.

Lemma start_after_stop_witness :
  (_stop_refresh
     (start_cookie_refresh_loop
        (stop_cookie_refresh_loop 0
           (start_cookie_refresh_loop
              (initial (world_of ∅ (engine_ok []) NoFault Missing))))) = true
   ∧ threads
       (start_cookie_refresh_loop
          (stop_cookie_refresh_loop 0
             (start_cookie_refresh_loop
                (initial (world_of ∅ (engine_ok []) NoFault Missing)))))
     = threads
         (stop_cookie_refresh_loop 0
            (start_cookie_refresh_loop
               (initial (world_of ∅ (engine_ok []) NoFault Missing))))
   ∧ ∀ k, 4 ≤ k →
       active_workers
         (run_thread k 0
            (start_cookie_refresh_loop
               (stop_cookie_refresh_loop 0
                  (start_cookie_refresh_loop
                     (initial (world_of ∅ (engine_ok []) NoFault Missing)))))).2
       = 0)
  ∧ (_stop_refresh
       (start_cookie_refresh_loop
          (stop_cookie_refresh_loop 4
             (start_cookie_refresh_loop
                (initial (world_of ∅ (engine_ok []) NoFault Missing))))) = false
     ∧ threads
         (start_cookie_refresh_loop
            (stop_cookie_refresh_loop 4
               (start_cookie_refresh_loop
                  (initial (world_of ∅ (engine_ok []) NoFault Missing)))))
       = threads
           (stop_cookie_refresh_loop 4
              (start_cookie_refresh_loop
                 (initial (world_of ∅ (engine_ok []) NoFault Missing))))
         ++ [AtInitialRefresh]
     ∧ active_workers
         (start_cookie_refresh_loop
            (stop_cookie_refresh_loop 4
               (start_cookie_refresh_loop
                  (initial (world_of ∅ (engine_ok []) NoFault Missing)))))
       = 1).
Proof.
  split.
  - apply (proj1 start_after_stop
             (start_cookie_refresh_loop
                (initial (world_of ∅ (engine_ok []) NoFault Missing))) 0 0).
    + eapply reachable_step; [apply reachable_initial | constructor].
    + reflexivity.
    + reflexivity.
  - apply (proj2 start_after_stop
             (start_cookie_refresh_loop
                (initial (world_of ∅ (engine_ok []) NoFault Missing))) 4 0).
    + eapply reachable_step; [apply reachable_initial | constructor].
    + reflexivity.
    + lia.
Defined.

(** ** When a refresh succeeds *)

(** X16: [refresh_cookies] never raises.  When getting the event loop or
    [run_until_complete] raises, it prints that error and returns false
    without a single call to the browser.  Otherwise it returns true
    exactly when both credentials are set and not empty, the browser
    starts, the login and the navigation succeed, the cookies of the
    session can be read, none is malformed, at least one is kept, and the
    disk takes the write.  Whether closing the browser fails makes no
    difference. *)
Theorem refresh_cookies_succeeds_iff loop w :
  ∃ b w',
    refresh_cookies_in loop w = (Val b, w')
    ∧ (b = true
       ↔ loop = None
         ∧ ∃ email password,
             has_credentials w email password
             ∧ first_failure (start_answers (engine w)) = None
             ∧ reaches_race (engine w) email password
             ∧ (e_wait_for_function (engine w) = None
                ∨ ∃ content,
                    e_content (engine w) = inr content
                    ∧ disambiguate (e_url (engine w)) content = Success)
             ∧ e_goto (engine w) YOUTUBE_URL = None
             ∧ (e_wait_for_selector (engine w) SelAccountIndicator = None
                ∨ e_query_selector (engine w) SelSignInButton = inr false)
             ∧ (∃ cookies,
                  e_cookies (engine w) = inr cookies
                  ∧ existsb malformed cookies = false
                  ∧ List.filter kept cookies ≠ [])
             ∧ disk_fault w = NoFault)
    ∧ (∀ e, loop = Some e → b = false ∧ w' = add_stdout (LogSyncRefreshError e) w).
Proof.
  destruct loop as [err|].
  { eexists _, _. split; [reflexivity|]. split.
    - split; [done | by intros [? _]].
    - by intros e [= <-]. }
  change (refresh_cookies_in None w) with (refresh_cookies w).
  enough (∃ b w', refresh_cookies w = (Val b, w')
                  ∧ (b = true
                     ↔ ∃ email password,
                         has_credentials w email password
                         ∧ first_failure (start_answers (engine w)) = None
                         ∧ reaches_race (engine w) email password
                         ∧ (e_wait_for_function (engine w) = None
                            ∨ ∃ content,
                                e_content (engine w) = inr content
                                ∧ disambiguate (e_url (engine w)) content = Success)
                         ∧ e_goto (engine w) YOUTUBE_URL = None
                         ∧ (e_wait_for_selector (engine w) SelAccountIndicator = None
                            ∨ e_query_selector (engine w) SelSignInButton = inr false)
                         ∧ (∃ cookies,
                              e_cookies (engine w) = inr cookies
                              ∧ existsb malformed cookies = false
                              ∧ List.filter kept cookies ≠ [])
                         ∧ disk_fault w = NoFault)) as (b & w' & E & Hb).
  { exists b, w'. split; [exact E|]. split; [|by intros e [=]].
    rewrite Hb. split; [by intros H | by intros [_ H]]. }
  set (w0 := set_self_page false (set_self_browser false w)).
  destruct (first_failure (start_answers (engine w))) as [[k e]|] eqn:Hs.
  { destruct (start_browser_fails w0 k e Hs) as (w1 & Es & _).
    eexists _, _. split; [by apply refresh_cookies_not_started|].
    split; [done | by intros (? & ? & _ & ? & _)]. }
  pose proof (start_browser_ok w0 Hs) as Es. wsimpl.
  set (w1 := mkWorld _ _ _ _ _ _ _ _) in Es.
  assert (environ w1 = environ w ∧ engine w1 = engine w
          ∧ disk_fault w1 = disk_fault w) as (Env1 & Eng1 & Dsk1) by done.
  (* the credential check *)
  destruct (PyStr.truthy (environ w1 !! "YOUTUBE_EMAIL")) eqn:Te;
    [destruct (PyStr.truthy (environ w1 !! "YOUTUBE_PASSWORD")) eqn:Tp|].
  2,3: (pose proof (perform_without_credentials w1 ltac:(auto)) as Ep;
        destruct (close_browser_unit
                    (add_stdout LogRefreshFailed (add_stdout LogMissingCredentials w1)))
          as (w5 & Ec);
        eexists _, _; split; [exact (refresh_cookies_started _ _ _ _ _ Es Ep Ec)|];
        split; [done|]; intros (email & password & (He & Hp & Hne & Hnp) & _);
        rewrite Env1 in *; rewrite ?He, ?Hp in *;
        destruct email, password; done).
  apply truthy_true in Te as (email & Ee & Hne), Tp as (password & Epw & Hnp).
  assert (has_credentials w1 email password) as Hc1 by done.
  assert (has_credentials w email password) as Hc.
  { unfold has_credentials. by rewrite <- Env1. }
  assert (∀ email' password', has_credentials w email' password' →
            email' = email ∧ password' = password) as Huniq.
  { intros email' password' (He' & Hp' & _). destruct Hc as (He & Hp & _).
    split; congruence. }
  (* the login *)
  destruct (login_to_gmail_cases email password w1) as (b1 & w2 & El & Hb1).
  pose proof (login_to_gmail_frame _ _ _ _ _ El) as F2.
  rewrite Eng1 in Hb1.
  destruct b1.
  2:{ pose proof (perform_login_failed _ _ _ _ Hc1 El) as Ep.
      destruct (close_browser_unit (add_stdout LogRefreshFailed w2)) as (w5 & Ec).
      eexists _, _. split; [exact (refresh_cookies_started _ _ _ _ _ Es Ep Ec)|].
      split; [done|]. intros (email' & password' & Hc' & _ & Hr & Hw & _).
      destruct (Huniq _ _ Hc') as [-> ->].
      by destruct Hb1 as [_ Hb1]; specialize (Hb1 (conj Hr Hw)). }
  destruct Hb1 as [Hb1 _]. specialize (Hb1 eq_refl). destruct Hb1 as [Hrace Hwait].
  (* the navigation *)
  destruct (navigate_to_youtube_cases w2) as (b2 & w3 & En & Hb2).
  pose proof (navigate_to_youtube_frame _ _ _ En) as F3.
  rewrite (frame_engine _ _ _ F2), Eng1 in Hb2.
  destruct b2.
  2:{ pose proof (perform_navigation_failed _ _ _ _ _ Hc1 El En) as Ep.
      destruct (close_browser_unit (add_stdout LogRefreshFailed w3)) as (w5 & Ec).
      eexists _, _. split; [exact (refresh_cookies_started _ _ _ _ _ Es Ep Ec)|].
      split; [done|]. intros (? & ? & _ & _ & _ & _ & Hg & Hi & _).
      by destruct Hb2 as [_ Hb2]; specialize (Hb2 (conj Hg Hi)). }
  destruct Hb2 as [Hb2 _]. specialize (Hb2 eq_refl). destruct Hb2 as [Hgoto Hind].
  (* the extraction *)
  destruct (extract_and_save_cookies_iff w3) as (b3 & w4 & Ex & Hb3 & _).
  rewrite (frame_engine _ _ _ F3), (frame_engine _ _ _ F2), Eng1 in Hb3.
  rewrite (frame_disk_fault _ _ _ F3), (frame_disk_fault _ _ _ F2), Dsk1 in Hb3.
  pose proof (perform_extracts _ _ _ _ _ _ _ Hc1 El En Ex) as Ep.
  destruct (close_browser_unit
              (add_stdout (if b3 then LogRefreshed else LogRefreshFailed) w4))
    as (w5 & Ec).
  exists b3, w5. split; [exact (refresh_cookies_started _ _ _ _ _ Es Ep Ec)|].
  rewrite Hb3. split.
  - intros (cookies & Ek & Hm & Hk & Hd).
    exists email, password. do 6 (split; [done|]).
    split; [by exists cookies | done].
  - intros (? & ? & _ & _ & _ & _ & _ & _ & (cookies & Ek & Hm & Hk) & Hd).
    by exists cookies.
Qed.

Lemma refresh_cookies_succeeds_iff_witness :
  ∃ b w',
    refresh_cookies_in (Some "This event loop is already running")
      (world_of credentials (engine_ok [youtube_cookie]) NoFault Missing)
    = (Val b, w')
    ∧ b = false
    ∧ w' = add_stdout (LogSyncRefreshError "This event loop is already running")
             (world_of credentials (engine_ok [youtube_cookie]) NoFault Missing).
Proof.
  destruct (refresh_cookies_succeeds_iff (Some "This event loop is already running")
              (world_of credentials (engine_ok [youtube_cookie]) NoFault Missing))
    as (b & w' & E & _ & H).
  exists b, w'. split; [exact E|]. by apply H.
Defined.

(** ** A file that was cut off *)

Lemma skip_ws_app s c r q :
  Json.skip_ws s = String c r → Json.skip_ws (s +:+ q) = String c r +:+ q.
Proof.
  induction s as [|x s IH]; cbn [Json.skip_ws String.append]; [done|].
  destruct (Json.is_ws x); [exact IH|]. by intros [= -> ->].
Qed.

Lemma skip_ws_delimited r c r1 :
  Json.skip_ws r = String c r1 →
  c = ","%char ∨ c = "]"%char ∨ c = "}"%char → delimited r.
Proof.
  destruct r as [|x r]; [done|]. cbn [Json.skip_ws delimited].
  destruct (Json.is_ws x); [by left|]. intros [= -> _] H. by right.
Qed.

Lemma strip_prefix_app p s r q :
  Json.strip_prefix p s = Some r → Json.strip_prefix p (s +:+ q) = Some (r +:+ q).
Proof.
  revert s. induction p as [|a p IH]; intros s; cbn [Json.strip_prefix].
  - by intros [= ->].
  - destruct s as [|b s]; [done|]. cbn [String.append]. destruct (Ascii.eqb a b); [|done].
    apply IH.
Qed.

Lemma keyword_app p v : extends (Json.keyword p v).
Proof.
  intros s x r q. unfold Json.keyword.
  destruct (Json.strip_prefix p s) as [r'|] eqn:E; [|done].
  cbn [mbind option_bind]. intros [= <- <-].
  by rewrite (strip_prefix_app _ _ _ q E).
Qed.

Lemma fmap_cons_fst_inv (a : N) (x : option (list N * string)) l r :
  Json.cons_fst a <$> x = Some (l, r) → ∃ l', x = Some (l', r) ∧ l = a :: l'.
Proof. destruct x as [[l' r']|]; [|done]. intros [= <- <-]. by exists l'. Qed.

Lemma scanstring_app_aux n s l r q :
  String.length s ≤ n →
  Json.scanstring s = Some (l, r) → Json.scanstring (s +:+ q) = Some (l, r +:+ q).
Proof.
  revert s l r. induction n as [|n IH]; intros s l r Hn.
  { destruct s; [done | cbn in Hn; lia]. }
  destruct s as [|c s]; [done|]. cbn [Json.scanstring String.append].
  destruct (Ascii.eqb c Json.dquote); [by intros [= <- <-]|].
  assert (∀ a t, String.length t ≤ n →
            Json.cons_fst a <$> Json.scanstring t = Some (l, r) →
            Json.cons_fst a <$> Json.scanstring (t +:+ q) = Some (l, r +:+ q)) as Hrec.
  { intros a t Ht (l' & E & ->)%fmap_cons_fst_inv. by rewrite (IH _ _ _ Ht E). }
  cbn [String.length] in Hn.
  destruct (Ascii.eqb c Json.backslash).
  2:{ destruct (Json.code c <? 32)%N; [done|]. apply Hrec. lia. }
  destruct s as [|e r1]; [done|]. cbn [String.append String.length] in *.
  destruct (Ascii.eqb e "u").
  2:{ destruct (Json.simple_escape e); [|done]. apply Hrec. lia. }
  destruct r1 as [|h1 [|h2 [|h3 [|h4 r2]]]]; try done.
  cbn [String.append String.length] in *.
  destruct (Json.decode_uXXXX h1 h2 h3 h4) as [uni|]; [|done].
  destruct r2 as [|b2 [|u2 r3]]; [done| |].
  - (* one character is left: it is the closing quote *)
    intros H. pose proof (Hrec uni (String b2 EmptyString) ltac:(cbn; lia) H) as Hq.
    cbn [String.append] in Hq |- *.
    destruct q as [|u2 q]; [exact Hq|].
    destruct (Ascii.eqb_spec b2 Json.backslash) as [->|Hb];
      [discriminate H | by rewrite andb_false_r].
  - cbn [String.append String.length] in *.
    destruct (Json.is_high_surrogate uni && Ascii.eqb b2 Json.backslash
              && Ascii.eqb u2 "u").
    2:{ intros H. apply (Hrec uni (String b2 (String u2 r3))); [cbn; lia | exact H]. }
    destruct r3 as [|k1 [|k2 [|k3 [|k4 r4]]]]; try done.
    cbn [String.append String.length] in *.
    destruct (Json.decode_uXXXX k1 k2 k3 k4) as [uni2|]; [|done].
    destruct (Json.is_low_surrogate uni2).
    + apply Hrec. lia.
    + intros H.
      apply (Hrec uni (String b2 (String u2 (String k1 (String k2 (String k3
                (String k4 r4))))))); [cbn; lia | exact H].
Qed.

Lemma scanstring_app : extends Json.scanstring.
Proof. intros s l r q. by apply (scanstring_app_aux (String.length s)). Qed.

Lemma span_digits_app s ds x r q :
  Json.span_digits s = (ds, String x r) →
  Json.span_digits (s +:+ q) = (ds, String x r +:+ q).
Proof.
  revert ds. induction s as [|c s IH]; intros ds; cbn [Json.span_digits String.append];
    [done|].
  destruct (Json.is_digit c); [|by intros [= <- <- <-]].
  destruct (Json.span_digits s) as [ds' r'] eqn:E. intros [= <- ->].
  by rewrite (IH ds' eq_refl).
Qed.

Lemma match_integer_app s lex x r q :
  Json.match_integer s = Some (lex, String x r) →
  Json.match_integer (s +:+ q) = Some (lex, String x r +:+ q).
Proof.
  assert (∀ sign t,
            match t with
            | EmptyString => None
            | String c r' =>
              if Ascii.eqb c "0" then Some (sign +:+ "0", r')
              else if Json.is_digit c then
                let '(ds, r'') := Json.span_digits r' in Some (sign +:+ String c ds, r'')
              else None
            end = Some (lex, String x r) →
            match t +:+ q with
            | EmptyString => None
            | String c r' =>
              if Ascii.eqb c "0" then Some (sign +:+ "0", r')
              else if Json.is_digit c then
                let '(ds, r'') := Json.span_digits r' in Some (sign +:+ String c ds, r'')
              else None
            end = Some (lex, String x r +:+ q)) as Haux.
  { intros sign [|c t]; [done|]. cbn [String.append].
    destruct (Ascii.eqb c "0"); [by intros [= <- ->]|].
    destruct (Json.is_digit c); [|done].
    destruct (Json.span_digits t) as [ds r''] eqn:E. intros [= <- ->].
    by rewrite (span_digits_app _ _ _ _ q E). }
  unfold Json.match_integer. destruct s as [|c s]; [done|].
  destruct (Ascii.eqb_spec c "-") as [->|Hc].
  - cbn [String.append]. apply (Haux "-" s).
  - assert (∀ u, (let '(sign, r0) :=
                    match String c u with
                    | String "-"%char r0 => ("-", r0)
                    | _ => (EmptyString, String c u)
                    end in
                  match r0 with
                  | EmptyString => None
                  | String c0 r' =>
                    if Ascii.eqb c0 "0" then Some (sign +:+ "0", r')
                    else if Json.is_digit c0 then
                      let '(ds, r'') := Json.span_digits r' in
                      Some (sign +:+ String c0 ds, r'')
                    else None
                  end)
                 = match String c u with
                   | EmptyString => None
                   | String c0 r' =>
                     if Ascii.eqb c0 "0" then Some (EmptyString +:+ "0", r')
                     else if Json.is_digit c0 then
                       let '(ds, r'') := Json.span_digits r' in
                       Some (EmptyString +:+ String c0 ds, r'')
                     else None
                   end) as Hn.
    { intros u. destruct c as [[] [] [] [] [] [] [] []]; try reflexivity.
      by destruct Hc. }
    cbn [String.append]. rewrite !Hn. apply (Haux EmptyString (String c s)).
Qed.

Lemma match_integer_none_app c1 c2 s q :
  Json.match_integer (String c1 (String c2 s)) = None →
  Json.match_integer (String c1 (String c2 s) +:+ q) = None.
Proof.
  unfold Json.match_integer. cbn [String.append].
  destruct (Ascii.eqb_spec c1 "-") as [->|Hc].
  - destruct (Ascii.eqb c2 "0"); [done|]. destruct (Json.is_digit c2); [|done].
    by destruct (Json.span_digits s).
  - assert (∀ u, (let '(sign, r0) :=
                    match String c1 u with
                    | String "-"%char r0 => ("-", r0)
                    | _ => (EmptyString, String c1 u)
                    end in
                  match r0 with
                  | EmptyString => None
                  | String c0 r' =>
                    if Ascii.eqb c0 "0" then Some (sign +:+ "0", r')
                    else if Json.is_digit c0 then
                      let '(ds, r'') := Json.span_digits r' in
                      Some (sign +:+ String c0 ds, r'')
                    else None
                  end)
                 = (if Ascii.eqb c1 "0" then Some ("0", u)
                    else if Json.is_digit c1 then
                      let '(ds, r'') := Json.span_digits u in Some (String c1 ds, r'')
                    else None)) as Hn.
    { intros u. destruct c1 as [[] [] [] [] [] [] [] []]; try reflexivity.
      by destruct Hc. }
    rewrite !Hn. destruct (Ascii.eqb c1 "0"); [done|].
    destruct (Json.is_digit c1); [|done]. by destruct (Json.span_digits (String c2 s)).
Qed.

Lemma match_frac_app s frac x r q :
  Json.match_frac s = (frac, String x r) → x ≠ "."%char →
  Json.match_frac (s +:+ q) = (frac, String x r +:+ q).
Proof.
  unfold Json.match_frac. destruct s as [|c s]; [done|]. cbn [String.append].
  destruct (Ascii.eqb_spec c ".") as [->|Hc].
  - destruct (Json.span_digits s) as [[|d ds] r'] eqn:E.
    + by intros [= _ <- _] Hx.
    + intros [= <- ->] _. by rewrite (span_digits_app _ _ _ _ q E).
  - assert (∀ u, match String c u with
                 | String "."%char r0 =>
                   match Json.span_digits r0 with
                   | (String d ds, r') => (String "."%char (String d ds), r')
                   | _ => (EmptyString, String c u)
                   end
                 | _ => (EmptyString, String c u)
                 end = (EmptyString, String c u)) as Hn.
    { intros u. destruct c as [[] [] [] [] [] [] [] []]; try reflexivity.
      by destruct Hc. }
    rewrite !Hn. by intros [= <- <- <-] _.
Qed.

Lemma match_exp_app s exp r q :
  Json.match_exp s = (exp, r) → delimited r →
  Json.match_exp (s +:+ q) = (exp, r +:+ q).
Proof.
  unfold Json.match_exp. destruct s as [|e s]; [by intros [= _ <-] ?|].
  cbn [String.append].
  destruct (Ascii.eqb e "e" || Ascii.eqb e "E") eqn:Ee.
  2:{ by intros [= <- <-] _. }
  assert (∀ sign r1,
            match Json.span_digits r1 with
            | (String d ds, r') => (String e (sign +:+ String d ds), r')
            | _ => (EmptyString, String e s)
            end = (exp, r) → delimited r →
            match Json.span_digits (r1 +:+ q) with
            | (String d ds, r') => (String e (sign +:+ String d ds), r')
            | _ => (EmptyString, String e (s +:+ q))
            end = (exp, r +:+ q)) as Haux.
  { intros sign r1. destruct (Json.span_digits r1) as [[|d ds] r'] eqn:E.
    - intros [= _ <-] Hd. cbn [delimited] in Hd.
      apply orb_true_iff in Ee as [->%Ascii.eqb_eq | ->%Ascii.eqb_eq];
        by destruct Hd as [? | [? | [? | ?]]].
    - intros [= <- <-] Hd. destruct r' as [|x r']; [done|].
      by rewrite (span_digits_app _ _ _ _ q E). }
  destruct s as [|c s].
  - intros H Hd. exfalso. cbn in H. injection H as _ <-. cbn [delimited] in Hd.
    apply orb_true_iff in Ee as [->%Ascii.eqb_eq | ->%Ascii.eqb_eq];
      by destruct Hd as [? | [? | [? | ?]]].
  - cbn [String.append].
    destruct (Ascii.eqb_spec c "+") as [->|Hp]; [apply (Haux "+")|].
    destruct (Ascii.eqb_spec c "-") as [->|Hm]; [apply (Haux "-")|].
    assert (∀ u, match String c u with
                 | String "+"%char r1 => ("+", r1)
                 | String "-"%char r1 => ("-", r1)
                 | _ => (EmptyString, String c u)
                 end = (EmptyString, String c u)) as Hn.
    { intros u. destruct c as [[] [] [] [] [] [] [] []]; try reflexivity;
        [by destruct Hm | by destruct Hp]. }
    rewrite !Hn. apply (Haux EmptyString (String c s)).
Qed.

Lemma match_number_app s lex r q :
  Json.match_number s = Some (lex, r) → delimited r →
  Json.match_number (s +:+ q) = Some (lex, r +:+ q).
Proof.
  unfold Json.match_number.
  destruct (Json.match_integer s) as [[i r1]|] eqn:Ei; [|done].
  cbn [mbind option_bind].
  pose proof (match_frac_length r1) as L1.
  destruct (Json.match_frac r1) as [frac r2] eqn:Ef. cbn [snd] in L1.
  pose proof (match_exp_length r2) as L2.
  destruct (Json.match_exp r2) as [exp r3] eqn:Ee. cbn [snd] in L2.
  intros [= <- ->] Hd.
  assert (0 < String.length r) as Lr by (destruct r; [done | cbn; lia]).
  destruct r2 as [|x2 r2]; [cbn in L2; lia|].
  destruct r1 as [|x1 r1]; [cbn in L1; lia|].
  assert (x2 ≠ "."%char) as Hx2.
  { intros ->. cbn in Ee. injection Ee as _ <-. cbn [delimited] in Hd.
    by destruct Hd as [? | [? | [? | ?]]]. }
  rewrite (match_integer_app _ _ _ _ q Ei). cbn [mbind option_bind].
  rewrite (match_frac_app _ _ _ _ q Ef Hx2).
  by rewrite (match_exp_app _ _ _ q Ee Hd).
Qed.

Lemma match_number_none_app c1 c2 s q :
  Json.match_number (String c1 (String c2 s)) = None →
  Json.match_number (String c1 (String c2 s) +:+ q) = None.
Proof.
  unfold Json.match_number.
  destruct (Json.match_integer (String c1 (String c2 s))) as [[i r1]|] eqn:Ei.
  - cbn [mbind option_bind]. destruct (Json.match_frac r1) as [frac r2].
    by destruct (Json.match_exp r2).
  - intros _. by rewrite (match_integer_none_app _ _ _ q Ei).
Qed.

Lemma scan_once_nil n : Json.scan_once n EmptyString = None.
Proof. by destruct n. Qed.

Lemma array_loop_nil n : Json.array_loop n EmptyString = None.
Proof. destruct n as [|n]; [done|]. cbn [Json.array_loop]. by rewrite scan_once_nil. Qed.

(** The decoder, with a text added at the end. *)
Lemma decoder_app n :
  (∀ s v r q,
     Json.scan_once n s = Some (v, r) →
     (is_number v = true → delimited r) →
     Json.scan_once n (s +:+ q) = Some (v, r +:+ q))
  ∧ extends (Json.array_loop n) ∧ extends (Json.object_loop n).
Proof.
  induction n as [|n (IHs & IHa & IHo)]; [by repeat split|].
  split; [|split].
  - intros s v r q H Hnum. cbn [Json.scan_once] in H |- *.
    destruct s as [|c s0]; [done|]. cbn [String.append].
    destruct (Ascii.eqb c Json.dquote).
    { destruct (Json.scanstring s0) as [[str r']|] eqn:E; [|done].
      cbn [mbind option_bind] in H. injection H as <- <-.
      by rewrite (scanstring_app _ _ _ q E). }
    destruct (Ascii.eqb c "{").
    { destruct (Json.skip_ws s0) as [|c1 r1] eqn:Ews; [done|].
      rewrite (skip_ws_app _ _ _ q Ews). cbn [String.append].
      destruct (Ascii.eqb c1 "}"); [by injection H as <- <-|].
      destruct (Ascii.eqb c1 Json.dquote); [|done].
      destruct (Json.object_loop n r1) as [[pairs r2]|] eqn:E; [|done].
      cbn [mbind option_bind] in H. injection H as <- <-.
      by rewrite (IHo _ _ _ q E). }
    destruct (Ascii.eqb c "[").
    { destruct (Json.skip_ws s0) as [|c1 r1] eqn:Ews; [done|].
      rewrite (skip_ws_app _ _ _ q Ews). cbn [String.append].
      destruct (Ascii.eqb c1 "]"); [by injection H as <- <-|].
      destruct (Json.array_loop n (String c1 r1)) as [[items r2]|] eqn:E; [|done].
      cbn [mbind option_bind] in H. injection H as <- <-.
      pose proof (IHa _ _ _ q E) as Ha. cbn [String.append] in Ha.
      by rewrite Ha. }
    destruct (Ascii.eqb c "n"); [by apply (keyword_app _ _ (String c s0))|].
    destruct (Ascii.eqb c "t"); [by apply (keyword_app _ _ (String c s0))|].
    destruct (Ascii.eqb c "f"); [by apply (keyword_app _ _ (String c s0))|].
    destruct (Json.match_number (String c s0)) as [[lexeme r']|] eqn:E.
    { injection H as <- <-.
      pose proof (match_number_app _ _ _ q E (Hnum eq_refl)) as Hm.
      cbn [String.append] in Hm. by rewrite Hm. }
    destruct s0 as [|c2 s1].
    { unfold Json.keyword in H. cbn [Json.strip_prefix] in H.
      repeat case_match; done. }
    pose proof (match_number_none_app _ _ _ q E) as Hm.
    cbn [String.append] in Hm |- *. rewrite Hm.
    destruct (Ascii.eqb c "N");
      [by apply (keyword_app _ _ (String c (String c2 s1)))|].
    destruct (Ascii.eqb c "I");
      [by apply (keyword_app _ _ (String c (String c2 s1)))|].
    destruct (Ascii.eqb c "-");
      [by apply (keyword_app _ _ (String c (String c2 s1))) | done].
  - intros s items r q H. cbn [Json.array_loop] in H |- *.
    destruct (Json.scan_once n s) as [[value r0]|] eqn:E; [|done].
    cbn [mbind option_bind] in H.
    destruct (Json.skip_ws r0) as [|c r1] eqn:Ews; [done|].
    assert (c = ","%char ∨ c = "]"%char ∨ c = "}"%char) as Hc.
    { destruct (Ascii.eqb_spec c "]") as [->|]; [by auto|].
      destruct (Ascii.eqb_spec c ",") as [->|]; [by auto | done]. }
    rewrite (IHs _ _ _ q E (λ _, skip_ws_delimited _ _ _ Ews Hc)).
    cbn [mbind option_bind]. rewrite (skip_ws_app _ _ _ q Ews). cbn [String.append].
    destruct (Ascii.eqb c "]"); [by injection H as <- <-|].
    destruct (Ascii.eqb c ","); [|done].
    destruct (Json.skip_ws r1) as [|c' r'] eqn:Ews1;
      [by rewrite array_loop_nil in H|].
    rewrite (skip_ws_app _ _ _ q Ews1).
    destruct (Json.array_loop n (String c' r')) as [[rest r2]|] eqn:Ea; [|done].
    cbn [mbind option_bind] in H. injection H as <- <-.
    by rewrite (IHa _ _ _ q Ea).
  - intros s pairs r q H. cbn [Json.object_loop] in H |- *.
    destruct (Json.scanstring s) as [[key r0]|] eqn:Ek; [|done].
    cbn [mbind option_bind] in H. rewrite (scanstring_app _ _ _ q Ek).
    cbn [mbind option_bind].
    destruct (Json.skip_ws r0) as [|c r1] eqn:Ews; [done|].
    rewrite (skip_ws_app _ _ _ q Ews). cbn [String.append].
    destruct (Ascii.eqb c ":"); [|done].
    destruct (Json.skip_ws r1) as [|c' r'] eqn:Ews1;
      [by rewrite scan_once_nil in H|].
    rewrite (skip_ws_app _ _ _ q Ews1).
    destruct (Json.scan_once n (String c' r')) as [[value r2]|] eqn:E; [|done].
    cbn [mbind option_bind] in H.
    destruct (Json.skip_ws r2) as [|c2 r3] eqn:Ews2; [done|].
    assert (c2 = ","%char ∨ c2 = "]"%char ∨ c2 = "}"%char) as Hc.
    { destruct (Ascii.eqb_spec c2 "}") as [->|]; [by auto|].
      destruct (Ascii.eqb_spec c2 ",") as [->|]; [by auto | done]. }
    rewrite (IHs _ _ _ q E (λ _, skip_ws_delimited _ _ _ Ews2 Hc)).
    cbn [mbind option_bind]. rewrite (skip_ws_app _ _ _ q Ews2). cbn [String.append].
    destruct (Ascii.eqb c2 "}"); [by injection H as <- <-|].
    destruct (Ascii.eqb c2 ","); [|done].
    destruct (Json.skip_ws r3) as [|c3 r4] eqn:Ews3; [done|].
    rewrite (skip_ws_app _ _ _ q Ews3). cbn [String.append].
    destruct (Ascii.eqb c3 Json.dquote); [|done].
    destruct (Json.object_loop n r4) as [[rest r5]|] eqn:Eo; [|done].
    cbn [mbind option_bind] in H. injection H as <- <-.
    by rewrite (IHo _ _ _ q Eo).
Qed.

Lemma scan_once_bracket n s v r :
  Json.scan_once n (String "[" s) = Some (v, r) → is_number v = false.
Proof.
  destruct n as [|n]; [done|]. cbn.
  destruct (Json.skip_ws s) as [|c1 r1]; [done|].
  destruct (Ascii.eqb c1 "]"); [by intros [= <- _]|].
  destruct (Json.array_loop n (String c1 r1)) as [[items r2]|]; [|done].
  by intros [= <- _].
Qed.

Lemma loads_inv s v :
  Json.loads s = Some v →
  ∃ r, Json.scan_once (2 * String.length s + 1) (Json.skip_ws s) = Some (v, r)
       ∧ Json.skip_ws r = EmptyString.
Proof.
  unfold Json.loads.
  destruct (Json.scan_once _ _) as [[obj r]|]; [|done]. cbn [mbind option_bind].
  destruct (Json.skip_ws r) eqn:E; [|done]. intros [= ->]. by exists r.
Qed.

Lemma take_string_split n s :
  ∃ q, s = take_string n s +:+ q ∧ (n < String.length s → q ≠ EmptyString).
Proof.
  revert s. induction n as [|n IH]; intros s.
  { exists s. split; [done|]. destruct s; [cbn; lia | done]. }
  destruct s as [|c s]; [exists EmptyString; split; [done | cbn; lia]|].
  destruct (IH s) as (q & E & Hq). exists q. cbn [take_string String.append String.length].
  split; [by rewrite <- E | intros ?; apply Hq; lia].
Qed.

Lemma append_last_char p q a c :
  p +:+ q = a +:+ String c EmptyString → q ≠ EmptyString →
  ∃ q', q = q' +:+ String c EmptyString.
Proof.
  revert a. induction p as [|x p IH]; intros a; cbn [String.append].
  { intros -> _. by exists a. }
  destruct a as [|y a]; cbn [String.append].
  - intros [= _ H] Hq. destruct p, q; done.
  - intros [= _ H]. by apply (IH a).
Qed.

Lemma skip_ws_nil_last a c :
  Json.skip_ws (a +:+ String c EmptyString) = EmptyString → Json.is_ws c = true.
Proof.
  induction a as [|x a IH]; cbn [String.append Json.skip_ws].
  - by destruct (Json.is_ws c).
  - by destruct (Json.is_ws x).
Qed.

Lemma skip_ws_nil_app r q :
  Json.skip_ws r = EmptyString → Json.skip_ws (r +:+ q) = Json.skip_ws q.
Proof.
  induction r as [|x r IH]; cbn [String.append Json.skip_ws]; [done|].
  by destruct (Json.is_ws x).
Qed.

Lemma dumps_cookies_brackets l :
  (∃ a, dumps_cookies l = String "[" a)
  ∧ ∃ b, dumps_cookies l = b +:+ "]".
Proof.
  unfold dumps_cookies, Json.encode_list.
  destruct (map encode_cookie l) as [|x xs]; [split; [by exists "]" | by exists "["]|].
  split; [by eexists|].
  eexists ("[" +:+ Json.newline_indent 1
           +:+ String.concat ("," +:+ Json.newline_indent 1) (x :: xs)
           +:+ Json.newline_indent 0).
  by rewrite !append_assoc.
Qed.

(** A text that is cut off before its end is not JSON, when the whole text
    is a JSON array that ends with its closing bracket. *)
Lemma loads_take_string D a b V n :
  D = String "[" a → D = b +:+ "]" → Json.loads D = Some V →
  n < String.length D → Json.loads (take_string n D) = None.
Proof.
  intros Ea Eb HD Hn.
  destruct (take_string_split n D) as (q & Eq & Hq). specialize (Hq Hn).
  destruct (Json.loads (take_string n D)) as [v|] eqn:Hp; [exfalso|done].
  apply loads_inv in Hp as (r & Hp & Hr), HD as (rD & HD & HrD).
  set (p := take_string n D) in *.
  assert (∃ t, p = String "[" t) as (t & Ep).
  { subst p. rewrite Ea. destruct n as [|n]; [|by eexists].
    exfalso. cbn in Hp. by rewrite ?scan_once_nil in Hp. }
  assert (Json.skip_ws p = p) as Ewp by (by rewrite Ep).
  assert (Json.skip_ws D = D) as EwD by (by rewrite Ea).
  rewrite Ewp in Hp. rewrite EwD in HD.
  assert (is_number v = false) as Hv.
  { rewrite Ep in Hp. by eapply scan_once_bracket. }
  destruct (decoder_app (2 * String.length p + 1)) as (Happ & _ & _).
  pose proof (Happ _ _ _ q Hp ltac:(by rewrite Hv)) as Hpq. rewrite <- Eq in Hpq.
  destruct (decoder_fuel_enough (2 * String.length p + 1)) as (Hfuel & _ & _).
  destruct (Hfuel _ _ _ Hpq) as (_ & Hany).
  rewrite Hany in HD by lia. injection HD as _ <-.
  rewrite (skip_ws_nil_app _ _ Hr) in HrD.
  destruct (append_last_char p q b "]") as (q' & ->); [congruence | done |].
  by apply skip_ws_nil_last in HrD.
Qed.

(** X17: a cookie file that was cut off anywhere before its last character
    is not JSON: [check_cookies_file] returns false for it.  So the file a
    failed dump leaves behind is never taken for a valid one. *)
Theorem truncated_cookie_file_is_invalid :
  (∀ l n, n < String.length (dumps_cookies l) →
     Json.loads (take_string n (dumps_cookies l)) = None)
  ∧ (∀ l n w,
       n < String.length (dumps_cookies l) →
       cookies_file w = Text (take_string n (dumps_cookies l)) →
       check_cookies_file w = (Val false, w)).
Proof.
  assert (∀ l n, n < String.length (dumps_cookies l) →
            Json.loads (take_string n (dumps_cookies l)) = None) as Hcut.
  { intros l n Hn.
    destruct (dumps_cookies_brackets l) as ((a & Ea) & (b & Eb)).
    apply (loads_take_string _ a b (Json.JArray (map cookie_json l))); try done.
    destruct l as [|p l]; [reflexivity | by apply loads_dumps_cookies]. }
  split; [exact Hcut|]. intros l n w Hn Ef.
  unfold check_cookies_file. munfold. by rewrite Ef, (Hcut l n Hn).
Qed.

Lemma truncated_cookie_file_is_invalid_witness :
  Json.loads (take_string 10 (dumps_cookies [stored_cookie])) = None
  ∧ check_cookies_file
      (world_with_file (Text (take_string 10 (dumps_cookies [stored_cookie]))))
    = (Val false,
       world_with_file (Text (take_string 10 (dumps_cookies [stored_cookie])))).
Proof.
  split.
  - apply (proj1 truncated_cookie_file_is_invalid [stored_cookie] 10).
    vm_compute. lia.
  - apply (proj2 truncated_cookie_file_is_invalid [stored_cookie] 10
             (world_with_file (Text (take_string 10 (dumps_cookies [stored_cookie]))))).
    + vm_compute. lia.
    + reflexivity.
Defined.
